(** * Audio-reactive canvas renderers: a shallow embedding

    Source files embedded here:
      - src/components/visualizers/ChemicalOrbitalsRenderer.ts
      - src/components/visualizers/KaleidoscopeRenderer.ts

    Conventions of the embedding.

    - A JavaScript [number] is an IEEE 754 binary64 value; it is modelled by
      Rocq's primitive [float], whose [+ - * /], [sqrt] and comparisons are
      the correctly rounded IEEE operations that JavaScript prescribes.
    - Numbers that the source only ever uses as exact integer counters
      ([time], [energyLevelTimer], [currentEnergyLevel], loop indices, the
      operands of [| 0]) are modelled by [Z]; they coincide with the doubles
      of the source while below 2^53. So is [bufferLength], which the
      callers of [render] pass as [dataArray.length].
    - [Math.sin], [Math.cos], [Math.atan2] are implementation-approximated in
      JavaScript and [Math.random] is a source of pseudo-random numbers: they
      are taken as a parameter ([MathLib]).
    - A method is a computation in a state monad over the world (the
      receiver [this], the caller's [Uint8Array], the random source); an
      exception leaves the mutations made before it in place.
    - The Canvas 2D context is a collaborator: each drawing routine of the
      source is recorded as one entry of the context's call log, carrying the
      values the routine is called with. Its methods are taken to return;
      the exception of the embedding is the [TypeError] of a method call on
      a [null] context.  *)

From Stdlib Require Import ZArith List Bool Lia Floats String.
From Stdlib Require Import Strings.Byte.
Import ListNotations.
Local Open Scope Z_scope.

(* ================================================================== *)
(** * JavaScript numbers *)
(* ================================================================== *)

Module JS.

Definition number := float.

(** The double nearest to an integer (exact below 2^53). *)
Definition of_Z (z : Z) : number :=
  SF2Prim (binary_normalize prec emax z 0 false).

Definition of_byte (b : byte) : number := of_Z (Z.of_N (Byte.to_N b)).

(** [x > y], [x >= y], [x < y], [x <= y]: false as soon as one side is NaN. *)
Definition gt (x y : number) : bool := PrimFloat.ltb y x.
Definition ge (x y : number) : bool := PrimFloat.leb y x.
Definition lt (x y : number) : bool := PrimFloat.ltb x y.
Definition le (x y : number) : bool := PrimFloat.leb x y.

(** Truthiness of a number, as [||] and [?:] test it. *)
Definition truthy (x : number) : bool := negb (is_zero x || is_nan x).

(** [x || y] on numbers. *)
Definition or_else (x y : number) : number := if truthy x then x else y.

(** The integer floor of a finite number; [None] for NaN and the
    infinities. *)
Definition floorZ (x : number) : option Z :=
  match Prim2SF x with
  | S754_zero _ => Some 0
  | S754_finite s m e =>
      Some (if 0 <=? e then cond_Zopp s (Zpos m) * 2 ^ e
            else cond_Zopp s (Zpos m) / 2 ^ (- e))
  | _ => None
  end.

(** [Math.floor]: NaN, the infinities and the zeros are returned as they
    are; a value in (0,1) gives +0. *)
Definition Math_floor (x : number) : number :=
  match floorZ x with
  | Some 0 => if get_sign x then neg_zero else zero
  | Some z => of_Z z
  | None => x
  end.

(** [Math.floor(x)] where the source uses the result only as the bound of
    a counting loop: the integer itself. A NaN bound admits no iteration. *)
Definition floor_int (x : number) : Z :=
  match floorZ x with Some z => z | None => 0 end.

(** The number of iterations of [for (let i = 0; i < bound; i++)] for a
    bound that is not +Infinity. *)
Definition iterations (bound : number) : nat :=
  match floorZ (PrimFloat.opp bound) with
  | Some z => Z.to_nat (- z)
  | None => 0%nat
  end.

(** [ToInt32], the conversion that [x | 0] applies: truncate toward zero,
    wrap modulo 2^32 into the signed range; NaN and the infinities give 0. *)
Definition ToInt32 (x : number) : Z :=
  match Prim2SF x with
  | S754_finite s m e =>
      let t := if 0 <=? e then cond_Zopp s (Zpos m) * 2 ^ e
               else Z.quot (cond_Zopp s (Zpos m)) (2 ^ (- e)) in
      let u := t mod 2 ^ 32 in
      if u <? 2 ^ 31 then u else u - 2 ^ 32
  | _ => 0
  end.

(** [Math.min] of two numbers: NaN as soon as one is NaN, and -0 below +0. *)
Definition Math_min (x y : number) : number :=
  if is_nan x || is_nan y then nan
  else if PrimFloat.ltb x y then x
  else if PrimFloat.ltb y x then y
  else match Prim2SF x with S754_zero true => x | _ => y end.

Definition Math_abs (x : number) : number := PrimFloat.abs x.
Definition Math_sqrt (x : number) : number := PrimFloat.sqrt x.

(** [x % y] on numbers: the exact remainder of the truncated division,
    with the sign of the dividend. *)
Definition rem (x y : number) : number :=
  match Prim2SF x, Prim2SF y with
  | S754_nan, _ | _, S754_nan => nan
  | S754_infinity _, _ => nan
  | _, S754_zero _ => nan
  | _, S754_infinity _ => x
  | S754_zero _, _ => x
  | S754_finite sx mx ex, S754_finite _ my ey =>
      let e := Z.min ex ey in
      let r := (Zpos mx * 2 ^ (ex - e)) mod (Zpos my * 2 ^ (ey - e)) in
      if r =? 0 then (if sx then neg_zero else zero)
      else SF2Prim (binary_normalize prec emax (cond_Zopp sx r) e false)
  end.

Definition Math_PI : number := 0x1.921fb54442d18p+1%float.

End JS.

(* ================================================================== *)
(** * Effects: mutable state and exceptions *)
(* ================================================================== *)

Module Eff.

(** The exceptions the embedded code can raise: dereferencing [null]. *)
Inductive exn := TypeError.

Inductive completion (A : Type) :=
| Normal (a : A)
| Throw (e : exn).
Arguments Normal {A} a.
Arguments Throw {A} e.

(** A computation over a store [W]: the store is returned in both cases,
    as the mutations made before a [throw] stay. *)
Definition M (W A : Type) := W -> completion A * W.

Definition ret {W A} (a : A) : M W A := fun w => (Normal a, w).

Definition bind {W A B} (c : M W A) (k : A -> M W B) : M W B :=
  fun w =>
    match c w with
    | (Normal a, w') => k a w'
    | (Throw e, w') => (Throw e, w')
    end.

Definition throw {W A} (e : exn) : M W A := fun w => (Throw e, w).
Definition get {W} : M W W := fun w => (Normal w, w).
Definition gets {W A} (f : W -> A) : M W A := fun w => (Normal (f w), w).
Definition modify {W} (f : W -> W) : M W unit := fun w => (Normal tt, f w).

(** [if (b) { c }] *)
Definition when {W} (b : bool) (c : M W unit) : M W unit :=
  if b then c else ret tt.

(** [for (let i = lo; ...; i++) acc = body(i, acc)], [n] iterations. *)
Fixpoint loop {W A} (n : nat) (i : Z) (body : Z -> A -> M W A) (acc : A)
  : M W A :=
  match n with
  | O => ret acc
  | S n' => bind (body i acc) (loop n' (i + 1) body)
  end.

(** [for (let i = lo; i < hi; i++)] over integer bounds, for bounds below
    2^53, where the source's counter is exact. *)
Definition for_range {W A} (lo hi : Z) (body : Z -> A -> M W A) (acc : A)
  : M W A :=
  loop (Z.to_nat (hi - lo)) lo body acc.

(** [xs.forEach(body)] where the body rewrites the element in place. *)
Fixpoint for_each {W A} (xs : list A) (body : A -> M W A) : M W (list A) :=
  match xs with
  | [] => ret []
  | x :: rest =>
      bind (body x) (fun x' =>
      bind (for_each rest body) (fun rest' => ret (x' :: rest')))
  end.

Definition completes {W A} (r : completion A * W) : bool :=
  match fst r with Normal _ => true | Throw _ => false end.

(** ** Properties of computations *)

(** [c] leaves the projection [f] of the store as it is, whether it
    completes or raises. *)
Definition keeps {W A X} (f : W -> X) (c : M W A) : Prop :=
  forall w, f (snd (c w)) = f w.

(** [c] only reads the store, and returns [v]. *)
Definition reads {W A} (c : M W A) (v : W -> A) : Prop :=
  forall w, c w = (Normal (v w), w).

(** From a store satisfying [P], [c] completes normally in a store
    satisfying [P]. *)
Definition succeeds {W A} (P : W -> Prop) (c : M W A) : Prop :=
  forall w, P w -> completes (c w) = true /\ P (snd (c w)).

(** From a store satisfying [P], [c] completes normally with a result and
    a store satisfying [Q]. *)
Definition hoare {W A} (P : W -> Prop) (c : M W A) (Q : A -> W -> Prop)
  : Prop :=
  forall w, P w -> exists a, fst (c w) = Normal a /\ Q a (snd (c w)).

End Eff.

Declare Scope eff_scope.
Delimit Scope eff_scope with eff.
Notation "x <- c ;; k" := (Eff.bind c (fun x => k))
  (at level 61, c at next level, right associativity) : eff_scope.
Notation "c ;; k" := (Eff.bind c (fun _ => k))
  (at level 61, right associativity) : eff_scope.

(* ================================================================== *)
(** * The browser objects the renderers touch *)
(* ================================================================== *)

Module DOM.

(** One recorded call of a drawing routine. *)
Record DrawCall := mkDraw { routine : string; args : list JS.number }.

(** A [CanvasRenderingContext2D]: the calls made on it so far. *)
Definition Context2D := list DrawCall.

(** An [HTMLCanvasElement]: its size and what [getContext('2d')] returns
    ([None] is [null]).  The conversion of an assigned size to an unsigned
    long is not modelled: the size only reaches the call log. *)
Record Canvas := mkCanvas {
  width : JS.number;
  height : JS.number;
  getContext2d : option Context2D
}.

Definition Uint8Array := list byte.

(** The store a method runs in. *)
Record World (R : Type) := mkWorld {
  this : R;                          (* the receiver *)
  dataArray : Uint8Array;            (* the caller's frequency buffer *)
  draws : nat;                       (* Math.random() calls made so far *)
  devicePixelRatio : JS.number;      (* window.devicePixelRatio *)
  createElement : Canvas             (* document.createElement('canvas') *)
}.
Arguments mkWorld {R}.
Arguments this {R}.
Arguments dataArray {R}.
Arguments draws {R}.
Arguments devicePixelRatio {R}.
Arguments createElement {R}.

Definition with_this {R R'} (r : R') (w : World R) : World R' :=
  mkWorld r (dataArray w) (draws w) (devicePixelRatio w) (createElement w).

(** [this.f = ...] *)
Definition update {R} (f : R -> R) : Eff.M (World R) unit :=
  Eff.modify (fun w => with_this (f (this w)) w).

(** [this.f] *)
Definition field {R A} (f : R -> A) : Eff.M (World R) A :=
  Eff.gets (fun w => f (this w)).

(** [a[i] ?? 0]: an index outside the array reads [undefined]. *)
Definition byte_at (a : Uint8Array) (i : Z) : JS.number :=
  if i <? 0 then JS.of_Z 0
  else match nth_error a (Z.to_nat i) with
       | Some b => JS.of_byte b
       | None => JS.of_Z 0
       end.

(** [dataArray[i] ?? 0] on the caller's buffer. *)
Definition read {R} (i : Z) : Eff.M (World R) JS.number :=
  Eff.gets (fun w => byte_at (dataArray w) i).

End DOM.

(** The functions of [Math] that are taken as given. *)
Record MathLib := mkMath {
  Math_sin : JS.number -> JS.number;
  Math_cos : JS.number -> JS.number;
  Math_atan2 : JS.number -> JS.number -> JS.number;
  random_source : nat -> JS.number   (* the n-th result of Math.random() *)
}.

(** [Math.random()] *)
Definition Math_random {R} (m : MathLib) : Eff.M (DOM.World R) JS.number :=
  fun w =>
    (Eff.Normal (random_source m (DOM.draws w)),
     DOM.mkWorld (DOM.this w) (DOM.dataArray w) (S (DOM.draws w))
                 (DOM.devicePixelRatio w) (DOM.createElement w)).

Set Warnings "-inexact-float".
Local Open Scope eff_scope.

(* ================================================================== *)
(** * ChemicalOrbitalsRenderer.ts *)
(* ================================================================== *)

Module ChemicalOrbitals.
Import JS Eff DOM.
Local Open Scope float_scope.

Record Electron := mkElectron {
  x : number; y : number; z : number;
  angle : number; phase : number; speed : number
}.

Record Renderer := mkRenderer {
  canvas : Canvas;
  ctx : option Context2D;
  time : Z;
  centerX : number;
  centerY : number;
  maxRadius : number;
  pixelRatio : number;
  qualityScale : number;
  currentEnergyLevel : Z;
  energyLevelTimer : Z;
  energyLevelDuration : number;
  electrons : list Electron
}.

Definition TWO_PI : number := (Math_PI * 2)%float.
Definition INV_255 : number := (1 / 255)%float.
Definition MAX_ENERGY_LEVEL : Z := 6%Z.

(** The object before the constructor body runs: the field initialisers,
    with the constructor's first two assignments,
    [this.canvas = canvas; this.ctx = canvas.getContext('2d')!].  The [!]
    is erased by the compiler: a [null] context is stored as it is. *)
Definition allocate (cv : Canvas) : Renderer :=
  {| canvas := cv; ctx := getContext2d cv;
     time := 0%Z; centerX := 0; centerY := 0; maxRadius := 0;
     pixelRatio := 1; qualityScale := 1;
     currentEnergyLevel := 1%Z; energyLevelTimer := 0%Z;
     energyLevelDuration := 300;
     electrons := [] |}.

Definition set_ctx v r := mkRenderer (canvas r) v (time r) (centerX r) (centerY r) (maxRadius r) (pixelRatio r) (qualityScale r) (currentEnergyLevel r) (energyLevelTimer r) (energyLevelDuration r) (electrons r).
Definition set_canvas v r := mkRenderer v (ctx r) (time r) (centerX r) (centerY r) (maxRadius r) (pixelRatio r) (qualityScale r) (currentEnergyLevel r) (energyLevelTimer r) (energyLevelDuration r) (electrons r).
Definition set_time v r := mkRenderer (canvas r) (ctx r) v (centerX r) (centerY r) (maxRadius r) (pixelRatio r) (qualityScale r) (currentEnergyLevel r) (energyLevelTimer r) (energyLevelDuration r) (electrons r).
Definition set_centerX v r := mkRenderer (canvas r) (ctx r) (time r) v (centerY r) (maxRadius r) (pixelRatio r) (qualityScale r) (currentEnergyLevel r) (energyLevelTimer r) (energyLevelDuration r) (electrons r).
Definition set_centerY v r := mkRenderer (canvas r) (ctx r) (time r) (centerX r) v (maxRadius r) (pixelRatio r) (qualityScale r) (currentEnergyLevel r) (energyLevelTimer r) (energyLevelDuration r) (electrons r).
Definition set_maxRadius v r := mkRenderer (canvas r) (ctx r) (time r) (centerX r) (centerY r) v (pixelRatio r) (qualityScale r) (currentEnergyLevel r) (energyLevelTimer r) (energyLevelDuration r) (electrons r).
Definition set_pixelRatio v r := mkRenderer (canvas r) (ctx r) (time r) (centerX r) (centerY r) (maxRadius r) v (qualityScale r) (currentEnergyLevel r) (energyLevelTimer r) (energyLevelDuration r) (electrons r).
Definition set_qualityScale v r := mkRenderer (canvas r) (ctx r) (time r) (centerX r) (centerY r) (maxRadius r) (pixelRatio r) v (currentEnergyLevel r) (energyLevelTimer r) (energyLevelDuration r) (electrons r).
Definition set_currentEnergyLevel v r := mkRenderer (canvas r) (ctx r) (time r) (centerX r) (centerY r) (maxRadius r) (pixelRatio r) (qualityScale r) v (energyLevelTimer r) (energyLevelDuration r) (electrons r).
Definition set_energyLevelTimer v r := mkRenderer (canvas r) (ctx r) (time r) (centerX r) (centerY r) (maxRadius r) (pixelRatio r) (qualityScale r) (currentEnergyLevel r) v (energyLevelDuration r) (electrons r).
Definition set_electrons v r := mkRenderer (canvas r) (ctx r) (time r) (centerX r) (centerY r) (maxRadius r) (pixelRatio r) (qualityScale r) (currentEnergyLevel r) (energyLevelTimer r) (energyLevelDuration r) v.

Definition W := World Renderer.

(** A call on [ctx]: a [TypeError] when the context is [null]. On a
    context the call is taken to return: what the context itself raises
    on an argument it refuses is outside the embedding, and a statement
    about a [render] that returns takes its completion as given. *)
Definition draw (name : string) (a : list number) : M W unit :=
  c <- field ctx ;;
  match c with
  | None => throw TypeError
  | Some log => update (set_ctx (Some (log ++ [mkDraw name a])))
  end.

Section WithMath.
Variable m : MathLib.

Definition initializeElectrons : M W unit :=
  update (set_electrons []) ;;
  qs <- field qualityScale ;;
  let electronCount := floor_int (50 * qs) in
  loop (Z.to_nat electronCount) 0%Z (fun _ _ =>
    a <- Math_random m ;;
    p <- Math_random m ;;
    s <- Math_random m ;;
    es <- field electrons ;;
    update (set_electrons
      (es ++ [mkElectron 0 0 0 (a * TWO_PI) (p * TWO_PI) (0.01 + s * 0.02)])))
    tt.

Definition constructor : M W unit :=
  cv <- field canvas ;;
  d <- gets devicePixelRatio ;;
  let devicePixelRatio := or_else d 1 in
  let screenArea := width cv * height cv in
  let threshold := 2073600 in
  (if gt screenArea threshold
   then update (set_qualityScale (Math_min 0.7 (threshold / screenArea)))
   else update (set_qualityScale 1)) ;;
  qs <- field qualityScale ;;
  update (set_pixelRatio
    ((if lt devicePixelRatio 2 then devicePixelRatio else 2) * qs)) ;;
  update (set_centerX (width cv * 0.5)) ;;
  update (set_centerY (height cv * 0.5)) ;;
  let minDimension := Math_min (width cv) (height cv) in
  update (set_maxRadius (minDimension * 0.4)) ;;
  initializeElectrons.

(** [new ChemicalOrbitalsRenderer(canvas)] in a store without receiver. *)
Definition new {R} (cv : Canvas) (w : World R)
  : completion unit * W :=
  constructor (with_this (allocate cv) w).

Definition getFrequencyBandIntensity
  (bufferLength : Z) (startRatio endRatio : number) : M W number :=
  let startIndex := ToInt32 (of_Z bufferLength * startRatio) in
  let endIndex := ToInt32 (of_Z bufferLength * endRatio) in
  let count := (endIndex - startIndex)%Z in
  if (count <=? 0)%Z then ret 0
  else
    sum <- for_range startIndex endIndex
             (fun i sum => v <- read i ;; ret (sum + v)) 0 ;;
    ret ((sum / of_Z count) * INV_255).

Definition drawEnergyLevelLabel (audioIntensity : number) : M W unit :=
  n <- field currentEnergyLevel ;;
  cx <- field centerX ;;
  let energy := -13.6 / (of_Z n * of_Z n) in
  draw "drawEnergyLevelLabel" [of_Z n; energy; audioIntensity; cx].

Definition drawNucleus (audioIntensity bassIntensity : number) : M W unit :=
  cx <- field centerX ;;
  cy <- field centerY ;;
  draw "drawNucleus" [cx; cy; audioIntensity; bassIntensity].

Definition drawOrbitals (n : Z)
  (audioIntensity bassIntensity midIntensity trebleIntensity : number)
  : M W unit :=
  cx <- field centerX ;;
  cy <- field centerY ;;
  mr <- field maxRadius ;;
  t <- field time ;;
  let baseRadius := mr * 0.3 in
  let orbitalRadius := baseRadius * of_Z n * of_Z n in
  draw "drawOrbitals"
    [of_Z n; orbitalRadius; cx; cy; of_Z t;
     audioIntensity; bassIntensity; midIntensity; trebleIntensity].

Definition updateElectron (n : Z) (orbitalRadius : number)
  (audioIntensity bassIntensity : number) (e : Electron) : Electron :=
  let speed' := speed e * (1 + audioIntensity * 2 + bassIntensity) in
  let angle' := angle e + speed' / (of_Z n * of_Z n) in
  let phase' := phase e + speed' * 0.5 in
  let radius := orbitalRadius * (0.8 + Math_sin m phase' * 0.2) in
  mkElectron (Math_cos m angle' * radius)
             (Math_sin m angle' * radius)
             (Math_sin m phase' * radius * 0.3)
             angle' phase' (speed e).

Definition updateElectrons (audioIntensity bassIntensity : number)
  : M W unit :=
  n <- field currentEnergyLevel ;;
  mr <- field maxRadius ;;
  let baseRadius := mr * 0.3 in
  let orbitalRadius := baseRadius * of_Z n * of_Z n in
  es <- field electrons ;;
  es' <- for_each es (fun e =>
           ret (updateElectron n orbitalRadius audioIntensity bassIntensity e)) ;;
  update (set_electrons es').

Definition drawElectrons (n : Z) (audioIntensity trebleIntensity : number)
  : M W unit :=
  cx <- field centerX ;;
  cy <- field centerY ;;
  t <- field time ;;
  es <- field electrons ;;
  draw "drawElectrons"
    ([of_Z n; cx; cy; of_Z t; audioIntensity; trebleIntensity]
     ++ flat_map (fun e => [x e; y e]) es).

Definition render (bufferLength : Z) : M W unit :=
  update (fun r => set_time (time r + 1)%Z r) ;;
  update (fun r => set_energyLevelTimer (energyLevelTimer r + 1)%Z r) ;;
  (* Calculate audio metrics *)
  sum <- for_range 0%Z bufferLength
           (fun i sum => v <- read i ;; ret (sum + v)) 0 ;;
  let audioIntensity := (sum / of_Z bufferLength) * INV_255 in
  bassIntensity <- getFrequencyBandIntensity bufferLength 0 0.15 ;;
  midIntensity <- getFrequencyBandIntensity bufferLength 0.3 0.6 ;;
  trebleIntensity <- getFrequencyBandIntensity bufferLength 0.7 1.0 ;;
  (* Cycle through energy levels *)
  r <- gets this ;;
  when (ge (of_Z (energyLevelTimer r)) (energyLevelDuration r))
    (update (set_energyLevelTimer 0%Z) ;;
     update (fun r =>
       set_currentEnergyLevel
         (currentEnergyLevel r mod MAX_ENERGY_LEVEL + 1)%Z r)) ;;
  (* Speed up transitions with audio *)
  let transitionSpeed := 1 + audioIntensity * 2 in
  r <- gets this ;;
  when (ge (of_Z (energyLevelTimer r))
           (energyLevelDuration r / transitionSpeed))
    (update (set_energyLevelTimer 0%Z) ;;
     update (fun r =>
       set_currentEnergyLevel
         (currentEnergyLevel r mod MAX_ENERGY_LEVEL + 1)%Z r)) ;;
  (* Clear canvas with fade *)
  cv <- field canvas ;;
  draw "fillRect" [0; 0; width cv; height cv] ;;
  drawEnergyLevelLabel audioIntensity ;;
  n <- field currentEnergyLevel ;;
  drawOrbitals n audioIntensity bassIntensity midIntensity trebleIntensity ;;
  drawNucleus audioIntensity bassIntensity ;;
  updateElectrons audioIntensity bassIntensity ;;
  n <- field currentEnergyLevel ;;
  drawElectrons n audioIntensity trebleIntensity.

Definition resize (width height : number) : M W unit :=
  let screenArea := width * height in
  let threshold := 2073600 in
  (if gt screenArea threshold
   then update (set_qualityScale
          (if lt (threshold / screenArea) 0.7
           then threshold / screenArea else 0.7))
   else update (set_qualityScale 1)) ;;
  d <- gets devicePixelRatio ;;
  let devicePixelRatio := or_else d 1 in
  qs <- field qualityScale ;;
  update (set_pixelRatio (Math_min devicePixelRatio 2 * qs)) ;;
  update (fun r =>
    set_canvas (mkCanvas width height (getContext2d (canvas r))) r) ;;
  update (set_centerX (width * 0.5)) ;;
  update (set_centerY (height * 0.5)) ;;
  let minDimension := Math_min width height in
  update (set_maxRadius (minDimension * 0.4)) ;;
  update (set_electrons []) ;;
  initializeElectrons.

End WithMath.

End ChemicalOrbitals.

(* ================================================================== *)
(** * KaleidoscopeRenderer.ts *)
(* ================================================================== *)

Module Kaleidoscope.
Import JS Eff DOM.
Local Open Scope float_scope.

Record Particle := mkParticle {
  x : number; y : number;
  vx : number; vy : number;
  size : number; hue : number; life : number
}.

Record Renderer := mkRenderer {
  canvas : Canvas;
  ctx : option Context2D;
  offscreenCanvas : Canvas;
  offscreenCtx : option Context2D;
  segments : number;
  particles : list Particle;
  time : Z;
  hueOffset : number;
  centerX : number;
  centerY : number;
  maxRadius : number;
  pixelRatio : number;
  qualityScale : number
}.

(** The object before the constructor body runs: the field initialisers,
    with [this.canvas = canvas; this.ctx = canvas.getContext('2d')!]. The
    off-screen canvas is assigned by the constructor body. *)
Definition allocate (cv : Canvas) : Renderer :=
  {| canvas := cv; ctx := getContext2d cv;
     offscreenCanvas := mkCanvas 0 0 None; offscreenCtx := None;
     segments := 12; particles := []; time := 0%Z; hueOffset := 0;
     centerX := 0; centerY := 0; maxRadius := 0;
     pixelRatio := 1; qualityScale := 1 |}.

Definition set_canvas v r := mkRenderer v (ctx r) (offscreenCanvas r) (offscreenCtx r) (segments r) (particles r) (time r) (hueOffset r) (centerX r) (centerY r) (maxRadius r) (pixelRatio r) (qualityScale r).
Definition set_ctx v r := mkRenderer (canvas r) v (offscreenCanvas r) (offscreenCtx r) (segments r) (particles r) (time r) (hueOffset r) (centerX r) (centerY r) (maxRadius r) (pixelRatio r) (qualityScale r).
Definition set_offscreenCanvas v r := mkRenderer (canvas r) (ctx r) v (offscreenCtx r) (segments r) (particles r) (time r) (hueOffset r) (centerX r) (centerY r) (maxRadius r) (pixelRatio r) (qualityScale r).
Definition set_offscreenCtx v r := mkRenderer (canvas r) (ctx r) (offscreenCanvas r) v (segments r) (particles r) (time r) (hueOffset r) (centerX r) (centerY r) (maxRadius r) (pixelRatio r) (qualityScale r).
Definition set_segments v r := mkRenderer (canvas r) (ctx r) (offscreenCanvas r) (offscreenCtx r) v (particles r) (time r) (hueOffset r) (centerX r) (centerY r) (maxRadius r) (pixelRatio r) (qualityScale r).
Definition set_particles v r := mkRenderer (canvas r) (ctx r) (offscreenCanvas r) (offscreenCtx r) (segments r) v (time r) (hueOffset r) (centerX r) (centerY r) (maxRadius r) (pixelRatio r) (qualityScale r).
Definition set_time v r := mkRenderer (canvas r) (ctx r) (offscreenCanvas r) (offscreenCtx r) (segments r) (particles r) v (hueOffset r) (centerX r) (centerY r) (maxRadius r) (pixelRatio r) (qualityScale r).
Definition set_hueOffset v r := mkRenderer (canvas r) (ctx r) (offscreenCanvas r) (offscreenCtx r) (segments r) (particles r) (time r) v (centerX r) (centerY r) (maxRadius r) (pixelRatio r) (qualityScale r).
Definition set_centerX v r := mkRenderer (canvas r) (ctx r) (offscreenCanvas r) (offscreenCtx r) (segments r) (particles r) (time r) (hueOffset r) v (centerY r) (maxRadius r) (pixelRatio r) (qualityScale r).
Definition set_centerY v r := mkRenderer (canvas r) (ctx r) (offscreenCanvas r) (offscreenCtx r) (segments r) (particles r) (time r) (hueOffset r) (centerX r) v (maxRadius r) (pixelRatio r) (qualityScale r).
Definition set_maxRadius v r := mkRenderer (canvas r) (ctx r) (offscreenCanvas r) (offscreenCtx r) (segments r) (particles r) (time r) (hueOffset r) (centerX r) (centerY r) v (pixelRatio r) (qualityScale r).
Definition set_pixelRatio v r := mkRenderer (canvas r) (ctx r) (offscreenCanvas r) (offscreenCtx r) (segments r) (particles r) (time r) (hueOffset r) (centerX r) (centerY r) (maxRadius r) v (qualityScale r).
Definition set_qualityScale v r := mkRenderer (canvas r) (ctx r) (offscreenCanvas r) (offscreenCtx r) (segments r) (particles r) (time r) (hueOffset r) (centerX r) (centerY r) (maxRadius r) (pixelRatio r) v.

Definition W := World Renderer.

(** A call on [this.ctx]: a [TypeError] when the context is [null]. On a
    context the call is taken to return: what the context itself raises
    on an argument it refuses is outside the embedding, and a statement
    about a [render] that returns takes its completion as given. *)
Definition draw (name : string) (a : list number) : M W unit :=
  c <- field ctx ;;
  match c with
  | None => throw TypeError
  | Some log => update (set_ctx (Some (log ++ [mkDraw name a])))
  end.

(** A call on [this.offscreenCtx], in the same way. *)
Definition draw_offscreen (name : string) (a : list number) : M W unit :=
  c <- field offscreenCtx ;;
  match c with
  | None => throw TypeError
  | Some log => update (set_offscreenCtx (Some (log ++ [mkDraw name a])))
  end.

Section WithMath.
Variable m : MathLib.

Definition initializeParticles : M W unit :=
  qs <- field qualityScale ;;
  let baseParticleCount := 100 in
  let particleCount := floor_int (baseParticleCount * qs) in
  sg <- field segments ;;
  let segmentAngle := (Math_PI * 2) / sg in
  loop (Z.to_nat particleCount) 0%Z (fun _ _ =>
    r1 <- Math_random m ;;
    let angle := r1 * segmentAngle in
    r2 <- Math_random m ;;
    mr <- field maxRadius ;;
    let radius := r2 * mr * 0.5 in
    r3 <- Math_random m ;;
    r4 <- Math_random m ;;
    r5 <- Math_random m ;;
    r6 <- Math_random m ;;
    ps <- field particles ;;
    update (set_particles
      (ps ++ [mkParticle (Math_cos m angle * radius)
                         (Math_sin m angle * radius)
                         ((r3 - 0.5) * 2) ((r4 - 0.5) * 2)
                         (5 + r5 * 15) (r6 * 360) 1])))
    tt.

Definition constructor : M W unit :=
  cv <- field canvas ;;
  d <- gets devicePixelRatio ;;
  let devicePixelRatio := or_else d 1 in
  let screenArea := width cv * height cv in
  (if gt screenArea (1920 * 1080)
   then update (set_qualityScale (Math_min 0.7 (1920 * 1080 / screenArea)))
   else update (set_qualityScale 1)) ;;
  qs <- field qualityScale ;;
  update (set_pixelRatio (Math_min devicePixelRatio 2 * qs)) ;;
  (* Create offscreen canvas for one segment *)
  el <- gets createElement ;;
  update (set_offscreenCanvas
            (mkCanvas (width cv) (height cv) (getContext2d el))) ;;
  update (set_offscreenCtx (getContext2d el)) ;;
  update (set_centerX (width cv / 2)) ;;
  update (set_centerY (height cv / 2)) ;;
  let minDimension := Math_min (width cv) (height cv) in
  update (set_maxRadius (minDimension * 0.8)) ;;
  initializeParticles.

(** [new KaleidoscopeRenderer(canvas)] in a store without receiver. *)
Definition new {R} (cv : Canvas) (w : World R) : completion unit * W :=
  constructor (with_this (allocate cv) w).

(** The loop [for (let i = startIndex; i < endIndex; i++)] runs over the
    integers from [startIndex] below [endIndex]; it does not run when a
    bound is NaN. *)
Definition getFrequencyBandIntensity
  (bufferLength : Z) (startRatio endRatio : number) : M W number :=
  let startIndex := Math_floor (of_Z bufferLength * startRatio) in
  let endIndex := Math_floor (of_Z bufferLength * endRatio) in
  sum <- match floorZ startIndex, floorZ endIndex with
         | Some lo, Some hi =>
             for_range lo hi (fun i sum => v <- read i ;; ret (sum + v)) 0
         | _, _ => ret 0
         end ;;
  ret (sum / (endIndex - startIndex) / 255).

Definition drawSegment
  (audioIntensity bassIntensity midIntensity trebleIntensity : number)
  : M W unit :=
  sg <- field segments ;;
  let segmentAngle := (Math_PI * 2) / sg in
  cx <- field centerX ;;
  cy <- field centerY ;;
  mr <- field maxRadius ;;
  h <- field hueOffset ;;
  t <- field time ;;
  qs <- field qualityScale ;;
  ps <- field particles ;;
  draw_offscreen "clip" [cx; cy; segmentAngle; mr] ;;
  draw_offscreen "fillRect" [h; mr] ;;
  draw_offscreen "drawRays"
    [audioIntensity; bassIntensity; midIntensity; segmentAngle;
     Math_floor (20 * qs); of_Z t; h; mr] ;;
  draw_offscreen "drawParticles"
    ([audioIntensity; trebleIntensity; h]
     ++ flat_map (fun p => [x p; y p; size p; hue p; life p])
          (filter (fun p => negb (le (life p) 0)) ps)) ;;
  draw_offscreen "drawGeometricPatterns"
    [audioIntensity; bassIntensity; midIntensity; trebleIntensity;
     Math_floor (6 * qs); of_Z t; h] ;;
  draw_offscreen "drawKaleidoscopicLayers"
    [audioIntensity; bassIntensity; midIntensity; trebleIntensity;
     segmentAngle; Math_floor (3 * qs); of_Z t; h; mr].

(** The body of [updateParticles]' [forEach]. *)
Definition updateParticle (segmentAngle audioIntensity bassIntensity : number)
  (p : Particle) : M W Particle :=
  (* Update position *)
  let speedMultiplier := 1 + audioIntensity * 1.5 + bassIntensity * 0.8 in
  let x1 := x p + vx p * speedMultiplier in
  let y1 := y p + vy p * speedMultiplier in
  (* Add rotation *)
  let angle := Math_atan2 m y1 x1 in
  let radius := Math_sqrt (x1 * x1 + y1 * y1) in
  let rotationSpeed := 0.01 * (1 + audioIntensity * 2 + bassIntensity * 1.5) in
  let newAngle := angle + rotationSpeed in
  let x2 := Math_cos m newAngle * radius in
  let y2 := Math_sin m newAngle * radius in
  (* Decay life *)
  let life1 := life p - 0.005 in
  (* Keep within segment bounds *)
  let particleAngle := Math_atan2 m y2 x2 in
  let particleAngle :=
    if lt particleAngle 0 then particleAngle + Math_PI * 2
    else particleAngle in
  let p3 :=
    if gt particleAngle segmentAngle then
      let particleAngle := segmentAngle - (particleAngle - segmentAngle) in
      mkParticle (Math_cos m particleAngle * radius)
                 (Math_sin m particleAngle * radius)
                 (vx p * -0.8) (vy p * -0.8) (size p) (hue p) life1
    else mkParticle x2 y2 (vx p) (vy p) (size p) (hue p) life1 in
  (* Respawn dead particles *)
  mr <- field maxRadius ;;
  if le (life p3) 0 || gt radius (mr * 0.6) then
    r1 <- Math_random m ;;
    let newAngle := r1 * segmentAngle in
    r2 <- Math_random m ;;
    let newRadius := r2 * 50 in
    r3 <- Math_random m ;;
    r4 <- Math_random m ;;
    r5 <- Math_random m ;;
    r6 <- Math_random m ;;
    ret (mkParticle (Math_cos m newAngle * newRadius)
                    (Math_sin m newAngle * newRadius)
                    ((r3 - 0.5) * 2) ((r4 - 0.5) * 2)
                    (5 + r6 * 15 + bassIntensity * 10) (r5 * 360) 1)
  else ret p3.

Definition updateParticles (audioIntensity bassIntensity : number)
  : M W unit :=
  sg <- field segments ;;
  let segmentAngle := (Math_PI * 2) / sg in
  ps <- field particles ;;
  ps' <- for_each ps (updateParticle segmentAngle audioIntensity bassIntensity) ;;
  update (set_particles ps').

Definition render (bufferLength : Z) : M W unit :=
  update (fun r => set_time (time r + 1)%Z r) ;;
  (* Calculate audio metrics first *)
  len <- gets (fun w => Z.of_nat (List.length (dataArray w))) ;;
  total <- for_range 0%Z len (fun i sum => v <- read i ;; ret (sum + v)) 0 ;;
  let avgFrequency := total / of_Z bufferLength in
  let audioIntensity := avgFrequency / 255 in
  bassIntensity <- getFrequencyBandIntensity bufferLength 0 0.15 ;;
  update (fun r =>
    set_hueOffset (rem (hueOffset r + 0.5 + bassIntensity * 2) 360) r) ;;
  midIntensity <- getFrequencyBandIntensity bufferLength 0.3 0.6 ;;
  trebleIntensity <- getFrequencyBandIntensity bufferLength 0.7 1.0 ;;
  (* Adjust fade rate based on quality *)
  qs <- field qualityScale ;;
  let fadeRate := 0.05 * (1 + (1 - qs) * 0.5) in
  cv <- field canvas ;;
  draw "fillRect" [fadeRate; 0; 0; width cv; height cv] ;;
  let targetSegments := Math_floor (12 + bassIntensity * 20) in
  r <- gets this ;;
  when (gt (Math_abs (segments r - targetSegments)) 0
        && (time r mod 5 =? 0)%Z)
    (update (set_segments targetSegments)) ;;
  (* Clear offscreen canvas *)
  oc <- field offscreenCanvas ;;
  draw_offscreen "clearRect" [0; 0; width oc; height oc] ;;
  (* Draw one segment on offscreen canvas *)
  drawSegment audioIntensity bassIntensity midIntensity trebleIntensity ;;
  (* Mirror the segment across all kaleidoscope segments *)
  sg <- field segments ;;
  cx <- field centerX ;;
  cy <- field centerY ;;
  let segmentAngle := (Math_PI * 2) / sg in
  loop (iterations sg) 0%Z (fun i _ =>
    draw "drawImage"
      [segmentAngle * of_Z i; if (i mod 2 =? 1)%Z then -1 else 1; - cx; - cy])
    tt ;;
  (* Update particles *)
  updateParticles audioIntensity bassIntensity.

Definition resize (width height : number) : M W unit :=
  let screenArea := width * height in
  (if gt screenArea (1920 * 1080)
   then update (set_qualityScale (Math_min 0.7 (1920 * 1080 / screenArea)))
   else update (set_qualityScale 1)) ;;
  d <- gets devicePixelRatio ;;
  let devicePixelRatio := or_else d 1 in
  qs <- field qualityScale ;;
  update (set_pixelRatio (Math_min devicePixelRatio 2 * qs)) ;;
  update (fun r =>
    set_canvas (mkCanvas width height (getContext2d (canvas r))) r) ;;
  update (fun r =>
    set_offscreenCanvas
      (mkCanvas width height (getContext2d (offscreenCanvas r))) r) ;;
  update (set_centerX (width / 2)) ;;
  update (set_centerY (height / 2)) ;;
  let minDimension := Math_min width height in
  update (set_maxRadius (minDimension * 0.8)) ;;
  update (set_particles []) ;;
  initializeParticles.

End WithMath.

End Kaleidoscope.

Module Pure.
Import JS DOM.
Local Open Scope float_scope.

(** The value of [for (i = lo; ...; i++) sum += dataArray[i] ?? 0] after
    [n] iterations. *)
Fixpoint sum_loop (d : Uint8Array) (n : nat) (i : Z) (acc : number) : number :=
  match n with
  | O => acc
  | S n' => sum_loop d n' (i + 1)%Z (acc + byte_at d i)
  end.

Definition sum_range (d : Uint8Array) (lo hi : Z) : number :=
  sum_loop d (Z.to_nat (hi - lo)) lo 0.

End Pure.

Module ChemicalPure.
Import JS DOM Pure ChemicalOrbitals.
Local Open Scope float_scope.

Definition bandIntensity (d : Uint8Array) (bufferLength : Z)
  (startRatio endRatio : number) : number :=
  let startIndex := ToInt32 (of_Z bufferLength * startRatio) in
  let endIndex := ToInt32 (of_Z bufferLength * endRatio) in
  let count := (endIndex - startIndex)%Z in
  if (count <=? 0)%Z then 0
  else (sum_range d startIndex endIndex / of_Z count) * INV_255.

Definition audioIntensity (d : Uint8Array) (bufferLength : Z) : number :=
  (sum_range d 0 bufferLength / of_Z bufferLength) * INV_255.

(** The two threshold tests of [render], in the order it makes them, on
    the timer value before the tick. *)
Definition next_level (n : Z) : Z := (n mod MAX_ENERGY_LEVEL + 1)%Z.

Definition first_check (duration : number) (timer : Z) : bool :=
  ge (of_Z (timer + 1)) duration.

Definition timer_between (duration : number) (timer : Z) : Z :=
  if first_check duration timer then 0%Z else (timer + 1)%Z.

Definition second_check (duration a : number) (timer : Z) : bool :=
  ge (of_Z (timer_between duration timer)) (duration / (1 + a * 2)).

Definition timer_after (duration a : number) (timer : Z) : Z :=
  if second_check duration a timer then 0%Z else timer_between duration timer.

Definition level_after (duration a : number) (timer level : Z) : Z :=
  let l1 := if first_check duration timer then next_level level else level in
  if second_check duration a timer then next_level l1 else l1.

(** The electrons that [initializeElectrons] pushes in [n] iterations,
    starting at the [k]-th draw of the random source. *)
Fixpoint fresh_electrons (m : MathLib) (k n : nat) : list Electron :=
  match n with
  | O => []
  | S n' =>
      mkElectron 0 0 0 (random_source m k * TWO_PI)
                 (random_source m (S k) * TWO_PI)
                 (0.01 + random_source m (S (S k)) * 0.02)
      :: fresh_electrons m (S (S (S k))) n'
  end.

(** The size of the pool [initializeElectrons] builds. *)
Definition electronCount (qs : number) : nat :=
  Z.to_nat (floor_int (50 * qs)).

(** The quality scale the constructor assigns for a screen area. *)
Definition constructor_quality (screenArea : number) : number :=
  if gt screenArea 2073600 then Math_min 0.7 (2073600 / screenArea) else 1.

(** The quality scale [resize] assigns for a screen area. *)
Definition resize_quality (screenArea : number) : number :=
  if gt screenArea 2073600
  then (if lt (2073600 / screenArea) 0.7 then 2073600 / screenArea else 0.7)
  else 1.

End ChemicalPure.

Module ChemicalRuns.
Import JS DOM ChemicalOrbitals ChemicalPure.
Local Open Scope float_scope.

(** [k] consecutive calls [render(dataArray, bufferLength)] on a buffer the
    caller leaves as it is: constant audio input. *)
Fixpoint ticks (m : MathLib) (bufferLength : Z) (k : nat) (w : W) : W :=
  match k with
  | O => w
  | S k' => snd (render m bufferLength (ticks m bufferLength k' w))
  end.

(** The timer and the level after [k] ticks of an audio intensity [a], from
    a fresh renderer. *)
Fixpoint energy_trace (D a : number) (k : nat) : Z * Z :=
  match k with
  | O => (0%Z, 1%Z)
  | S k' =>
      let '(t, l) := energy_trace D a k' in
      (timer_after D a t, level_after D a t l)
  end.

(** The state the timer and level stay in under a constant intensity [a]:
    a timer that was not reset has failed the audio-adjusted test. *)
Definition energy_inv (a : number) (e : Z * Z * number) : Prop :=
  let '(t, l, D) := e in
  D = 300 /\ (0 <= t <= 299)%Z /\ (1 <= l <= 6)%Z /\
  (t = 0%Z \/ ge (of_Z t) (D / (1 + a * 2)) = false).

End ChemicalRuns.

Module KaleidoscopePure.
Import JS DOM Pure Kaleidoscope.
Local Open Scope float_scope.

Definition bandIntensity (d : Uint8Array) (bufferLength : Z)
  (startRatio endRatio : number) : number :=
  let startIndex := Math_floor (of_Z bufferLength * startRatio) in
  let endIndex := Math_floor (of_Z bufferLength * endRatio) in
  let sum := match floorZ startIndex, floorZ endIndex with
             | Some lo, Some hi => sum_range d lo hi
             | _, _ => 0
             end in
  sum / (endIndex - startIndex) / 255.

Definition audioIntensity (d : Uint8Array) (bufferLength : Z) : number :=
  sum_range d 0 (Z.of_nat (List.length d)) / of_Z bufferLength / 255.

(** The particle that one iteration of [initializeParticles] pushes,
    from the [k]-th draw of the random source on. *)
Definition fresh_particle (m : MathLib) (segmentAngle maxRadius : number)
  (k : nat) : Particle :=
  let angle := random_source m k * segmentAngle in
  let radius := random_source m (k + 1) * maxRadius * 0.5 in
  mkParticle (Math_cos m angle * radius) (Math_sin m angle * radius)
             ((random_source m (k + 2) - 0.5) * 2)
             ((random_source m (k + 3) - 0.5) * 2)
             (5 + random_source m (k + 4) * 15)
             (random_source m (k + 5) * 360) 1.

Fixpoint fresh_particles (m : MathLib) (segmentAngle maxRadius : number)
  (k n : nat) : list Particle :=
  match n with
  | O => []
  | S n' => fresh_particle m segmentAngle maxRadius k
            :: fresh_particles m segmentAngle maxRadius (k + 6) n'
  end.

(** The number of particles [initializeParticles] pushes. *)
Definition particleCount (qs : number) : nat :=
  Z.to_nat (floor_int (100 * qs)).

(** The quality scale the constructor and [resize] assign. *)
Definition quality (screenArea : number) : number :=
  if gt screenArea (1920 * 1080)
  then Math_min 0.7 (1920 * 1080 / screenArea) else 1.

(** The segment count [render] aims at. *)
Definition targetSegments (bassIntensity : number) : number :=
  Math_floor (12 + bassIntensity * 20).

(** The radial distance of a particle after its move of the tick. *)
Definition radial_distance (audioIntensity bassIntensity : number)
  (p : Particle) : number :=
  let speedMultiplier := 1 + audioIntensity * 1.5 + bassIntensity * 0.8 in
  let x1 := x p + vx p * speedMultiplier in
  let y1 := y p + vy p * speedMultiplier in
  Math_sqrt (x1 * x1 + y1 * y1).

(** Whether [updateParticle] takes its respawn branch for a particle. *)
Definition respawns (audioIntensity bassIntensity maxRadius : number)
  (p : Particle) : bool :=
  le (life p - 0.005) 0
  || gt (radial_distance audioIntensity bassIntensity p) (maxRadius * 0.6).

(** A result of [Math.random()]: in [0, 1). *)
Definition unit_interval (u : number) : bool := le 0 u && lt u 1.

(** The particle a respawn produces, from the [k]-th draw on. *)
Definition respawned (m : MathLib) (segmentAngle bassIntensity : number)
  (k : nat) : Particle :=
  let newAngle := random_source m k * segmentAngle in
  let newRadius := random_source m (k + 1) * 50 in
  mkParticle (Math_cos m newAngle * newRadius)
             (Math_sin m newAngle * newRadius)
             ((random_source m (k + 2) - 0.5) * 2)
             ((random_source m (k + 3) - 0.5) * 2)
             (5 + random_source m (k + 5) * 15 + bassIntensity * 10)
             (random_source m (k + 4) * 360) 1.

(** The particle after the move, the rotation, the decay and the
    reflection at the segment boundary, when it does not respawn. *)
Definition moved (m : MathLib) (segmentAngle audioIntensity bassIntensity
  : number) (p : Particle) : Particle :=
  let speedMultiplier := 1 + audioIntensity * 1.5 + bassIntensity * 0.8 in
  let x1 := x p + vx p * speedMultiplier in
  let y1 := y p + vy p * speedMultiplier in
  let angle := Math_atan2 m y1 x1 in
  let radius := Math_sqrt (x1 * x1 + y1 * y1) in
  let rotationSpeed := 0.01 * (1 + audioIntensity * 2 + bassIntensity * 1.5) in
  let newAngle := angle + rotationSpeed in
  let x2 := Math_cos m newAngle * radius in
  let y2 := Math_sin m newAngle * radius in
  let life1 := life p - 0.005 in
  let particleAngle := Math_atan2 m y2 x2 in
  let particleAngle :=
    if lt particleAngle 0 then particleAngle + Math_PI * 2
    else particleAngle in
  if gt particleAngle segmentAngle then
    let particleAngle := segmentAngle - (particleAngle - segmentAngle) in
    mkParticle (Math_cos m particleAngle * radius)
               (Math_sin m particleAngle * radius)
               (vx p * -0.8) (vy p * -0.8) (size p) (hue p) life1
  else mkParticle x2 y2 (vx p) (vy p) (size p) (hue p) life1.

(** One particle across one [updateParticles]: moved, or respawned from
    six consecutive draws. *)
Definition updated (m : MathLib) (segmentAngle audioIntensity bassIntensity
  maxRadius : number) (p p' : Particle) : Prop :=
  if respawns audioIntensity bassIntensity maxRadius p
  then exists k, p' = respawned m segmentAngle bassIntensity k
  else p' = moved m segmentAngle audioIntensity bassIntensity p.

(** The life of a particle [k] ticks after a spawn, while it has not
    respawned. *)
Fixpoint decay (k : nat) : number :=
  match k with
  | O => 1
  | S k' => decay k' - 0.005
  end.

(** [k] consecutive calls [render(dataArray, bufferLength)] on a buffer the
    caller leaves as it is. *)
Fixpoint ticks (m : MathLib) (bufferLength : Z) (k : nat) (w : W) : W :=
  match k with
  | O => w
  | S k' => snd (render m bufferLength (ticks m bufferLength k' w))
  end.

End KaleidoscopePure.

Module Specified.
Import JS.
Local Open Scope float_scope.

(** The quality scale as the specification words it, for a surface of
    area [A]: 1 when [A <= 2073600], [min(0.7, 2073600 / A)] when
    [A > 2073600].  An area that is NaN satisfies neither condition: the
    source then keeps 1. *)
Definition quality_as_specified (A qs : number) : Prop :=
  if le A 2073600 then qs = 1
  else if gt A 2073600 then qs = Math_min 0.7 (2073600 / A)
  else qs = 1.

End Specified.

Module Scenario.
Import JS DOM.
Local Open Scope float_scope.

(** A 1024-length buffer of constant value 128. *)
Definition buffer128 : Uint8Array := repeat Byte.x80 1024.

(** A store with that buffer, before any renderer exists. *)
Definition world128 : World unit :=
  mkWorld tt buffer128 0 1 (mkCanvas 300 150 (Some [])).

(** A stand-in for the [Math] functions, used only to run the renderers
    on concrete inputs: the small-angle forms [sin x = x], [cos x = 1],
    [atan2 y x = y], and a random source that always returns 0.5. *)
Definition small_angle_math : MathLib :=
  mkMath (fun x => x) (fun _ => 1) (fun y _ => y) (fun _ => 0.5).

(** A 64-length buffer of constant value 128, and a store with it. *)
Definition buffer64 : Uint8Array := repeat Byte.x80 64.
Definition world64 : World unit :=
  mkWorld tt buffer64 0 1 (mkCanvas 300 150 (Some [])).

(** A 200 x 100 surface with a 2D context. *)
Definition canvas200 : Canvas := mkCanvas 200 100 (Some []).

(** The first sentence of the error-handling section as the specification
    words it: without a context, construction raises. *)
Definition construction_raises_without_context : Prop :=
  forall (m : MathLib) (cv : Canvas) (w0 : World unit),
    getContext2d cv = None ->
    Eff.completes (ChemicalOrbitals.new m cv w0) = false
    /\ Eff.completes (Kaleidoscope.new m cv w0) = false.

(** The last sentence of the resize invariant as the specification words
    it: a [render] that follows a [resize] does not raise. *)
Definition render_after_resize_never_raises : Prop :=
  forall (m : MathLib) (cv : Canvas) (w0 : World unit)
         (width height : number) (bufferLength : Z),
    Eff.completes
      (ChemicalOrbitals.render m bufferLength
         (snd (ChemicalOrbitals.resize m width height
                 (snd (ChemicalOrbitals.new m cv w0))))) = true
    /\ Eff.completes
         (Kaleidoscope.render m bufferLength
            (snd (Kaleidoscope.resize m width height
                    (snd (Kaleidoscope.new m cv w0))))) = true.

(** A 1000 x 1000 surface with a 2D context. *)
Definition canvas1000 : Canvas := mkCanvas 1000 1000 (Some []).

(** The level the source shows after [k] ticks of that input. *)
Definition level_at (k : nat) : Z :=
  if (k <? 150)%nat then 1%Z else if (k <? 300)%nat then 2%Z else 3%Z.

(** The end-to-end sentence as the specification words it: over 300 ticks
    the level changes once, at tick 300, from 1 to 2. *)
Definition transitions_once_at_300 (m : MathLib) : Prop :=
  let w := snd (ChemicalOrbitals.new m canvas1000 world128) in
  (forall k, (k < 300)%nat ->
     ChemicalOrbitals.currentEnergyLevel
       (this (ChemicalRuns.ticks m 1024 k w)) = 1%Z)
  /\ ChemicalOrbitals.currentEnergyLevel
       (this (ChemicalRuns.ticks m 1024 300 w)) = 2%Z.

End Scenario.

(* ================================================================== *)
(** * One [render], described on the store *)
(* ================================================================== *)

Module Calls.
Import DOM.

(** The store at a call [render(dataArray, bufferLength)] that passes the
    array [d]. *)
Definition with_data {R} (d : Uint8Array) (w : World R) : World R :=
  mkWorld (this w) d (draws w) (devicePixelRatio w) (createElement w).

(** A silent buffer: every sample is 0. *)
Definition silent (d : Uint8Array) : Prop := Forall (fun b => b = Byte.x00) d.

(** A call on a renderer: [render(dataArray, bufferLength)] or
    [resize(width, height)]. *)
Inductive action :=
  | Render (dataArray : Uint8Array) (bufferLength : Z)
  | Resize (width height : JS.number).

(** How many of the calls are calls of [render]. *)
Fixpoint renders_in (calls : list action) : nat :=
  match calls with
  | [] => O
  | Render _ _ :: rest => S (renders_in rest)
  | Resize _ _ :: rest => renders_in rest
  end.

(** Whether every [render] among the calls passes a silent buffer. *)
Fixpoint all_silent (calls : list action) : Prop :=
  match calls with
  | [] => True
  | Render d _ :: rest => silent d /\ all_silent rest
  | Resize _ _ :: rest => all_silent rest
  end.

End Calls.

Module ChemicalFrame.
Import JS DOM ChemicalOrbitals ChemicalPure Calls.
Local Open Scope float_scope.

(** The receiver after the counters and the two threshold tests of
    [render], for an overall intensity [a]. *)
Definition counted (a : number) (r : Renderer) : Renderer :=
  let D := energyLevelDuration r in
  {| canvas := canvas r; ctx := ctx r; time := (time r + 1)%Z;
     centerX := centerX r; centerY := centerY r; maxRadius := maxRadius r;
     pixelRatio := pixelRatio r; qualityScale := qualityScale r;
     currentEnergyLevel :=
       level_after D a (energyLevelTimer r) (currentEnergyLevel r);
     energyLevelTimer := timer_after D a (energyLevelTimer r);
     energyLevelDuration := D;
     electrons := electrons r |}.

(** The electrons after [updateElectrons]. *)
Definition orbiting (m : MathLib) (a b : number) (r : Renderer)
  : list Electron :=
  let n := currentEnergyLevel r in
  map (updateElectron m n (maxRadius r * 0.3 * of_Z n * of_Z n) a b)
      (electrons r).

(** The calls [render] records on the context, read on the receiver that
    [counted] leaves. *)
Definition recorded (m : MathLib) (a b mid treble : number) (r : Renderer)
  : list DrawCall :=
  let n := currentEnergyLevel r in
  [ mkDraw "fillRect" [0; 0; width (canvas r); height (canvas r)];
    mkDraw "drawEnergyLevelLabel"
      [of_Z n; -13.6 / (of_Z n * of_Z n); a; centerX r];
    mkDraw "drawOrbitals"
      [of_Z n; maxRadius r * 0.3 * of_Z n * of_Z n; centerX r; centerY r;
       of_Z (time r); a; b; mid; treble];
    mkDraw "drawNucleus" [centerX r; centerY r; a; b];
    mkDraw "drawElectrons"
      ([of_Z n; centerX r; centerY r; of_Z (time r); a; treble]
       ++ flat_map (fun e => [x e; y e]) (orbiting m a b r)) ].

(** The receiver after a [render] that found the context [log]. *)
Definition rendered (m : MathLib) (d : Uint8Array) (len : Z)
  (log : Context2D) (r : Renderer) : Renderer :=
  let a := audioIntensity d len in
  let b := bandIntensity d len 0 0.15 in
  let r1 := counted a r in
  set_ctx (Some (log ++ recorded m a b (bandIntensity d len 0.3 0.6)
                          (bandIntensity d len 0.7 1.0) r1))
          (set_electrons (orbiting m a b r1) r1).

(** The level in its range, the timer below the nominal duration, the
    pool of the size of the quality scale. *)
Definition in_range (r : Renderer) : Prop :=
  energyLevelDuration r = 300
  /\ (0 <= energyLevelTimer r <= 299)%Z
  /\ (1 <= currentEnergyLevel r <= 6)%Z
  /\ List.length (electrons r) = electronCount (qualityScale r).

(** The timer and the level [k] silent ticks after construction. *)
Definition silent_state (k : Z) : Z * Z :=
  (k mod 300, (k / 300) mod 6 + 1)%Z.

(** Consecutive calls on one renderer, each [render] with its own array
    and length; a call that raised leaves the receiver as it was at the
    exception. *)
Fixpoint run (m : MathLib) (calls : list action) (w : W) : W :=
  match calls with
  | [] => w
  | Render d len :: rest => run m rest (snd (render m len (with_data d w)))
  | Resize wd ht :: rest => run m rest (snd (resize m wd ht w))
  end.

End ChemicalFrame.

Module KaleidoscopeFrame.
Import JS DOM Kaleidoscope KaleidoscopePure Calls.
Local Open Scope float_scope.

(** The pool after [updateParticles], with the number of results of
    [Math.random()] used once it is done, starting at the [k]-th. *)
Fixpoint stepped (m : MathLib) (sa a b mr : number) (ps : list Particle)
  (k : nat) : list Particle * nat :=
  match ps with
  | [] => ([], k)
  | p :: rest =>
      if respawns a b mr p
      then let '(qs, k') := stepped m sa a b mr rest (k + 6) in
           (respawned m sa b k :: qs, k')
      else let '(qs, k') := stepped m sa a b mr rest k in
           (moved m sa a b p :: qs, k')
  end.

(** How many particles of a pool take the respawn branch. *)
Definition respawning (a b mr : number) (ps : list Particle) : nat :=
  List.length (filter (respawns a b mr) ps).

(** A particle that [drawParticles] draws: its life is above 0. *)
Definition alive (p : Particle) : Prop := gt (life p) 0 = true.

(** A particle whose life is that of a spawn, 1, after at most 199
    subtractions of 0.005. *)
Definition aged (p : Particle) : Prop :=
  exists k, (k <= 199)%nat /\ life p = decay k.

(** The pool of an up-to-date renderer: every particle alive, as many of
    them as the quality scale asks for. *)
Definition pool_ok (r : Renderer) : Prop :=
  Forall alive (particles r)
  /\ List.length (particles r) = particleCount (qualityScale r).

(** The segment count after the retargeting test of [render], at the
    tick [t] (already incremented). *)
Definition retargeted (bass : number) (t : Z) (sg : number) : number :=
  if gt (Math_abs (sg - targetSegments bass)) 0 && (t mod 5 =? 0)%Z
  then targetSegments bass else sg.

(** The calls of the mirroring loop, from the index [i] on. *)
Fixpoint mirrored (sa cx cy : number) (n : nat) (i : Z) : list DrawCall :=
  match n with
  | O => []
  | S n' =>
      mkDraw "drawImage"
        [sa * of_Z i; if (i mod 2 =? 1)%Z then -1 else 1; - cx; - cy]
      :: mirrored sa cx cy n' (i + 1)
  end.

(** The calls [render] records on the off-screen context, for the
    segment count [sg], the hue offset [h] and the tick [t] it has
    reached, and the pool [ps] it has not yet updated. *)
Definition offscreen_recorded (a b mid treble sg h : number) (t : Z)
  (r : Renderer) : list DrawCall :=
  let segmentAngle := (Math_PI * 2) / sg in
  [ mkDraw "clearRect"
      [0; 0; width (offscreenCanvas r); height (offscreenCanvas r)];
    mkDraw "clip" [centerX r; centerY r; segmentAngle; maxRadius r];
    mkDraw "fillRect" [h; maxRadius r];
    mkDraw "drawRays"
      [a; b; mid; segmentAngle; Math_floor (20 * qualityScale r); of_Z t; h;
       maxRadius r];
    mkDraw "drawParticles"
      ([a; treble; h]
       ++ flat_map (fun p => [x p; y p; size p; hue p; life p])
            (filter (fun p => negb (le (life p) 0)) (particles r)));
    mkDraw "drawGeometricPatterns"
      [a; b; mid; treble; Math_floor (6 * qualityScale r); of_Z t; h];
    mkDraw "drawKaleidoscopicLayers"
      [a; b; mid; treble; segmentAngle; Math_floor (3 * qualityScale r);
       of_Z t; h; maxRadius r] ].

(** The receiver after a [render] that found the contexts [log] and
    [olog], at the [k]-th result of [Math.random()]. *)
Definition rendered (m : MathLib) (d : Uint8Array) (len : Z)
  (log olog : Context2D) (k : nat) (r : Renderer) : Renderer :=
  let a := audioIntensity d len in
  let b := bandIntensity d len 0 0.15 in
  let t := (time r + 1)%Z in
  let h := rem (hueOffset r + 0.5 + b * 2) 360 in
  let sg := retargeted b t (segments r) in
  let sa := (Math_PI * 2) / sg in
  {| canvas := canvas r;
     ctx := Some (log
                  ++ mkDraw "fillRect"
                       [0.05 * (1 + (1 - qualityScale r) * 0.5); 0; 0;
                        width (canvas r); height (canvas r)]
                     :: mirrored sa (centerX r) (centerY r) (iterations sg) 0);
     offscreenCanvas := offscreenCanvas r;
     offscreenCtx :=
       Some (olog ++ offscreen_recorded a b (bandIntensity d len 0.3 0.6)
                       (bandIntensity d len 0.7 1.0) sg h t r);
     segments := sg;
     particles := fst (stepped m sa a b (maxRadius r) (particles r) k);
     time := t;
     hueOffset := h;
     centerX := centerX r; centerY := centerY r; maxRadius := maxRadius r;
     pixelRatio := pixelRatio r; qualityScale := qualityScale r |}.

(** Consecutive calls on one renderer. *)
Fixpoint run (m : MathLib) (calls : list action) (w : W) : W :=
  match calls with
  | [] => w
  | Render d len :: rest => run m rest (snd (render m len (with_data d w)))
  | Resize wd ht :: rest => run m rest (snd (resize m wd ht w))
  end.

End KaleidoscopeFrame.

(* ================================================================== *)
(** * The Canvas calls of the drawing routines *)
(* ================================================================== *)

(** The renderers' modules record each drawing routine as one call. The
    modules below give, routine by routine, the calls it makes on the
    [CanvasRenderingContext2D], in order, with the values it passes. A
    template literal is kept as its pieces, the formatting of a number
    being the browser's; a gradient object is named by the variable that
    holds it. Every call is taken to return: what a context raises on an
    argument it refuses (a negative radius, a colour it cannot read) is
    outside the embedding. *)

Module Canvas2D.
Import JS.

(** A piece of a template literal: text, [${x}] or [${x.toFixed(k)}]. *)
Inductive part :=
  | Lit (s : string)
  | Num (x : number)
  | Fixed (x : number) (digits : nat).

Definition text := list part.

(** What is assigned to [fillStyle] or [strokeStyle]. *)
Inductive style :=
  | Color (t : text)
  | Gradient (name : string).

(** One call or assignment on a context. *)
Inductive Op :=
  | save
  | restore
  | translate (x y : number)
  | rotate (angle : number)
  | scale (x y : number)
  | beginPath
  | closePath
  | clip
  | moveTo (x y : number)
  | lineTo (x y : number)
  | arc (x y radius startAngle endAngle : number)
  | fill
  | stroke
  | fillRect (x y w h : number)
  | clearRect (x y w h : number)
  | fillText (t : text) (x y : number)
  | drawImage (dx dy : number)
  | createRadialGradient (name : string) (x0 y0 r0 x1 y1 r1 : number)
  | createLinearGradient (name : string) (x0 y0 x1 y1 : number)
  | addColorStop (name : string) (offset : number) (color : text)
  | fillStyle (s : style)
  | strokeStyle (s : style)
  | lineWidth (x : number)
  | lineCap (s : string)
  | shadowBlur (x : number)
  | shadowColor (t : text)
  | font (s : string)
  | textAlign (s : string)
  | textBaseline (s : string).

(** [for (let i = lo; ...; i++) body(i)], [n] iterations. *)
Fixpoint for_loop (n : nat) (i : Z) (body : Z -> list Op) : list Op :=
  match n with
  | O => []
  | S n' => body i ++ for_loop n' (i + 1) body
  end.

(** The depth of the stack of saved states after the calls, from the
    depth [d]; [None] when a [restore] finds no state that the calls
    saved. *)
Fixpoint nesting (ops : list Op) (d : nat) : option nat :=
  match ops with
  | [] => Some d
  | save :: rest => nesting rest (S d)
  | restore :: rest =>
      match d with
      | O => None
      | S d' => nesting rest d'
      end
  | _ :: rest => nesting rest d
  end.

(** Every [restore] pops a state that the calls saved, and every saved
    state is popped. *)
Definition balanced (ops : list Op) : Prop := nesting ops 0 = Some 0%nat.

(** The same as a test. *)
Definition balancedb (ops : list Op) : bool :=
  match nesting ops 0 with Some O => true | _ => false end.

(** Calls that leave the stack of saved states at every depth they find
    it at. *)
Definition neutral (ops : list Op) : Prop :=
  forall d, nesting ops d = Some d.

(** An opening run of calls, which saves one state, and calls that
    restore it at their end. *)
Definition opens (ops : list Op) : Prop :=
  forall d, nesting ops d = Some (S d).

Definition closes (ops : list Op) : Prop :=
  forall d, nesting ops (S d) = Some d.

(** How many of the calls pass a test. *)
Definition count (p : Op -> bool) (ops : list Op) : nat :=
  List.length (filter p ops).

Definition is_arc (o : Op) : bool :=
  match o with arc _ _ _ _ _ => true | _ => false end.

Definition is_gradient (o : Op) : bool :=
  match o with
  | createRadialGradient _ _ _ _ _ _ _
  | createLinearGradient _ _ _ _ _ => true
  | _ => false
  end.

Definition is_drawImage (o : Op) : bool :=
  match o with drawImage _ _ => true | _ => false end.

Definition is_scale (o : Op) : bool :=
  match o with scale _ _ => true | _ => false end.

Definition is_translate (o : Op) : bool :=
  match o with translate _ _ => true | _ => false end.

End Canvas2D.

Module ChemicalCanvas.
Import JS DOM Canvas2D ChemicalOrbitals.
Local Open Scope string_scope.
Local Open Scope list_scope.
Local Open Scope float_scope.

Section WithMath.
Variable m : MathLib.
Variable r : Renderer.   (* this *)

Definition drawEnergyLevelLabel (audioIntensity : number) : list Op :=
  let n := of_Z (currentEnergyLevel r) in
  let energy := -13.6 / (n * n) in
  [ save;
    fillStyle (Color [Lit "rgba(255, 255, 255, ";
                      Num (0.6 + audioIntensity * 0.4); Lit ")"]);
    font "bold 16px monospace";
    textAlign "center";
    textBaseline "top";
    fillText [Lit "n = "; Num n; Lit " | E = "; Fixed energy 2; Lit " eV"]
             (centerX r) 20;
    restore ].

Definition drawNucleus (audioIntensity bassIntensity : number) : list Op :=
  let nucleusRadius := 8 + bassIntensity * 12 in
  [ save;
    translate (centerX r) (centerY r);
    createRadialGradient "gradient" 0 0 0 0 0 nucleusRadius;
    addColorStop "gradient" 0
      [Lit "rgba(255, 100, 100, "; Num (0.8 + audioIntensity * 0.2); Lit ")"];
    addColorStop "gradient" 0.5
      [Lit "rgba(255, 150, 150, "; Num (0.4 + audioIntensity * 0.3); Lit ")"];
    addColorStop "gradient" 1 [Lit "rgba(255, 200, 200, 0)"];
    fillStyle (Gradient "gradient");
    beginPath;
    arc 0 0 nucleusRadius 0 TWO_PI;
    fill;
    fillStyle (Color [Lit "rgba(255, 50, 50, ";
                      Num (0.9 + audioIntensity * 0.1); Lit ")"]);
    beginPath;
    arc 0 0 4 0 TWO_PI;
    fill;
    restore ].

Definition draw1sOrbital (radius audioIntensity trebleIntensity : number)
  : list Op :=
  let pulse := Math_sin m (of_Z (time r) * 0.05)
               * (5 + trebleIntensity * 15) in
  let currentRadius := radius + pulse in
  [ createRadialGradient "gradient" 0 0 0 0 0 currentRadius;
    addColorStop "gradient" 0
      [Lit "rgba(100, 200, 255, "; Num (0.1 + audioIntensity * 0.2); Lit ")"];
    addColorStop "gradient" 0.5
      [Lit "rgba(100, 200, 255, "; Num (0.05 + trebleIntensity * 0.15);
       Lit ")"];
    addColorStop "gradient" 1 [Lit "rgba(100, 200, 255, 0)"];
    fillStyle (Gradient "gradient");
    beginPath;
    arc 0 0 currentRadius 0 TWO_PI;
    fill;
    strokeStyle (Color [Lit "rgba(100, 200, 255, ";
                        Num (0.4 + audioIntensity * 0.3); Lit ")"]);
    lineWidth (2 + trebleIntensity * 3);
    beginPath;
    arc 0 0 currentRadius 0 TWO_PI;
    stroke ].

Definition draw2sOrbital (radius audioIntensity trebleIntensity : number)
  : list Op :=
  let pulse := Math_sin m (of_Z (time r) * 0.04)
               * (8 + trebleIntensity * 20) in
  let currentRadius := radius + pulse in
  [ createRadialGradient "gradient" 0 0 0 0 0 currentRadius;
    addColorStop "gradient" 0
      [Lit "rgba(150, 200, 255, "; Num (0.08 + audioIntensity * 0.15);
       Lit ")"];
    addColorStop "gradient" 0.6
      [Lit "rgba(150, 200, 255, "; Num (0.03 + trebleIntensity * 0.1);
       Lit ")"];
    addColorStop "gradient" 1 [Lit "rgba(150, 200, 255, 0)"];
    fillStyle (Gradient "gradient");
    beginPath;
    arc 0 0 currentRadius 0 TWO_PI;
    fill;
    strokeStyle (Color [Lit "rgba(150, 200, 255, ";
                        Num (0.35 + audioIntensity * 0.25); Lit ")"]);
    lineWidth (1.5 + trebleIntensity * 2.5);
    beginPath;
    arc 0 0 currentRadius 0 TWO_PI;
    stroke ].

Definition drawDumbbellOrbital
  (radius angle audioIntensity trebleIntensity : number) : list Op :=
  let lobeSize := radius * 0.4 in
  let lobeDistance := radius * 0.6 in
  [ save;
    rotate angle;
    (* Left lobe *)
    createRadialGradient "gradient1" (- lobeDistance) 0 0
                         (- lobeDistance) 0 lobeSize;
    addColorStop "gradient1" 0
      [Lit "rgba(100, 255, 200, "; Num (0.3 + audioIntensity * 0.3); Lit ")"];
    addColorStop "gradient1" 1 [Lit "rgba(100, 255, 200, 0)"];
    fillStyle (Gradient "gradient1");
    beginPath;
    arc (- lobeDistance) 0 lobeSize 0 TWO_PI;
    fill;
    (* Right lobe *)
    createRadialGradient "gradient2" lobeDistance 0 0 lobeDistance 0 lobeSize;
    addColorStop "gradient2" 0
      [Lit "rgba(100, 255, 200, "; Num (0.3 + audioIntensity * 0.3); Lit ")"];
    addColorStop "gradient2" 1 [Lit "rgba(100, 255, 200, 0)"];
    fillStyle (Gradient "gradient2");
    beginPath;
    arc lobeDistance 0 lobeSize 0 TWO_PI;
    fill;
    (* Connection line *)
    strokeStyle (Color [Lit "rgba(100, 255, 200, ";
                        Num (0.2 + audioIntensity * 0.2); Lit ")"]);
    lineWidth (1 + trebleIntensity * 2);
    beginPath;
    moveTo (- lobeDistance) 0;
    lineTo lobeDistance 0;
    stroke;
    restore ].

Definition draw2pOrbitals
  (radius audioIntensity midIntensity trebleIntensity : number) : list Op :=
  let pulse := Math_sin m (of_Z (time r) * 0.06)
               * (10 + midIntensity * 20) in
  let currentRadius := radius + pulse in
  drawDumbbellOrbital currentRadius 0 audioIntensity trebleIntensity
  ++ drawDumbbellOrbital currentRadius (Math_PI / 2)
       audioIntensity trebleIntensity
  ++ drawDumbbellOrbital (currentRadius * 0.7) (Math_PI / 4)
       audioIntensity trebleIntensity.

Definition draw3sOrbital (radius audioIntensity trebleIntensity : number)
  : list Op :=
  let pulse := Math_sin m (of_Z (time r) * 0.03)
               * (12 + trebleIntensity * 25) in
  let currentRadius := radius + pulse in
  [ createRadialGradient "gradient" 0 0 0 0 0 currentRadius;
    addColorStop "gradient" 0
      [Lit "rgba(200, 150, 255, "; Num (0.06 + audioIntensity * 0.12);
       Lit ")"];
    addColorStop "gradient" 0.5
      [Lit "rgba(200, 150, 255, "; Num (0.02 + trebleIntensity * 0.08);
       Lit ")"];
    addColorStop "gradient" 1 [Lit "rgba(200, 150, 255, 0)"];
    fillStyle (Gradient "gradient");
    beginPath;
    arc 0 0 currentRadius 0 TWO_PI;
    fill;
    strokeStyle (Color [Lit "rgba(200, 150, 255, ";
                        Num (0.3 + audioIntensity * 0.2); Lit ")"]);
    lineWidth (1 + trebleIntensity * 2);
    beginPath;
    arc 0 0 currentRadius 0 TWO_PI;
    stroke ].

Definition draw3pOrbitals
  (radius audioIntensity midIntensity trebleIntensity : number) : list Op :=
  let pulse := Math_sin m (of_Z (time r) * 0.05)
               * (15 + midIntensity * 25) in
  let currentRadius := radius + pulse in
  let rotation := of_Z (time r) * 0.01 in
  drawDumbbellOrbital currentRadius rotation audioIntensity trebleIntensity
  ++ drawDumbbellOrbital currentRadius (rotation + Math_PI / 2)
       audioIntensity trebleIntensity
  ++ drawDumbbellOrbital (currentRadius * 0.8) (rotation + Math_PI / 4)
       audioIntensity trebleIntensity.

Definition drawCloverleafOrbital
  (radius angle audioIntensity trebleIntensity : number) : list Op :=
  let lobeSize := radius * 0.25 in
  let lobeDistance := radius * 0.7 in
  [save; rotate angle]
  ++ for_loop 4 0 (fun i =>
       let lobeAngle := (of_Z i * TWO_PI) / 4 in
       let x := Math_cos m lobeAngle * lobeDistance in
       let y := Math_sin m lobeAngle * lobeDistance in
       [ createRadialGradient "gradient" x y 0 x y lobeSize;
         addColorStop "gradient" 0
           [Lit "rgba(255, 150, 200, "; Num (0.25 + audioIntensity * 0.25);
            Lit ")"];
         addColorStop "gradient" 1 [Lit "rgba(255, 150, 200, 0)"];
         fillStyle (Gradient "gradient");
         beginPath;
         arc x y lobeSize 0 TWO_PI;
         fill ])
  ++ [restore].

Definition draw3dOrbitals
  (radius audioIntensity bassIntensity midIntensity trebleIntensity : number)
  : list Op :=
  let pulse := Math_sin m (of_Z (time r) * 0.04)
               * (20 + bassIntensity * 30) in
  let currentRadius := radius + pulse in
  let rotation := of_Z (time r) * 0.008 in
  for_loop 5 0 (fun i =>
    let angle := (of_Z i * TWO_PI) / 5 + rotation in
    drawCloverleafOrbital currentRadius angle audioIntensity trebleIntensity).

Definition drawShell (radius : number) (shell : Z)
  (audioIntensity trebleIntensity : number) : list Op :=
  let pulse := Math_sin m (of_Z (time r) * 0.02 + of_Z shell)
               * (5 + trebleIntensity * 15) in
  let currentRadius := radius + pulse in
  let hue := rem (of_Z shell * 60 + of_Z (time r) * 0.5) 360 in
  [ createRadialGradient "gradient" 0 0 0 0 0 currentRadius;
    addColorStop "gradient" 0
      [Lit "hsla("; Num hue; Lit ", 70%, 60%, ";
       Num (0.05 + audioIntensity * 0.1); Lit ")"];
    addColorStop "gradient" 1 [Lit "hsla("; Num hue; Lit ", 70%, 60%, 0)"];
    fillStyle (Gradient "gradient");
    beginPath;
    arc 0 0 currentRadius 0 TWO_PI;
    fill;
    strokeStyle (Color [Lit "hsla("; Num hue; Lit ", 70%, 60%, ";
                        Num (0.25 + audioIntensity * 0.2); Lit ")"]);
    lineWidth (1 + trebleIntensity * 1.5);
    beginPath;
    arc 0 0 currentRadius 0 TWO_PI;
    stroke ].

Definition drawOrbitals (n : Z)
  (audioIntensity bassIntensity midIntensity trebleIntensity : number)
  : list Op :=
  let baseRadius := maxRadius r * 0.3 in
  let orbitalRadius := baseRadius * of_Z n * of_Z n in
  [save; translate (centerX r) (centerY r)]
  ++ (if (n =? 1)%Z then
        draw1sOrbital orbitalRadius audioIntensity trebleIntensity
      else if (n =? 2)%Z then
        draw2sOrbital (orbitalRadius * 0.5) audioIntensity trebleIntensity
        ++ draw2pOrbitals orbitalRadius audioIntensity midIntensity
             trebleIntensity
      else if (n =? 3)%Z then
        draw3sOrbital (orbitalRadius * 0.33) audioIntensity trebleIntensity
        ++ draw3pOrbitals (orbitalRadius * 0.66) audioIntensity midIntensity
             trebleIntensity
        ++ draw3dOrbitals orbitalRadius audioIntensity bassIntensity
             midIntensity trebleIntensity
      else
        for_loop (Z.to_nat n) 1 (fun shell =>
          let shellRadius := (orbitalRadius * of_Z shell) / of_Z n in
          drawShell shellRadius shell audioIntensity trebleIntensity))
  ++ [restore].

Definition drawElectrons (n : Z) (audioIntensity trebleIntensity : number)
  : list Op :=
  [save; translate (centerX r) (centerY r)]
  ++ flat_map (fun electron =>
       let size := (3 + trebleIntensity * 5) / of_Z n in
       let alpha := 0.6 + audioIntensity * 0.4 in
       let hue := rem (of_Z n * 40 + of_Z (time r) * 2) 360 in
       [ createRadialGradient "gradient" (x electron) (y electron) 0
                              (x electron) (y electron) (size * 2);
         addColorStop "gradient" 0
           [Lit "hsla("; Num hue; Lit ", 100%, 70%, "; Num alpha; Lit ")"];
         addColorStop "gradient" 0.5
           [Lit "hsla("; Num hue; Lit ", 100%, 60%, "; Num (alpha * 0.5);
            Lit ")"];
         addColorStop "gradient" 1
           [Lit "hsla("; Num hue; Lit ", 100%, 50%, 0)"];
         fillStyle (Gradient "gradient");
         beginPath;
         arc (x electron) (y electron) (size * 2) 0 TWO_PI;
         fill;
         fillStyle (Color [Lit "hsla("; Num hue; Lit ", 100%, 90%, ";
                           Num alpha; Lit ")"]);
         beginPath;
         arc (x electron) (y electron) size 0 TWO_PI;
         fill ])
       (electrons r)
  ++ [restore].

End WithMath.

(** The calls of one [render] on the context, for the intensities it has
    computed: [r] is the receiver once the counters and the level are
    updated, and [drawElectrons] runs on the electrons that
    [updateElectrons] has moved. *)
Definition frame (m : MathLib) (r : Renderer)
  (audioIntensity bassIntensity midIntensity trebleIntensity : number)
  : list Op :=
  [ fillStyle (Color [Lit "rgba(0, 0, 0, 0.1)"]);
    fillRect 0 0 (width (canvas r)) (height (canvas r)) ]
  ++ drawEnergyLevelLabel r audioIntensity
  ++ drawOrbitals m r (currentEnergyLevel r) audioIntensity bassIntensity
       midIntensity trebleIntensity
  ++ drawNucleus r audioIntensity bassIntensity
  ++ drawElectrons
       (set_electrons
          (ChemicalFrame.orbiting m audioIntensity bassIntensity r) r)
       (currentEnergyLevel r) audioIntensity trebleIntensity.

(** The calls of [render(dataArray, bufferLength)] on the context, when
    each of them returns. *)
Definition render_calls (m : MathLib) (d : Uint8Array) (bufferLength : Z)
  (r : Renderer) : list Op :=
  let a := ChemicalPure.audioIntensity d bufferLength in
  frame m (ChemicalFrame.counted a r) a
    (ChemicalPure.bandIntensity d bufferLength 0 0.15)
    (ChemicalPure.bandIntensity d bufferLength 0.3 0.6)
    (ChemicalPure.bandIntensity d bufferLength 0.7 1.0).

(** The number of arcs and of gradient objects of [drawOrbitals], by
    level. *)
Definition orbital_arcs (n : Z) : nat :=
  if (n =? 1)%Z then 2 else if (n =? 2)%Z then 8
  else if (n =? 3)%Z then 28 else (Z.to_nat n * 2)%nat.

Definition orbital_gradients (n : Z) : nat :=
  if (n =? 1)%Z then 1 else if (n =? 2)%Z then 7
  else if (n =? 3)%Z then 27 else Z.to_nat n.

End ChemicalCanvas.

Module KaleidoscopeCanvas.
Import JS DOM Canvas2D Kaleidoscope.
Local Open Scope string_scope.
Local Open Scope list_scope.
Local Open Scope float_scope.

Section WithMath.
Variable m : MathLib.
Variable r : Renderer.   (* this *)

Definition drawRays
  (audioIntensity bassIntensity midIntensity segmentAngle : number)
  : list Op :=
  let baseRayCount := 20 in
  let rayCount := Math_floor (baseRayCount * qualityScale r) in
  let t := of_Z (time r) in
  for_loop (Z.to_nat (floor_int (baseRayCount * qualityScale r))) 0 (fun i =>
    let i := of_Z i in
    let baseAngle := (segmentAngle * i) / rayCount in
    let angle := baseAngle
                 + Math_sin m (t * 0.05 + i + bassIntensity * 2) * 0.1
                   * bassIntensity in
    let length := maxRadius r
                  * (0.7 + Math_sin m (t * 0.03 + i + bassIntensity * 3) * 0.1
                     + bassIntensity * 0.2) in
    let width := (2 + bassIntensity * 10)
                 * (1 + Math_sin m (t * 0.05 + i + bassIntensity * 2) * 0.4) in
    let endX := Math_cos m angle * length in
    let endY := Math_sin m angle * length in
    let hue1 := rem (hueOffset r + i * 45 + t * 0.5) 360 in
    let hue2 := rem (hue1 + 60) 360 in
    let hue3 := rem (hue1 + 120) 360 in
    [ createLinearGradient "gradient" 0 0 endX endY;
      addColorStop "gradient" 0
        [Lit "hsla("; Num hue1; Lit ", 45%, "; Num (25 + audioIntensity * 15);
         Lit "%, "; Num (0.25 + bassIntensity * 0.2); Lit ")"];
      addColorStop "gradient" 0.7
        [Lit "hsla("; Num hue2; Lit ", 45%, "; Num (30 + midIntensity * 15);
         Lit "%, "; Num (0.3 + audioIntensity * 0.15); Lit ")"];
      addColorStop "gradient" 0.95
        [Lit "hsla("; Num hue3; Lit ", 45%, 32%, ";
         Num (0.2 + audioIntensity * 0.15); Lit ")"];
      addColorStop "gradient" 1 [Lit "hsla("; Num hue3; Lit ", 45%, 32%, 0.05)"];
      save;
      strokeStyle (Gradient "gradient");
      lineWidth width;
      lineCap "round";
      shadowBlur (12 + bassIntensity * 20);
      shadowColor [Lit "hsla("; Num hue1; Lit ", 45%, 28%, ";
                   Num (0.3 + audioIntensity * 0.1); Lit ")"];
      beginPath;
      moveTo 0 0;
      lineTo endX endY;
      stroke;
      restore ]).

Definition drawParticles (audioIntensity trebleIntensity : number)
  : list Op :=
  flat_map (fun particle =>
    if le (life particle) 0 then []
    else
      let size := size particle
                  * (0.4 + audioIntensity * 0.6 + trebleIntensity * 0.7) in
      let alpha := life particle * (0.25 + audioIntensity * 0.2) in
      let hue := rem (hue particle + hueOffset r) 360 in
      [ save;
        translate (x particle) (y particle);
        fillStyle (Color [Lit "hsla("; Num hue; Lit ", 45%, ";
                          Num (28 + trebleIntensity * 15); Lit "%, ";
                          Num (alpha * 0.5); Lit ")"]);
        shadowBlur (8 + trebleIntensity * 12);
        shadowColor [Lit "hsla("; Num hue; Lit ", 45%, 32%, ";
                     Num (alpha * 0.4); Lit ")"];
        beginPath;
        arc 0 0 size 0 (Math_PI * 2);
        fill;
        fillStyle (Color [Lit "hsla("; Num (rem (hue + 30) 360);
                          Lit ", 45%, 38%, "; Num (alpha * 0.35); Lit ")"]);
        shadowBlur 5;
        beginPath;
        arc 0 0 (size * 0.5) 0 (Math_PI * 2);
        fill;
        restore ])
    (particles r).

Definition drawGeometricPatterns
  (audioIntensity bassIntensity midIntensity trebleIntensity : number)
  : list Op :=
  let t := of_Z (time r) in
  let sides := 6%Z in
  let polygonRadius := 100 * (0.6 + audioIntensity * 0.7) in
  let rotation := t * 0.02 + bassIntensity * 0.5 in
  let hue := rem (hueOffset r + t * 2) 360 in
  for_loop (Z.to_nat (floor_int (6 * qualityScale r))) 0 (fun i =>
    let i := of_Z i in
    let radius := (i + 1) * 30 * (0.7 + audioIntensity * 0.6) in
    let pulse := Math_sin m (t * 0.08 + i + midIntensity * 2)
                 * (10 + midIntensity * 15) in
    let currentRadius := radius + pulse + midIntensity * 30 in
    let hue := rem (hueOffset r + i * 60 + t) 360 in
    [ save;
      strokeStyle (Color [Lit "hsla("; Num hue; Lit ", 45%, ";
                          Num (25 + trebleIntensity * 15); Lit "%, ";
                          Num (0.15 + audioIntensity * 0.15); Lit ")"]);
      lineWidth (2 + midIntensity * 5);
      shadowBlur (6 + trebleIntensity * 10);
      shadowColor [Lit "hsla("; Num hue; Lit ", 45%, 28%, ";
                   Num (0.2 + audioIntensity * 0.2); Lit ")"];
      beginPath;
      arc 0 0 currentRadius 0 (Math_PI * 2);
      stroke;
      restore ])
  ++ [ save;
       rotate rotation;
       strokeStyle (Color [Lit "hsla("; Num hue; Lit ", 45%, ";
                           Num (28 + midIntensity * 15); Lit "%, ";
                           Num (0.2 + audioIntensity * 0.2); Lit ")"]);
       fillStyle (Color [Lit "hsla("; Num hue; Lit ", 45%, ";
                         Num (25 + audioIntensity * 15); Lit "%, ";
                         Num (0.08 + trebleIntensity * 0.12); Lit ")"]);
       lineWidth (3 + trebleIntensity * 6);
       shadowBlur (8 + audioIntensity * 15);
       shadowColor [Lit "hsla("; Num hue; Lit ", 45%, 30%, ";
                    Num (0.25 + audioIntensity * 0.2); Lit ")"];
       beginPath ]
  ++ for_loop (Z.to_nat (sides + 1)) 0 (fun i =>
       let angle := (Math_PI * 2 * of_Z i) / of_Z sides in
       let x := Math_cos m angle * polygonRadius in
       let y := Math_sin m angle * polygonRadius in
       if (i =? 0)%Z then [moveTo x y] else [lineTo x y])
  ++ [closePath; fill; stroke; restore].

Definition drawKaleidoscopicLayers
  (audioIntensity bassIntensity midIntensity trebleIntensity segmentAngle
   : number) : list Op :=
  let t := of_Z (time r) in
  for_loop (Z.to_nat (floor_int (3 * qualityScale r))) 0 (fun layer =>
    let layerScale := 0.3 + of_Z layer * 0.2 in
    let layerRotation := t * (0.01 + of_Z layer * 0.005)
                         + bassIntensity * 0.3 in
    let layerRadius := maxRadius r * layerScale in
    let starPoints := (8 + layer * 2)%Z in
    let starRadius := layerRadius * 0.6 in
    let innerRadius := starRadius * 0.4 in
    let hue := rem (hueOffset r + of_Z layer * 40 + t * 0.5) 360 in
    [ save;
      rotate layerRotation;
      strokeStyle (Color [Lit "hsla("; Num hue; Lit ", 45%, ";
                          Num (25 + midIntensity * 12); Lit "%, ";
                          Num (0.15 + audioIntensity * 0.1); Lit ")"]);
      lineWidth (1.5 + trebleIntensity * 2);
      shadowBlur (5 + audioIntensity * 10);
      shadowColor [Lit "hsla("; Num hue; Lit ", 45%, 28%, ";
                   Num (0.2 + audioIntensity * 0.15); Lit ")"];
      beginPath ]
    ++ for_loop (Z.to_nat (starPoints * 2 + 1)) 0 (fun i =>
         let angle := (Math_PI * of_Z i) / of_Z starPoints in
         let radius := if (i mod 2 =? 0)%Z then starRadius else innerRadius in
         let x := Math_cos m angle * radius in
         let y := Math_sin m angle * radius in
         if (i =? 0)%Z then [moveTo x y] else [lineTo x y])
    ++ [closePath; stroke; restore]).

(** The calls of [drawSegment], on the off-screen context. *)
Definition drawSegment
  (audioIntensity bassIntensity midIntensity trebleIntensity : number)
  : list Op :=
  let segmentAngle := (Math_PI * 2) / segments r in
  [ save;
    translate (centerX r) (centerY r);
    beginPath;
    moveTo 0 0;
    lineTo (Math_cos m 0 * maxRadius r) (Math_sin m 0 * maxRadius r);
    lineTo (Math_cos m segmentAngle * maxRadius r)
           (Math_sin m segmentAngle * maxRadius r);
    closePath;
    clip;
    createRadialGradient "bgGradient" 0 0 0 0 0 (maxRadius r);
    addColorStop "bgGradient" 0
      [Lit "hsla("; Num (hueOffset r); Lit ", 35%, 12%, 0.2)"];
    addColorStop "bgGradient" 1
      [Lit "hsla("; Num (rem (hueOffset r + 60) 360); Lit ", 35%, 8%, 0.05)"];
    fillStyle (Gradient "bgGradient");
    fillRect (- centerX r) (- centerY r)
             (width (canvas r)) (height (canvas r)) ]
  ++ drawRays audioIntensity bassIntensity midIntensity segmentAngle
  ++ drawParticles audioIntensity trebleIntensity
  ++ drawGeometricPatterns audioIntensity bassIntensity midIntensity
       trebleIntensity
  ++ drawKaleidoscopicLayers audioIntensity bassIntensity midIntensity
       trebleIntensity segmentAngle
  ++ [restore].

(** The calls of [render] on the off-screen context. *)
Definition offscreen_frame
  (audioIntensity bassIntensity midIntensity trebleIntensity : number)
  : list Op :=
  clearRect 0 0 (width (offscreenCanvas r)) (height (offscreenCanvas r))
  :: drawSegment audioIntensity bassIntensity midIntensity trebleIntensity.

(** The calls of [render] on the main context: the fade, then the
    off-screen canvas drawn once per segment, every other one flipped. *)
Definition main_frame : list Op :=
  let fadeRate := 0.05 * (1 + (1 - qualityScale r) * 0.5) in
  let segmentAngle := (Math_PI * 2) / segments r in
  [ fillStyle (Color [Lit "rgba(0, 0, 0, "; Num fadeRate; Lit ")"]);
    fillRect 0 0 (width (canvas r)) (height (canvas r));
    save;
    translate (centerX r) (centerY r) ]
  ++ for_loop (iterations (segments r)) 0 (fun i =>
       [save; rotate (segmentAngle * of_Z i)]
       ++ (if (i mod 2 =? 1)%Z then [scale 1 (-1)] else [])
       ++ [drawImage (- centerX r) (- centerY r); restore])
  ++ [restore].

End WithMath.

(** The counting loops of [drawRays], [drawGeometricPatterns] and
    [drawKaleidoscopicLayers] end: none of their bounds is [+Infinity].
    The routines above are given for such a receiver, and the mirroring
    loop of [main_frame] for a segment count that is not [+Infinity]. *)
Definition ends_drawing (r : Renderer) : Prop :=
  20 * qualityScale r <> infinity
  /\ 6 * qualityScale r <> infinity
  /\ 3 * qualityScale r <> infinity.

(** The receiver as the drawing routines of one
    [render(dataArray, bufferLength)] find it: the tick counted, the hue
    offset moved, the segment count retargeted, the pool not yet
    updated. *)
Definition drawing (d : Uint8Array) (bufferLength : Z) (r : Renderer)
  : Renderer :=
  let b := KaleidoscopePure.bandIntensity d bufferLength 0 0.15 in
  set_segments
    (KaleidoscopeFrame.retargeted b (time r + 1) (segments r))
    (set_hueOffset (rem (hueOffset r + 0.5 + b * 2) 360)
       (set_time (time r + 1) r)).

(** The calls of [render(dataArray, bufferLength)] on the off-screen
    context and on the main one, when each of them returns. *)
Definition offscreen_calls (m : MathLib) (d : Uint8Array) (bufferLength : Z)
  (r : Renderer) : list Op :=
  offscreen_frame m (drawing d bufferLength r)
    (KaleidoscopePure.audioIntensity d bufferLength)
    (KaleidoscopePure.bandIntensity d bufferLength 0 0.15)
    (KaleidoscopePure.bandIntensity d bufferLength 0.3 0.6)
    (KaleidoscopePure.bandIntensity d bufferLength 0.7 1.0).

Definition main_calls (d : Uint8Array) (bufferLength : Z) (r : Renderer)
  : list Op :=
  main_frame (drawing d bufferLength r).

(** The loops of one [render(dataArray, bufferLength)] end: the length is
    below 2^53, where the counters of the source are exact, and no bound
    of a drawing loop or of the mirroring loop is [+Infinity]. *)
Definition loops_end (d : Uint8Array) (bufferLength : Z) (r : Renderer)
  : Prop :=
  (bufferLength < 2 ^ 53)%Z
  /\ ends_drawing r
  /\ segments (drawing d bufferLength r) <> infinity.

(** Consecutive calls on one renderer that all return: the loops of each
    [render] end and it raises nothing. *)
Fixpoint all_return (m : MathLib) (calls : list Calls.action) (w : W)
  : Prop :=
  match calls with
  | [] => True
  | Calls.Render d len :: rest =>
      loops_end d len (this w)
      /\ fst (render m len (Calls.with_data d w)) = Eff.Normal tt
      /\ all_return m rest (snd (render m len (Calls.with_data d w)))
  | Calls.Resize wd ht :: rest => all_return m rest (snd (resize m wd ht w))
  end.

(** What renews the particle at the index [i] at the position [j] of the
    calls: the respawn test of [updateParticles] succeeds for it in the
    [render] at that position, or the call there is a [resize], which
    replaces the pool. *)
Definition renewed_at (m : MathLib) (i : nat) (calls : list Calls.action)
  (w : W) (j : nat) : Prop :=
  let v := KaleidoscopeFrame.run m (firstn j calls) w in
  match nth_error calls j with
  | Some (Calls.Render d len) =>
      exists q,
        nth_error (particles (this v)) i = Some q
        /\ le (life q - 0.005) 0
           || gt (KaleidoscopePure.radial_distance
                    (KaleidoscopePure.audioIntensity d len)
                    (KaleidoscopePure.bandIntensity d len 0 0.15) q)
                 (maxRadius (this v) * 0.6) = true
  | Some (Calls.Resize _ _) => True
  | None => False
  end.

End KaleidoscopeCanvas.

(* ================================================================== *)
(** * Facts about binary64 comparisons and rounding *)
(* ================================================================== *)

Module FloatFacts.
Import JS.

(** ** Comparison on the specification side *)

Lemma SFcompare_antisym x y c :
  SFcompare x y = Some c -> SFcompare y x = Some (CompOpp c).
Proof.
  destruct x as [sx|sx| |sx mx ex], y as [sy|sy| |sy my ey]; cbn;
    try discriminate;
    try (destruct sx; try destruct sy; intros [= <-]; reflexivity);
    try (destruct sy; intros [= <-]; reflexivity).
  destruct sx, sy; intros [= <-]; try reflexivity;
    rewrite (Z.compare_antisym ex ey);
    destruct (ex ?= ey)%Z eqn:E; cbn; try reflexivity;
    rewrite (Pos.compare_cont_antisym mx my Eq); cbn;
    try rewrite CompOpp_involutive; reflexivity.
Qed.

Lemma SFcompare_refl x : x <> S754_nan -> SFcompare x x = Some Eq.
Proof.
  destruct x as [s|s| |s m e]; cbn; intros H; try congruence;
    try (destruct s; reflexivity).
  rewrite Z.compare_refl, Pos.compare_cont_refl. destruct s; reflexivity.
Qed.

(** Two numbers that compare equal are the same, signed zeros apart. *)
Lemma SFcompare_Eq_finite x s m e :
  SFcompare x (S754_finite s m e) = Some Eq -> x = S754_finite s m e.
Proof.
  destruct x as [sx|sx| |sx mx ex]; cbn; try discriminate;
    try (destruct sx; discriminate); try (destruct s; discriminate).
  destruct sx, s; try discriminate;
    destruct (ex ?= e)%Z eqn:E; try discriminate;
    apply Z.compare_eq in E; subst ex;
    destruct (Pos.compare_cont Eq mx m) eqn:C; try discriminate;
    apply (Pos.compare_eq mx m) in C; now subst.
Qed.

(** ** The primitive comparisons *)

Lemma ltb_antisym x y :
  PrimFloat.ltb x y = true -> PrimFloat.ltb y x = false.
Proof.
  rewrite !FloatAxioms.ltb_spec. unfold SFltb.
  destruct (SFcompare (Prim2SF x) (Prim2SF y)) as [[]|] eqn:E;
    try discriminate.
  now rewrite (SFcompare_antisym _ _ _ E).
Qed.

Lemma leb_not_gt x y :
  PrimFloat.leb x y = true -> PrimFloat.ltb y x = false.
Proof.
  intros H. rewrite FloatAxioms.leb_spec in H. rewrite FloatAxioms.ltb_spec.
  unfold SFleb, SFltb in *.
  destruct (SFcompare (Prim2SF x) (Prim2SF y)) as [[]|] eqn:E;
    try discriminate; now rewrite (SFcompare_antisym _ _ _ E).
Qed.

Lemma is_nan_spec x : is_nan x = true <-> Prim2SF x = S754_nan.
Proof.
  unfold is_nan. rewrite FloatAxioms.eqb_spec. unfold SFeqb. split.
  - destruct (Prim2SF x) eqn:E; try reflexivity;
      rewrite SFcompare_refl by discriminate; discriminate.
  - intros ->. reflexivity.
Qed.

Lemma ltb_not_nan_l x y : PrimFloat.ltb x y = true -> is_nan x = false.
Proof.
  rewrite FloatAxioms.ltb_spec. intros H.
  destruct (is_nan x) eqn:E; [|reflexivity].
  apply is_nan_spec in E. rewrite E in H. discriminate.
Qed.

Lemma ltb_not_nan_r x y : PrimFloat.ltb x y = true -> is_nan y = false.
Proof.
  rewrite FloatAxioms.ltb_spec. intros H.
  destruct (is_nan y) eqn:E; [|reflexivity].
  apply is_nan_spec in E. rewrite E in H.
  unfold SFltb in H. destruct (Prim2SF x); discriminate.
Qed.

(** A number that is neither below nor above a non-zero finite number,
    and is not NaN, is that number. *)
Lemma not_lt_gt_eq x y s m e :
  Prim2SF y = S754_finite s m e ->
  is_nan x = false ->
  PrimFloat.ltb x y = false -> PrimFloat.ltb y x = false -> x = y.
Proof.
  intros Hy Hn H1 H2. apply Prim2SF_inj. rewrite Hy.
  apply SFcompare_Eq_finite. rewrite <- Hy.
  rewrite FloatAxioms.ltb_spec in H1, H2. unfold SFltb in *.
  destruct (SFcompare (Prim2SF x) (Prim2SF y)) as [[]|] eqn:E.
  - reflexivity.
  - discriminate.
  - rewrite (SFcompare_antisym _ _ _ E) in H2. discriminate.
  - exfalso. rewrite Hy in E.
    destruct (Prim2SF x) eqn:Ex; cbn in E; try discriminate.
    assert (is_nan x = true) by now apply is_nan_spec. congruence.
Qed.

(** A number at most zero is at most any positive number. *)
Lemma leb_zero_leb_pos x c :
  PrimFloat.ltb 0 c = true ->
  PrimFloat.leb x 0 = true -> PrimFloat.leb x c = true.
Proof.
  intros Hc H. rewrite FloatAxioms.ltb_spec in Hc.
  rewrite FloatAxioms.leb_spec in H. rewrite FloatAxioms.leb_spec.
  change (Prim2SF 0) with (S754_zero false) in *. unfold SFleb, SFltb in *.
  destruct (Prim2SF c) as [sc|sc| |sc mc ec];
    destruct (Prim2SF x) as [s|s| |s mx ex]; cbn in *;
    try discriminate; try reflexivity;
    repeat match goal with b : bool |- _ => destruct b end;
    try discriminate; reflexivity.
Qed.

(** NaN absorbs an addition. *)
Lemma add_nan_r x : (x + nan)%float = nan.
Proof.
  apply Prim2SF_inj. rewrite add_spec.
  change (Prim2SF nan) with S754_nan.
  destruct (Prim2SF x) as [[]|[]| |[] ? ?]; reflexivity.
Qed.

(** ** Rounding a non-negative mantissa never produces NaN *)

Lemma iter_pos_invariant {A} (P : A -> Prop) (f : A -> A) :
  (forall a, P a -> P (f a)) -> forall p a, P a -> P (iter_pos f p a).
Proof.
  intros Hf p. induction p as [p IH|p IH|]; intros a Ha; cbn; auto.
Qed.

Lemma shr_1_nonneg mrs : 0 <= shr_m mrs -> 0 <= shr_m (shr_1 mrs).
Proof.
  destruct mrs as [mm r s]. cbn.
  destruct mm as [|[p|p|]|p]; cbn; intros H; try lia;
    exfalso; apply H; reflexivity.
Qed.

Lemma shr_nonneg mrs e n : 0 <= shr_m mrs -> 0 <= shr_m (fst (shr mrs e n)).
Proof.
  intros H. destruct n; cbn; auto.
  apply (iter_pos_invariant (fun r => 0 <= shr_m r)); auto using shr_1_nonneg.
Qed.

Lemma shr_fexp_nonneg mx ex lx :
  0 <= mx -> 0 <= shr_m (fst (shr_fexp prec emax mx ex lx)).
Proof.
  intros H. unfold shr_fexp. apply shr_nonneg.
  destruct lx as [|[]]; exact H.
Qed.

Lemma round_nearest_even_nonneg mx lx :
  0 <= mx -> 0 <= round_nearest_even mx lx.
Proof.
  intros H. destruct lx as [|[]]; cbn; try lia.
  destruct (Z.even mx); lia.
Qed.

Lemma binary_round_aux_not_nan sx mx ex lx :
  0 <= mx -> binary_round_aux prec emax sx mx ex lx <> S754_nan.
Proof.
  intros H. unfold binary_round_aux.
  pose proof (shr_fexp_nonneg mx ex lx H) as H1.
  destruct (shr_fexp prec emax mx ex lx) as [mrs1 e1]. cbn in H1.
  pose proof (shr_fexp_nonneg
                (round_nearest_even (shr_m mrs1) (loc_of_shr_record mrs1))
                e1 loc_Exact (round_nearest_even_nonneg _ _ H1)) as H2.
  destruct (shr_fexp prec emax _ e1 loc_Exact) as [mrs2 e2]. cbn in H2.
  destruct (shr_m mrs2) as [|p|p].
  - discriminate.
  - destruct (e2 <=? emax - prec); discriminate.
  - exfalso. apply H2. reflexivity.
Qed.

Lemma SFdiv_finite_not_nan sx mx ex sy my ey :
  SFdiv prec emax (S754_finite sx mx ex) (S754_finite sy my ey) <> S754_nan.
Proof.
  cbn [SFdiv]. unfold SFdiv_core_binary.
  set (m' := match _ with Z0 => _ | Zpos _ => _ | Zneg _ => _ end).
  assert (Hm : 0 <= m').
  { subst m'. destruct (_ - _ - _) eqn:E; try lia.
    rewrite Z.shiftl_mul_pow2 by lia. apply Z.mul_nonneg_nonneg; lia. }
  assert (Hq : 0 <= fst (Z.div_eucl m' (Zpos my))).
  { change (0 <= m' / Zpos my). apply Z.div_pos; lia. }
  destruct (Z.div_eucl m' (Zpos my)) as [q r]. cbn in Hq.
  now apply binary_round_aux_not_nan.
Qed.

(** A quotient by a number above a positive finite one is not NaN. *)
Lemma div_above_not_nan c m e x :
  Prim2SF c = S754_finite false m e ->
  PrimFloat.ltb c x = true -> is_nan (c / x) = false.
Proof.
  intros Hc H. rewrite FloatAxioms.ltb_spec, Hc in H.
  destruct (is_nan (c / x)) eqn:E; [|reflexivity].
  apply is_nan_spec in E. rewrite div_spec, Hc in E.
  destruct (Prim2SF x) as [s|s| |s mx ex]; try discriminate.
  exfalso. revert E. apply SFdiv_finite_not_nan.
Qed.

(** ** Sign: numbers that are +0, positive, or +Infinity *)

Definition nonneg (x : number) : Prop :=
  match Prim2SF x with
  | S754_zero false | S754_infinity false | S754_finite false _ _ => True
  | _ => False
  end.

Lemma binary_round_aux_sign sx mx ex lx :
  0 <= mx ->
  match binary_round_aux prec emax sx mx ex lx with
  | S754_zero s | S754_infinity s | S754_finite s _ _ => s = sx
  | S754_nan => False
  end.
Proof.
  intros H. pose proof (binary_round_aux_not_nan sx mx ex lx H) as Hn.
  revert Hn. unfold binary_round_aux.
  destruct (shr_fexp prec emax mx ex lx) as [mrs1 e1].
  destruct (shr_fexp prec emax _ e1 loc_Exact) as [mrs2 e2].
  destruct (shr_m mrs2) as [|p|p]; intros Hn; try reflexivity.
  - destruct (e2 <=? emax - prec); reflexivity.
  - now apply Hn.
Qed.

Lemma nonneg_not_nan x : nonneg x -> is_nan x = false.
Proof.
  unfold nonneg. intros H. destruct (is_nan x) eqn:E; [|reflexivity].
  apply is_nan_spec in E. now rewrite E in H.
Qed.

Lemma SFdiv_finite_sign sx mx ex sy my ey :
  match SFdiv prec emax (S754_finite sx mx ex) (S754_finite sy my ey) with
  | S754_zero s | S754_infinity s | S754_finite s _ _ => s = xorb sx sy
  | S754_nan => False
  end.
Proof.
  cbn [SFdiv]. unfold SFdiv_core_binary.
  set (m' := match _ with Z0 => _ | Zpos _ => _ | Zneg _ => _ end).
  assert (Hm : 0 <= m').
  { subst m'. destruct (_ - _ - _) eqn:E; try lia.
    rewrite Z.shiftl_mul_pow2 by lia. apply Z.mul_nonneg_nonneg; lia. }
  assert (Hq : 0 <= fst (Z.div_eucl m' (Zpos my))).
  { change (0 <= m' / Zpos my). apply Z.div_pos; lia. }
  destruct (Z.div_eucl m' (Zpos my)) as [q r]. cbn in Hq.
  now apply binary_round_aux_sign.
Qed.

Lemma div_above_nonneg c m e x :
  Prim2SF c = S754_finite false m e ->
  PrimFloat.ltb c x = true -> nonneg (c / x)%float.
Proof.
  intros Hc H. rewrite FloatAxioms.ltb_spec, Hc in H.
  unfold nonneg. rewrite div_spec, Hc.
  destruct (Prim2SF x) as [s|s| |s mx ex]; try discriminate.
  - destruct s; [discriminate|exact I].
  - destruct s; [discriminate|].
    pose proof (SFdiv_finite_sign false m e false mx ex) as Hs.
    unfold SF64div. revert Hs.
    destruct (SFdiv prec emax (S754_finite false m e)
                (S754_finite false mx ex)) as [[]|[]| |[] ? ?];
      intros Hs; try discriminate; try exact I; try contradiction.
Qed.

Lemma mul_nonneg c m e x :
  Prim2SF c = S754_finite false m e -> nonneg x -> nonneg (c * x)%float.
Proof.
  unfold nonneg. intros Hc H. rewrite mul_spec, Hc.
  destruct (Prim2SF x) as [[]|[]| |[] mx ex]; try contradiction;
    try exact I.
  unfold SF64mul. cbn [SFmul xorb].
  pose proof (binary_round_aux_sign false (Zpos (m * mx)) (e + ex) loc_Exact
                ltac:(lia)) as Hs.
  revert Hs.
  destruct (binary_round_aux prec emax false (Zpos (m * mx)) (e + ex)
              loc_Exact) as [[]|[]| |[] ? ?];
    intros Hs; try discriminate; try exact I; try contradiction.
Qed.

Lemma floor_int_nonneg x : nonneg x -> 0 <= floor_int x.
Proof.
  unfold nonneg, floor_int, floorZ.
  destruct (Prim2SF x) as [[]|[]| |[] m e]; try contradiction;
    intros _; try reflexivity.
  cbn [cond_Zopp]. destruct (Z.leb_spec 0 e).
  - apply Z.mul_nonneg_nonneg; [lia|]. apply Z.pow_nonneg. lia.
  - apply Z.div_pos; [lia|]. apply Z.pow_pos_nonneg; lia.
Qed.

(** ** [Math.min] against its conditional forms *)

Lemma Math_min_nonneg c m e y :
  Prim2SF c = S754_finite false m e -> nonneg y -> nonneg (Math_min c y).
Proof.
  intros Hc Hy. unfold Math_min.
  assert (is_nan c = false) as ->.
  { destruct (is_nan c) eqn:E; [|reflexivity].
    apply is_nan_spec in E. congruence. }
  rewrite (nonneg_not_nan y Hy). cbn [orb].
  assert (Hcn : nonneg c) by (unfold nonneg; now rewrite Hc).
  destruct (PrimFloat.ltb c y); [exact Hcn|].
  destruct (PrimFloat.ltb y c); [exact Hy|].
  rewrite Hc. exact Hy.
Qed.

(** [y < c ? y : c] is [Math.min(c, y)] when [y] is not NaN and [c] is a
    non-zero finite number. *)
Lemma lt_else_is_Math_min c s m e y :
  Prim2SF c = S754_finite s m e -> is_nan y = false ->
  (if PrimFloat.ltb y c then y else c) = Math_min c y.
Proof.
  intros Hc Hy. unfold Math_min.
  assert (is_nan c = false) as ->.
  { destruct (is_nan c) eqn:E; [|reflexivity].
    apply is_nan_spec in E. congruence. }
  rewrite Hy. cbn [orb].
  destruct (PrimFloat.ltb y c) eqn:E1.
  - now rewrite (ltb_antisym _ _ E1).
  - destruct (PrimFloat.ltb c y) eqn:E2; [reflexivity|].
    rewrite Hc. symmetry. now apply (not_lt_gt_eq y c s m e).
Qed.

(** [x < c ? x : c] is [Math.min(x, c)] under the same conditions. *)
Lemma lt_else_is_Math_min_l c s m e x :
  Prim2SF c = S754_finite s m e -> is_nan x = false ->
  (if PrimFloat.ltb x c then x else c) = Math_min x c.
Proof.
  intros Hc Hx. unfold Math_min.
  assert (is_nan c = false) as ->.
  { destruct (is_nan c) eqn:E; [|reflexivity].
    apply is_nan_spec in E. congruence. }
  rewrite Hx. cbn [orb].
  destruct (PrimFloat.ltb x c) eqn:E1; [reflexivity|].
  destruct (PrimFloat.ltb c x) eqn:E2; [reflexivity|].
  assert (x = c) as -> by now apply (not_lt_gt_eq x c s m e).
  rewrite Hc. reflexivity.
Qed.

Lemma or_else_not_nan d c :
  is_nan c = false -> is_nan (or_else d c) = false.
Proof.
  intros Hc. unfold or_else, truthy.
  destruct (is_zero d) eqn:Z; cbn [orb negb]; [exact Hc|].
  destruct (is_nan d) eqn:N; cbn [negb]; [exact Hc|exact N].
Qed.

End FloatFacts.

Module EffFacts.
Import Eff.

Lemma bind_normal {W A B} (c : M W A) (k : A -> M W B) w a w' :
  c w = (Normal a, w') -> bind c k w = k a w'.
Proof. intros H. unfold bind. now rewrite H. Qed.

Lemma bind_fst_normal {W A B} (c : M W A) (k : A -> M W B) w a :
  fst (c w) = Normal a -> bind c k w = k a (snd (c w)).
Proof. intros H. unfold bind. destruct (c w) as [[a'|e] w']; cbn in *; congruence. Qed.

Lemma bind_throw {W A B} (c : M W A) (k : A -> M W B) w e w' :
  c w = (Throw e, w') -> bind c k w = (Throw e, w').
Proof. intros H. unfold bind. now rewrite H. Qed.

(** ** Frames: a projection of the store that a computation leaves alone *)


Lemma keeps_ret {W A X} (f : W -> X) (a : A) : keeps f (ret a).
Proof. intros w. reflexivity. Qed.

Lemma keeps_throw {W A X} (f : W -> X) e : keeps f (@throw W A e).
Proof. intros w. reflexivity. Qed.

Lemma keeps_gets {W A X} (f : W -> X) (g : W -> A) : keeps f (gets g).
Proof. intros w. reflexivity. Qed.

Lemma keeps_bind {W A B X} (f : W -> X) (c : M W A) (k : A -> M W B) :
  keeps f c -> (forall a, keeps f (k a)) -> keeps f (bind c k).
Proof.
  intros Hc Hk w. unfold bind.
  specialize (Hc w). destruct (c w) as [[a|e] w1]; cbn in *.
  - now rewrite Hk.
  - exact Hc.
Qed.

Lemma keeps_when {W X} (f : W -> X) b (c : M W unit) :
  keeps f c -> keeps f (when b c).
Proof. destruct b; cbn; auto using keeps_ret. Qed.

Lemma keeps_if {W A X} (f : W -> X) (b : bool) (c1 c2 : M W A) :
  keeps f c1 -> keeps f c2 -> keeps f (if b then c1 else c2).
Proof. now destruct b. Qed.

Lemma keeps_loop {W A X} (f : W -> X) (body : Z -> A -> M W A) :
  (forall i acc, keeps f (body i acc)) ->
  forall n i acc, keeps f (loop n i body acc).
Proof.
  intros Hb n. induction n as [|n IH]; intros i acc; cbn.
  - apply keeps_ret.
  - apply keeps_bind; auto.
Qed.

Lemma keeps_for_range {W A X} (f : W -> X) (body : Z -> A -> M W A) lo hi acc :
  (forall i a, keeps f (body i a)) -> keeps f (for_range lo hi body acc).
Proof. intros. now apply keeps_loop. Qed.

Lemma keeps_for_each {W A X} (f : W -> X) (body : A -> M W A) :
  (forall a, keeps f (body a)) -> forall xs, keeps f (for_each xs body).
Proof.
  intros Hb xs. induction xs as [|a xs IH]; cbn.
  - apply keeps_ret.
  - apply keeps_bind; [apply Hb|]. intros a'.
    apply keeps_bind; [exact IH|]. intros; apply keeps_ret.
Qed.

(** ** Computations that only read the store *)


Lemma reads_ret {W A} (a : A) : reads (@ret W A a) (fun _ => a).
Proof. intros w. reflexivity. Qed.

Lemma reads_gets {W A} (g : W -> A) : reads (gets g) g.
Proof. intros w. reflexivity. Qed.

Lemma reads_bind {W A B} (c : M W A) (k : A -> M W B) v u :
  reads c v -> (forall a, reads (k a) (u a)) ->
  reads (bind c k) (fun w => u (v w) w).
Proof. intros Hc Hk w. unfold bind. rewrite Hc. apply Hk. Qed.

(** ** Computations that complete normally under a stable condition *)


Lemma succeeds_ret {W A} (P : W -> Prop) (a : A) : succeeds P (ret a).
Proof. intros w H. split; [reflexivity|exact H]. Qed.

Lemma succeeds_gets {W A} (P : W -> Prop) (g : W -> A) : succeeds P (gets g).
Proof. intros w H. split; [reflexivity|exact H]. Qed.

Lemma succeeds_bind {W A B} (P : W -> Prop) (c : M W A) (k : A -> M W B) :
  succeeds P c -> (forall a, succeeds P (k a)) -> succeeds P (bind c k).
Proof.
  intros Hc Hk w H. unfold bind, completes in *.
  destruct (Hc w H) as [H1 H2].
  destruct (c w) as [[a|e] w1]; cbn in *; [|discriminate].
  now apply Hk.
Qed.

Lemma succeeds_when {W} (P : W -> Prop) b (c : M W unit) :
  succeeds P c -> succeeds P (when b c).
Proof. destruct b; cbn; auto using succeeds_ret. Qed.

Lemma succeeds_if {W A} (P : W -> Prop) (b : bool) (c1 c2 : M W A) :
  succeeds P c1 -> succeeds P c2 -> succeeds P (if b then c1 else c2).
Proof. now destruct b. Qed.

Lemma succeeds_loop {W A} (P : W -> Prop) (body : Z -> A -> M W A) :
  (forall i acc, succeeds P (body i acc)) ->
  forall n i acc, succeeds P (loop n i body acc).
Proof.
  intros Hb n. induction n as [|n IH]; intros i acc; cbn.
  - apply succeeds_ret.
  - apply succeeds_bind; auto.
Qed.

Lemma succeeds_for_range {W A} (P : W -> Prop) (body : Z -> A -> M W A)
  lo hi acc :
  (forall i a, succeeds P (body i a)) -> succeeds P (for_range lo hi body acc).
Proof. intros. now apply succeeds_loop. Qed.

Lemma succeeds_for_each {W A} (P : W -> Prop) (body : A -> M W A) :
  (forall a, succeeds P (body a)) -> forall xs, succeeds P (for_each xs body).
Proof.
  intros Hb xs. induction xs as [|a xs IH]; cbn.
  - apply succeeds_ret.
  - apply succeeds_bind; [apply Hb|]. intros a'.
    apply succeeds_bind; [exact IH|]. intros; apply succeeds_ret.
Qed.

Lemma completes_normal {W} (r : completion unit * W) :
  completes r = true -> fst r = Normal tt.
Proof.
  unfold completes. destruct (fst r) as [[]|]; [reflexivity|discriminate].
Qed.

(** ** Normal completion with a postcondition *)


Lemma succeeds_then {W A B} (P : W -> Prop) (c : M W A) (k : A -> M W B)
  (Q : B -> W -> Prop) :
  succeeds P c -> (forall a, hoare P (k a) Q) -> hoare P (bind c k) Q.
Proof.
  intros Hc Hk w H. unfold bind.
  destruct (Hc w H) as [H1 H2]. unfold completes in H1.
  destruct (c w) as [[a|e] w1]; cbn in *; [|discriminate].
  now apply Hk.
Qed.

Lemma hoare_bind {W A B} (P : W -> Prop) (c : M W A) (k : A -> M W B)
  (Q : A -> W -> Prop) (T : B -> W -> Prop) :
  hoare P c Q -> (forall a, hoare (Q a) (k a) T) -> hoare P (bind c k) T.
Proof.
  intros Hc Hk w H. unfold bind.
  destruct (Hc w H) as (a & H1 & H2).
  destruct (c w) as [[a'|e] w1]; cbn in *; [|discriminate].
  injection H1 as ->. now apply Hk.
Qed.

Lemma hoare_ret {W A} (P : W -> Prop) (a : A) (Q : A -> W -> Prop) :
  (forall w, P w -> Q a w) -> hoare P (ret a) Q.
Proof. intros H w Hw. exists a. split; [reflexivity|]. now apply H. Qed.

Lemma hoare_assume {W A} (phi : Prop) (P : W -> Prop) (c : M W A) Q :
  (phi -> hoare P c Q) -> hoare (fun w => phi /\ P w) c Q.
Proof. intros H w [Hphi Hw]. now apply H. Qed.

Lemma hoare_gets {W A} (P : W -> Prop) (g : W -> A) :
  hoare P (gets g) (fun a w => a = g w /\ P w).
Proof. intros w H. exists (g w). cbn. auto. Qed.

Lemma hoare_weaken {W A} (P P' : W -> Prop) (c : M W A) Q :
  (forall w, P' w -> P w) -> hoare P c Q -> hoare P' c Q.
Proof. intros H Hc w Hw. apply Hc, H, Hw. Qed.

(** ** The store's primitives *)

Import DOM.

Lemma keeps_update_this {R X} (g : R -> X) (h : R -> R) :
  (forall r, g (h r) = g r) -> keeps (fun w => g (this w)) (update h).
Proof. intros H w. cbn. apply H. Qed.

Lemma keeps_update_data {R} (h : R -> R) : keeps (@dataArray R) (update h).
Proof. intros w. reflexivity. Qed.

Lemma keeps_read {R X} (f : World R -> X) i : keeps f (read i).
Proof. intros w. reflexivity. Qed.

Lemma keeps_field {R A X} (f : World R -> X) (g : R -> A) : keeps f (field g).
Proof. intros w. reflexivity. Qed.

Lemma succeeds_update {R} (Q : R -> Prop) (h : R -> R) :
  (forall r, Q r -> Q (h r)) -> succeeds (fun w => Q (this w)) (update h).
Proof. intros H w Hw. split; [reflexivity|]. cbn. now apply H. Qed.

Lemma succeeds_random {R} (Q : R -> Prop) m :
  succeeds (fun w => Q (this w)) (Math_random m).
Proof. intros w Hw. split; [reflexivity|exact Hw]. Qed.

Lemma keeps_random_this {R X} (g : R -> X) m :
  keeps (fun w => g (this w)) (Math_random m).
Proof. intros w. reflexivity. Qed.

Lemma bind_update {R B} (h : R -> R) (k : unit -> M (World R) B) w :
  bind (update h) k w = k tt (with_this (h (this w)) w).
Proof. reflexivity. Qed.

Lemma bind_ret {W A B} (a : A) (k : A -> M W B) w : bind (ret a) k w = k a w.
Proof. reflexivity. Qed.

Lemma bind_gets {W A B} (g : W -> A) (k : A -> M W B) w :
  bind (gets g) k w = k (g w) w.
Proof. reflexivity. Qed.

Lemma bind_field {R A B} (g : R -> A) (k : A -> M (World R) B) w :
  bind (field g) k w = k (g (this w)) w.
Proof. reflexivity. Qed.

Lemma bind_reads {W A B} (c : M W A) v (k : A -> M W B) w :
  reads c v -> bind c k w = k (v w) w.
Proof. intros H. unfold bind. now rewrite H. Qed.

Lemma bind_assoc {W A B C} (c : M W A) (k : A -> M W B) (k' : B -> M W C) w :
  bind (bind c k) k' w = bind c (fun a => bind (k a) k') w.
Proof. unfold bind. destruct (c w) as [[a|e] w1]; reflexivity. Qed.

Lemma bind_when {W B} (b : bool) (c : M W unit) (k : unit -> M W B) w :
  bind (when b c) k w = if b then bind c k w else k tt w.
Proof. destruct b; reflexivity. Qed.

Lemma keeps_random_data {R} m : keeps (@dataArray R) (Math_random m).
Proof. intros w. reflexivity. Qed.

End EffFacts.

(** Splits a frame goal along the structure of the computation. *)
Ltac frame_step :=
  lazymatch goal with
  | |- Eff.keeps _ (Eff.bind _ _) =>
      apply EffFacts.keeps_bind; [|intros ?]
  | |- Eff.keeps _ (Eff.ret _) => apply EffFacts.keeps_ret
  | |- Eff.keeps _ (Eff.throw _) => apply EffFacts.keeps_throw
  | |- Eff.keeps _ (Eff.gets _) => apply EffFacts.keeps_gets
  | |- Eff.keeps _ (DOM.field _) => apply EffFacts.keeps_field
  | |- Eff.keeps _ (DOM.read _) => apply EffFacts.keeps_read
  | |- Eff.keeps _ (Eff.when _ _) => apply EffFacts.keeps_when
  | |- Eff.keeps _ (Eff.loop _ _ _ _) =>
      apply EffFacts.keeps_loop; intros ? ?
  | |- Eff.keeps _ (Eff.for_range _ _ _ _) =>
      apply EffFacts.keeps_for_range; intros ? ?
  | |- Eff.keeps _ (Eff.for_each _ _) =>
      apply EffFacts.keeps_for_each; intros ?
  | |- Eff.keeps DOM.dataArray (DOM.update _) =>
      apply EffFacts.keeps_update_data
  | |- Eff.keeps DOM.dataArray (Math_random _) =>
      apply EffFacts.keeps_random_data
  | |- Eff.keeps _ (Math_random _) => apply EffFacts.keeps_random_this
  | |- Eff.keeps _ (DOM.update _) =>
      apply EffFacts.keeps_update_this; intros ?; reflexivity
  | |- Eff.keeps _ (if _ then _ else _) => apply EffFacts.keeps_if
  | |- Eff.keeps _ (match ?c with _ => _ end) => destruct c
  end.
Ltac frame := repeat frame_step.

(** Splits a goal of normal completion the same way. *)
Ltac succeeds_step :=
  lazymatch goal with
  | |- Eff.succeeds _ (Eff.bind _ _) =>
      apply EffFacts.succeeds_bind; [|intros ?]
  | |- Eff.succeeds _ (Eff.ret _) => apply EffFacts.succeeds_ret
  | |- Eff.succeeds _ (Eff.gets _) => apply EffFacts.succeeds_gets
  | |- Eff.succeeds _ (DOM.field _) => apply EffFacts.succeeds_gets
  | |- Eff.succeeds _ (DOM.read _) => apply EffFacts.succeeds_gets
  | |- Eff.succeeds _ (Eff.when _ _) => apply EffFacts.succeeds_when
  | |- Eff.succeeds _ (Eff.loop _ _ _ _) =>
      apply EffFacts.succeeds_loop; intros ? ?
  | |- Eff.succeeds _ (Eff.for_range _ _ _ _) =>
      apply EffFacts.succeeds_for_range; intros ? ?
  | |- Eff.succeeds _ (Eff.for_each _ _) =>
      apply EffFacts.succeeds_for_each; intros ?
  | |- Eff.succeeds _ (Math_random _) => apply EffFacts.succeeds_random
  | |- Eff.succeeds _ (DOM.update _) =>
      apply EffFacts.succeeds_update; intros ? ?; assumption
  | |- Eff.succeeds _ (if _ then _ else _) => apply EffFacts.succeeds_if
  | |- Eff.succeeds _ (match ?c with _ => _ end) => destruct c
  end.
Ltac run_to_end := repeat succeeds_step.

Module ReadFacts.
Import JS Eff DOM EffFacts Pure.
Local Open Scope float_scope.

Lemma sum_loop_reads {R} n : forall i acc,
  reads (W := World R)
        (loop n i (fun i sum => v <- read i ;; ret (sum + v)) acc)
        (fun w => sum_loop (dataArray w) n i acc).
Proof.
  induction n as [|n IH]; intros i acc w; cbn.
  - reflexivity.
  - unfold bind at 1. cbn. apply IH.
Qed.

Lemma sum_range_reads {R} lo hi :
  reads (W := World R)
        (for_range lo hi (fun i sum => v <- read i ;; ret (sum + v)) 0)
        (fun w => sum_range (dataArray w) lo hi).
Proof. intros w. apply sum_loop_reads. Qed.

End ReadFacts.

Module ChemicalFacts.
Import JS Eff DOM FloatFacts EffFacts Pure ReadFacts ChemicalOrbitals
  ChemicalPure.
Local Open Scope float_scope.

Section WithMath.
Variable m : MathLib.

Lemma co_band_reads len s e :
  reads (getFrequencyBandIntensity len s e)
        (fun w => bandIntensity (dataArray w) len s e).
Proof.
  intros w. unfold getFrequencyBandIntensity, bandIntensity.
  destruct (_ <=? 0)%Z; [reflexivity|].
  rewrite (bind_normal _ _ _ _ _ (sum_range_reads _ _ w)). reflexivity.
Qed.

(** Drawing only touches the context's call log. *)
Lemma co_draw_keeps_data name a : keeps dataArray (draw name a).
Proof. unfold draw. frame. Qed.

Lemma co_draw_keeps_this {X} (g : Renderer -> X) name a :
  (forall c r, g (set_ctx c r) = g r) ->
  keeps (fun w => g (this w)) (draw name a).
Proof.
  intros H. unfold draw. frame. apply keeps_update_this. intros r. apply H.
Qed.

(** [render] never writes to the caller's buffer. *)
Lemma co_render_keeps_data len : keeps dataArray (render m len).
Proof.
  unfold render, getFrequencyBandIntensity, drawEnergyLevelLabel,
    drawOrbitals, drawNucleus, updateElectrons, drawElectrons.
  frame; apply co_draw_keeps_data.
Qed.

Lemma co_resize_keeps_data width height :
  keeps dataArray (resize m width height).
Proof. unfold resize, initializeElectrons. frame. Qed.

Lemma fresh_electrons_length k n : List.length (fresh_electrons m k n) = n.
Proof. revert k. induction n; intros k; cbn; auto. Qed.

Lemma fresh_electrons_app k n1 n2 :
  fresh_electrons m k (n1 + n2)
  = fresh_electrons m k n1 ++ fresh_electrons m (k + 3 * n1) n2.
Proof.
  revert k. induction n1 as [|n1 IH]; intros k; cbn [fresh_electrons Nat.add app].
  - now rewrite Nat.add_0_r.
  - rewrite IH. do 3 f_equal. lia.
Qed.

Lemma co_push_loop n : forall i w,
  loop n i (fun _ _ =>
    a <- Math_random m ;;
    p <- Math_random m ;;
    s <- Math_random m ;;
    es <- field electrons ;;
    update (set_electrons
      (es ++ [mkElectron 0 0 0 (a * TWO_PI) (p * TWO_PI) (0.01 + s * 0.02)])))
    tt w
  = (Normal tt,
     mkWorld (set_electrons
                (electrons (this w) ++ fresh_electrons m (draws w) n) (this w))
             (dataArray w) (draws w + 3 * n)%nat
             (devicePixelRatio w) (createElement w)).
Proof.
  induction n as [|n IH]; intros i w.
  - cbn. rewrite app_nil_r, Nat.add_0_r. destruct w as [[] ? ? ? ?]. reflexivity.
  - cbn [loop]. unfold bind at 1. cbn -[loop fresh_electrons Nat.mul].
    rewrite IH. cbn -[fresh_electrons Nat.mul].
    rewrite <- app_assoc. cbn [app fresh_electrons].
    do 2 f_equal. lia.
Qed.

Lemma co_initializeElectrons_run w :
  initializeElectrons m w
  = (Normal tt,
     mkWorld (set_electrons
                (fresh_electrons m (draws w)
                   (electronCount (qualityScale (this w)))) (this w))
             (dataArray w)
             (draws w + 3 * electronCount (qualityScale (this w)))%nat
             (devicePixelRatio w) (createElement w)).
Proof.
  unfold initializeElectrons. rewrite bind_update, bind_field.
  rewrite co_push_loop. reflexivity.
Qed.

Definition energy_of (r : Renderer) : Z * Z * number :=
  (energyLevelTimer r, currentEnergyLevel r, energyLevelDuration r).

(** The drawing half of [render] leaves alone every field but the call
    log and the electrons. *)
Ltac co_tail g :=
  cbv beta;
  match goal with
  | |- context [snd (?c ?w0)] =>
      let K := fresh "K" in
      assert (K : keeps (fun w => g (this w)) c)
        by (unfold drawEnergyLevelLabel, drawOrbitals, drawNucleus,
              updateElectrons, drawElectrons;
            frame; apply co_draw_keeps_this; reflexivity);
      transitivity (g (this w0)); [exact (K w0)|]; clear K
  end.

(** What one [render] does to the energy-level fields: it depends on the
    buffer only through the overall intensity, and holds whether or not
    the drawing part raises. *)
Lemma co_render_energy len w :
  let r := this w in
  let a := audioIntensity (dataArray w) len in
  let D := energyLevelDuration r in
  energy_of (this (snd (render m len w)))
  = (timer_after D a (energyLevelTimer r),
     level_after D a (energyLevelTimer r) (currentEnergyLevel r), D).
Proof.
  cbv zeta. unfold render.
  rewrite !bind_update.
  rewrite (bind_reads _ _ _ _ (sum_range_reads _ _)).
  rewrite !(bind_reads _ _ _ _ (co_band_reads _ _ _)).
  rewrite bind_gets, bind_when.
  unfold timer_after, level_after, second_check, timer_between, first_check,
    next_level, audioIntensity.
  cbn [this with_this set_time set_energyLevelTimer energyLevelTimer
       energyLevelDuration currentEnergyLevel dataArray].
  destruct (ge (of_Z (energyLevelTimer (this w) + 1)) _).
  - rewrite bind_assoc, !bind_update, bind_gets, bind_when.
    cbn [this with_this set_time set_energyLevelTimer set_currentEnergyLevel
         energyLevelTimer energyLevelDuration currentEnergyLevel dataArray].
    destruct (ge (of_Z 0) _).
    + rewrite bind_assoc, !bind_update. co_tail energy_of. reflexivity.
    + co_tail energy_of. reflexivity.
  - rewrite bind_gets, bind_when.
    cbn [this with_this set_time set_energyLevelTimer set_currentEnergyLevel
         energyLevelTimer energyLevelDuration currentEnergyLevel dataArray].
    destruct (ge (of_Z (energyLevelTimer (this w) + 1)) _).
    + rewrite bind_assoc, !bind_update. co_tail energy_of. reflexivity.
    + co_tail energy_of. reflexivity.
Qed.

(** [updateElectrons] rewrites each electron in place. *)
Lemma for_each_ret {A} (g : A -> A) (xs : list A) :
  reads (W := W) (for_each xs (fun e => ret (g e))) (fun _ => map g xs).
Proof.
  induction xs as [|e xs IH]; intros w; cbn [for_each map].
  - reflexivity.
  - rewrite bind_ret, (bind_reads _ _ _ _ IH). reflexivity.
Qed.

Definition pool_size (r : Renderer) : nat := List.length (electrons r).

Lemma co_updateElectrons_keeps_pool_size a b :
  keeps (fun w => pool_size (this w)) (updateElectrons m a b).
Proof.
  intros w. unfold updateElectrons.
  rewrite !bind_field, (bind_reads _ _ _ _ (for_each_ret _ _)).
  cbn. unfold pool_size. cbn. apply length_map.
Qed.

Lemma co_render_keeps_pool_size len :
  keeps (fun w => pool_size (this w)) (render m len).
Proof.
  unfold render, getFrequencyBandIntensity, drawEnergyLevelLabel,
    drawOrbitals, drawNucleus, drawElectrons.
  frame;
    first [ apply co_draw_keeps_this; reflexivity
          | apply co_updateElectrons_keeps_pool_size ].
Qed.

(** ** The constructor and [resize], run to the end *)

Lemma co_constructor_run w :
  let r := this w in
  let cv := canvas r in
  let qs := constructor_quality (width cv * height cv) in
  let d := or_else (devicePixelRatio w) 1 in
  constructor m w
  = (Normal tt,
     mkWorld
       {| canvas := cv; ctx := ctx r; time := time r;
          centerX := width cv * 0.5; centerY := height cv * 0.5;
          maxRadius := Math_min (width cv) (height cv) * 0.4;
          pixelRatio := (if lt d 2 then d else 2) * qs;
          qualityScale := qs;
          currentEnergyLevel := currentEnergyLevel r;
          energyLevelTimer := energyLevelTimer r;
          energyLevelDuration := energyLevelDuration r;
          electrons := fresh_electrons m (draws w) (electronCount qs) |}
       (dataArray w) (draws w + 3 * electronCount qs)%nat
       (devicePixelRatio w) (createElement w)).
Proof.
  cbv zeta. unfold constructor, constructor_quality.
  rewrite bind_field, bind_gets.
  destruct (gt _ _); rewrite !bind_update, bind_field, !bind_update;
    rewrite co_initializeElectrons_run; reflexivity.
Qed.

Lemma co_resize_run width height w :
  let r := this w in
  let qs := resize_quality (width * height) in
  let d := or_else (devicePixelRatio w) 1 in
  resize m width height w
  = (Normal tt,
     mkWorld
       {| canvas := mkCanvas width height (getContext2d (canvas r));
          ctx := ctx r; time := time r;
          centerX := width * 0.5; centerY := height * 0.5;
          maxRadius := Math_min width height * 0.4;
          pixelRatio := Math_min d 2 * qs;
          qualityScale := qs;
          currentEnergyLevel := currentEnergyLevel r;
          energyLevelTimer := energyLevelTimer r;
          energyLevelDuration := energyLevelDuration r;
          electrons := fresh_electrons m (draws w) (electronCount qs) |}
       (dataArray w) (draws w + 3 * electronCount qs)%nat
       (devicePixelRatio w) (createElement w)).
Proof.
  cbv zeta. unfold resize, resize_quality.
  destruct (gt _ _); rewrite !bind_update, bind_gets, bind_field, !bind_update;
    rewrite co_initializeElectrons_run; reflexivity.
Qed.

(** ** The quality scale *)

Lemma co_constructor_quality_nonneg A : nonneg (constructor_quality A).
Proof.
  unfold constructor_quality, gt.
  destruct (PrimFloat.ltb 2073600 A) eqn:E; [|exact I].
  eapply Math_min_nonneg; [reflexivity|].
  eapply div_above_nonneg; [reflexivity|exact E].
Qed.

(** [resize] spells the minimum as a conditional: the same number. *)
Lemma co_resize_quality_eq A : resize_quality A = constructor_quality A.
Proof.
  unfold resize_quality, constructor_quality, gt, lt.
  destruct (PrimFloat.ltb 2073600 A) eqn:E; [|reflexivity].
  eapply lt_else_is_Math_min; [reflexivity|].
  eapply div_above_not_nan; [reflexivity|exact E].
Qed.

Lemma co_quality_as_specified A :
  Specified.quality_as_specified A (constructor_quality A).
Proof.
  unfold Specified.quality_as_specified, constructor_quality, le, gt.
  destruct (PrimFloat.leb A 2073600) eqn:E.
  - now rewrite (leb_not_gt _ _ E).
  - destruct (PrimFloat.ltb 2073600 A); reflexivity.
Qed.

Lemma co_electronCount_floor qs :
  nonneg qs -> Z.of_nat (electronCount qs) = floor_int (50 * qs).
Proof.
  intros H. unfold electronCount. apply Z2Nat.id, floor_int_nonneg.
  eapply mul_nonneg; [reflexivity|exact H].
Qed.

(** [dpr < 2 ? dpr : 2] is [Math.min(dpr, 2)] once [|| 1] has removed NaN. *)
Lemma co_pixel_cap d :
  (if lt (or_else d 1) 2 then or_else d 1 else 2) = Math_min (or_else d 1) 2.
Proof.
  eapply lt_else_is_Math_min_l; [reflexivity|].
  now apply or_else_not_nan.
Qed.

(** ** Whether [render] raises *)

Lemma co_draw_some name a log w :
  ctx (this w) = Some log ->
  draw name a w
  = (Normal tt, with_this (set_ctx (Some (log ++ [mkDraw name a])) (this w)) w).
Proof. intros H. unfold draw. rewrite bind_field, H. reflexivity. Qed.

Lemma co_draw_none name a w :
  ctx (this w) = None -> draw name a w = (Throw TypeError, w).
Proof. intros H. unfold draw. rewrite bind_field, H. reflexivity. Qed.

Definition has_ctx (r : Renderer) : Prop := ctx r <> None.

Lemma co_draw_succeeds name a :
  succeeds (fun w => has_ctx (this w)) (draw name a).
Proof.
  intros w H. unfold has_ctx in *.
  destruct (ctx (this w)) as [log|] eqn:E; [|congruence].
  rewrite (co_draw_some _ _ _ _ E). split; [reflexivity|]. cbn. discriminate.
Qed.

(** With a context, [render] runs to its end. *)
Lemma co_render_succeeds len :
  succeeds (fun w => has_ctx (this w)) (render m len).
Proof.
  unfold render, getFrequencyBandIntensity, drawEnergyLevelLabel,
    drawOrbitals, drawNucleus, updateElectrons, drawElectrons.
  run_to_end; apply co_draw_succeeds.
Qed.

(** Without one, it raises at its first drawing call. *)
Lemma co_render_null len w :
  ctx (this w) = None -> fst (render m len w) = Throw TypeError.
Proof.
  intros H. unfold render.
  rewrite !bind_update.
  rewrite (bind_reads _ _ _ _ (sum_range_reads _ _)).
  rewrite !(bind_reads _ _ _ _ (co_band_reads _ _ _)).
  rewrite bind_gets, bind_when.
  destruct (ge _ _).
  - rewrite bind_assoc, !bind_update, bind_gets, bind_when.
    destruct (ge _ _).
    + rewrite bind_assoc, !bind_update, bind_field.
      erewrite bind_throw; [reflexivity|]. now apply co_draw_none.
    + rewrite bind_field.
      erewrite bind_throw; [reflexivity|]. now apply co_draw_none.
  - rewrite bind_gets, bind_when.
    destruct (ge _ _).
    + rewrite bind_assoc, !bind_update, bind_field.
      erewrite bind_throw; [reflexivity|]. now apply co_draw_none.
    + rewrite bind_field.
      erewrite bind_throw; [reflexivity|]. now apply co_draw_none.
Qed.

End WithMath.
End ChemicalFacts.

Module ChemicalCycle.
Import JS Eff DOM EffFacts FloatFacts Pure ChemicalOrbitals ChemicalPure
  ChemicalFacts ChemicalRuns.
Local Open Scope float_scope.

(** The nominal test on the integers a timer can hold. *)
Lemma first_check_small t :
  (0 <= t <= 299)%Z -> first_check 300 t = (t =? 299)%Z.
Proof.
  intros H.
  assert (C : forallb (fun t => Bool.eqb (first_check 300 t) (t =? 299)%Z)
                (map Z.of_nat (seq 0 300)) = true) by (vm_compute; reflexivity).
  rewrite forallb_forall in C.
  apply eqb_prop, C, in_map_iff. exists (Z.to_nat t). split; [lia|].
  apply in_seq. lia.
Qed.

Lemma step_inv a t l :
  energy_inv a (t, l, 300) ->
  energy_inv a (timer_after 300 a t, level_after 300 a t l, 300)
  /\ first_check 300 t && second_check 300 a t = false
  /\ ((level_after 300 a t l = l /\ timer_after 300 a t = (t + 1)%Z)
      \/ (level_after 300 a t l = next_level l /\ timer_after 300 a t = 0%Z
          /\ ((300 <= t + 1)%Z
              \/ ge (of_Z (t + 1)) (300 / (1 + a * 2)) = true))).
Proof.
  intros (_ & Ht & Hl & Hc).
  assert (Hn : (1 <= next_level l <= 6)%Z).
  { unfold next_level, MAX_ENERGY_LEVEL.
    pose proof (Z.mod_pos_bound l 6 ltac:(lia)). lia. }
  unfold timer_after, level_after, second_check, timer_between.
  rewrite (first_check_small t Ht).
  destruct (t =? 299)%Z eqn:E.
  - (* the nominal test fires: the adjusted one cannot *)
    apply Z.eqb_eq in E. subst t.
    destruct Hc as [Hc|Hc]; [discriminate|].
    assert (H0 : ge (of_Z 0) (300 / (1 + a * 2)) = false).
    { destruct (ge (of_Z 0) _) eqn:G; [|reflexivity].
      rewrite <- Hc. symmetry.
      apply (leb_zero_leb_pos _ (of_Z 299)); [reflexivity|exact G]. }
    rewrite H0. cbn [andb].
    split; [|split]; [ unfold energy_inv; auto with zarith | reflexivity | ].
    right. split; [reflexivity|]. split; [reflexivity|]. left. lia.
  - apply Z.eqb_neq in E. cbn [andb].
    destruct (ge (of_Z (t + 1)) (300 / _)) eqn:G.
    + split; [|split]; [ unfold energy_inv; auto with zarith | reflexivity | ].
      right. split; [reflexivity|]. split; [reflexivity|]. right. reflexivity.
    + split; [|split]; [ | reflexivity | left; split; reflexivity ].
      unfold energy_inv. repeat split; auto; lia.
Qed.

Section WithMath.
Variable m : MathLib.

Lemma co_ticks_keeps_data len k w :
  dataArray (ticks m len k w) = dataArray w.
Proof.
  induction k as [|k IH]; cbn [ticks]; [reflexivity|].
  etransitivity; [apply (co_render_keeps_data m len)|exact IH].
Qed.

Lemma co_ticks_keeps_pool_size len k w :
  pool_size (this (ticks m len k w)) = pool_size (this w).
Proof.
  induction k as [|k IH]; cbn [ticks]; [reflexivity|].
  etransitivity; [apply (co_render_keeps_pool_size m len)|exact IH].
Qed.

Lemma co_ticks_inv len k w :
  let a := audioIntensity (dataArray w) len in
  energy_inv a (energy_of (this w)) ->
  energy_inv a (energy_of (this (ticks m len k w))).
Proof.
  intros a H. induction k as [|k IH]; cbn [ticks]; [exact H|].
  rewrite co_render_energy, co_ticks_keeps_data.
  unfold energy_of in IH.
  assert (HD : energyLevelDuration (this (ticks m len k w)) = 300)
    by (destruct IH as [HD _]; exact HD).
  rewrite HD in *. now apply step_inv.
Qed.

Lemma co_ticks_trace len k w :
  energy_of (this w) = (0%Z, 1%Z, energyLevelDuration (this w)) ->
  let D := energyLevelDuration (this w) in
  let a := audioIntensity (dataArray w) len in
  energy_of (this (ticks m len k w))
  = (fst (energy_trace D a k), snd (energy_trace D a k), D).
Proof.
  intros H D a. induction k as [|k IH]; cbn [ticks energy_trace].
  - exact H.
  - rewrite co_render_energy, co_ticks_keeps_data.
    unfold energy_of in IH. injection IH as -> -> ->.
    fold D a. destruct (energy_trace D a k). reflexivity.
Qed.

Lemma co_new_completes {R} cv (w0 : World R) :
  completes (new m cv w0) = true.
Proof. unfold new. rewrite co_constructor_run. reflexivity. Qed.

Lemma co_new_ctx {R} cv (w0 : World R) :
  ctx (this (snd (new m cv w0))) = getContext2d cv.
Proof. unfold new. rewrite co_constructor_run. reflexivity. Qed.

Lemma co_new_energy {R} cv (w0 : World R) :
  energy_of (this (snd (new m cv w0))) = (0%Z, 1%Z, 300).
Proof. unfold new. rewrite co_constructor_run. reflexivity. Qed.

Lemma co_new_data {R} cv (w0 : World R) :
  dataArray (snd (new m cv w0)) = dataArray w0.
Proof. unfold new. rewrite co_constructor_run. reflexivity. Qed.

End WithMath.
End ChemicalCycle.

Module KaleidoscopeFacts.
Import JS Eff DOM EffFacts FloatFacts Pure ReadFacts Kaleidoscope
  KaleidoscopePure.
Local Open Scope float_scope.

Section WithMath.
Variable m : MathLib.

Lemma ks_band_reads len s e :
  reads (getFrequencyBandIntensity len s e)
        (fun w => bandIntensity (dataArray w) len s e).
Proof.
  intros w. unfold getFrequencyBandIntensity, bandIntensity.
  destruct (floorZ (Math_floor (of_Z len * s))) as [lo|];
    [destruct (floorZ (Math_floor (of_Z len * e))) as [hi|]|].
  - rewrite (bind_reads _ _ _ _ (sum_range_reads _ _)). reflexivity.
  - reflexivity.
  - reflexivity.
Qed.

Lemma ks_draw_keeps_data name a : keeps dataArray (draw name a).
Proof. unfold draw. frame. Qed.

Lemma ks_draw_offscreen_keeps_data name a :
  keeps dataArray (draw_offscreen name a).
Proof. unfold draw_offscreen. frame. Qed.

Lemma ks_draw_keeps_this {X} (g : Renderer -> X) name a :
  (forall c r, g (set_ctx c r) = g r) ->
  keeps (fun w => g (this w)) (draw name a).
Proof.
  intros H. unfold draw. frame. apply keeps_update_this. intros r. apply H.
Qed.

Lemma ks_draw_offscreen_keeps_this {X} (g : Renderer -> X) name a :
  (forall c r, g (set_offscreenCtx c r) = g r) ->
  keeps (fun w => g (this w)) (draw_offscreen name a).
Proof.
  intros H. unfold draw_offscreen. frame.
  apply keeps_update_this. intros r. apply H.
Qed.

(** [render] never writes to the caller's buffer. *)
Lemma ks_render_keeps_data len : keeps dataArray (render m len).
Proof.
  unfold render, getFrequencyBandIntensity, drawSegment, updateParticles,
    updateParticle.
  frame;
    first [apply ks_draw_keeps_data | apply ks_draw_offscreen_keeps_data].
Qed.

Lemma fresh_particles_length sa mr k n :
  List.length (fresh_particles m sa mr k n) = n.
Proof. revert k. induction n; intros k; cbn; auto. Qed.

Lemma ks_push_loop sa n : forall i w,
  loop n i (fun _ _ =>
    r1 <- Math_random m ;;
    let angle := r1 * sa in
    r2 <- Math_random m ;;
    mr <- field maxRadius ;;
    let radius := r2 * mr * 0.5 in
    r3 <- Math_random m ;;
    r4 <- Math_random m ;;
    r5 <- Math_random m ;;
    r6 <- Math_random m ;;
    ps <- field particles ;;
    update (set_particles
      (ps ++ [mkParticle (Math_cos m angle * radius)
                         (Math_sin m angle * radius)
                         ((r3 - 0.5) * 2) ((r4 - 0.5) * 2)
                         (5 + r5 * 15) (r6 * 360) 1])))
    tt w
  = (Normal tt,
     mkWorld (set_particles
                (particles (this w)
                 ++ fresh_particles m sa (maxRadius (this w)) (draws w) n)
                (this w))
             (dataArray w) (draws w + 6 * n)%nat
             (devicePixelRatio w) (createElement w)).
Proof.
  induction n as [|n IH]; intros i w.
  - cbn. rewrite app_nil_r, Nat.add_0_r. destruct w as [[] ? ? ? ?]. reflexivity.
  - cbn [loop]. unfold bind at 1. cbn -[loop fresh_particles Nat.mul].
    rewrite IH. cbn -[fresh_particles Nat.mul].
    rewrite <- app_assoc. cbn [app fresh_particles]. unfold fresh_particle.
    rewrite !Nat.add_succ_r, !Nat.add_0_r.
    do 2 f_equal. lia.
Qed.

Lemma ks_initializeParticles_run w :
  let r := this w in
  let n := particleCount (qualityScale r) in
  initializeParticles m w
  = (Normal tt,
     mkWorld (set_particles
                (particles r
                 ++ fresh_particles m (Math_PI * 2 / segments r)
                      (maxRadius r) (draws w) n) r)
             (dataArray w) (draws w + 6 * n)%nat
             (devicePixelRatio w) (createElement w)).
Proof.
  cbv zeta. unfold initializeParticles. rewrite !bind_field.
  rewrite ks_push_loop. reflexivity.
Qed.

Lemma ks_constructor_run w :
  let r := this w in
  let cv := canvas r in
  let el := createElement w in
  let qs := quality (width cv * height cv) in
  let d := or_else (devicePixelRatio w) 1 in
  let mr := Math_min (width cv) (height cv) * 0.8 in
  constructor m w
  = (Normal tt,
     mkWorld
       {| canvas := cv; ctx := ctx r;
          offscreenCanvas := mkCanvas (width cv) (height cv) (getContext2d el);
          offscreenCtx := getContext2d el;
          segments := segments r;
          particles := particles r
                       ++ fresh_particles m (Math_PI * 2 / segments r) mr
                            (draws w) (particleCount qs);
          time := time r; hueOffset := hueOffset r;
          centerX := width cv / 2; centerY := height cv / 2;
          maxRadius := mr;
          pixelRatio := Math_min d 2 * qs;
          qualityScale := qs |}
       (dataArray w) (draws w + 6 * particleCount qs)%nat
       (devicePixelRatio w) (createElement w)).
Proof.
  cbv zeta. unfold constructor, quality.
  rewrite bind_field, bind_gets.
  destruct (gt _ _);
    rewrite !bind_update, bind_field, !bind_update, bind_gets, !bind_update;
    rewrite ks_initializeParticles_run; reflexivity.
Qed.

Lemma ks_resize_run width height w :
  let r := this w in
  let qs := quality (width * height) in
  let d := or_else (devicePixelRatio w) 1 in
  let mr := Math_min width height * 0.8 in
  resize m width height w
  = (Normal tt,
     mkWorld
       {| canvas := mkCanvas width height (getContext2d (canvas r));
          ctx := ctx r;
          offscreenCanvas :=
            mkCanvas width height (getContext2d (offscreenCanvas r));
          offscreenCtx := offscreenCtx r;
          segments := segments r;
          particles := fresh_particles m (Math_PI * 2 / segments r) mr
                         (draws w) (particleCount qs);
          time := time r; hueOffset := hueOffset r;
          centerX := width / 2; centerY := height / 2;
          maxRadius := mr;
          pixelRatio := Math_min d 2 * qs;
          qualityScale := qs |}
       (dataArray w) (draws w + 6 * particleCount qs)%nat
       (devicePixelRatio w) (createElement w)).
Proof.
  cbv zeta. unfold resize, quality.
  destruct (gt _ _);
    rewrite !bind_update, bind_gets, bind_field, !bind_update;
    rewrite ks_initializeParticles_run; reflexivity.
Qed.

(** ** One [render]: the tick counter and the segment count *)

Lemma ks_bind_draw {B} name a (k : unit -> M (World Renderer) B) w :
  bind (draw name a) k w
  = match ctx (this w) with
    | None => (Throw TypeError, w)
    | Some log =>
        k tt (with_this (set_ctx (Some (log ++ [mkDraw name a])) (this w)) w)
    end.
Proof.
  unfold draw, bind, field, gets.
  destruct (ctx (this w)); reflexivity.
Qed.

Lemma ks_bind_draw_offscreen {B} name a
  (k : unit -> M (World Renderer) B) w :
  bind (draw_offscreen name a) k w
  = match offscreenCtx (this w) with
    | None => (Throw TypeError, w)
    | Some log =>
        k tt (with_this
                (set_offscreenCtx (Some (log ++ [mkDraw name a])) (this w)) w)
    end.
Proof.
  unfold draw_offscreen, bind, field, gets.
  destruct (offscreenCtx (this w)); reflexivity.
Qed.

Definition clock (r : Renderer) : number * Z := (segments r, time r).

(** What follows the segment update in [render] leaves the segment count
    and the tick counter alone. *)
Ltac ks_tail g :=
  cbv beta;
  match goal with
  | |- context [snd (?c ?w0)] =>
      let K := fresh "K" in
      assert (K : keeps (fun w => g (this w)) c)
        by (unfold drawSegment, updateParticles, updateParticle;
            frame;
            first [ apply ks_draw_keeps_this; reflexivity
                  | apply ks_draw_offscreen_keeps_this; reflexivity ]);
      transitivity (g (this w0)); [exact (K w0)|]; clear K
  end.

Lemma ks_render_clock len w :
  let r := this w in
  let bass := bandIntensity (dataArray w) len 0 0.15 in
  clock (this (snd (render m len w)))
  = (match ctx r with
     | Some _ =>
         if gt (Math_abs (segments r - targetSegments bass)) 0
            && (((time r + 1) mod 5) =? 0)%Z
         then targetSegments bass else segments r
     | None => segments r
     end,
     (time r + 1)%Z).
Proof.
  cbv zeta. unfold render.
  rewrite bind_update, bind_gets.
  rewrite (bind_reads _ _ _ _ (sum_range_reads _ _)).
  rewrite (bind_reads _ _ _ _ (ks_band_reads _ _ _)).
  rewrite bind_update.
  rewrite !(bind_reads _ _ _ _ (ks_band_reads _ _ _)).
  rewrite !bind_field, ks_bind_draw.
  cbn [this with_this set_time set_hueOffset ctx segments time dataArray].
  destruct (ctx (this w)) as [log|]; [|reflexivity].
  rewrite bind_gets, bind_when.
  cbn [this with_this set_time set_hueOffset set_ctx ctx segments time
       dataArray].
  unfold targetSegments.
  destruct (gt _ _ && _).
  - rewrite bind_update. ks_tail clock. reflexivity.
  - ks_tail clock. reflexivity.
Qed.

(** ** Whether [render] raises *)

Definition has_contexts (r : Renderer) : Prop :=
  ctx r <> None /\ offscreenCtx r <> None.

Lemma ks_draw_succeeds (Q : Renderer -> Prop) name a :
  (forall r, Q r -> ctx r <> None) ->
  (forall c r, Q r -> Q (set_ctx (Some c) r)) ->
  succeeds (fun w => Q (this w)) (draw name a).
Proof.
  intros H1 H2 w H. unfold draw, bind, field, gets, completes. cbn.
  destruct (ctx (this w)) as [log|] eqn:E.
  - cbn. split; [reflexivity|]. now apply H2.
  - exfalso. now apply (H1 _ H).
Qed.

Lemma ks_draw_offscreen_succeeds (Q : Renderer -> Prop) name a :
  (forall r, Q r -> offscreenCtx r <> None) ->
  (forall c r, Q r -> Q (set_offscreenCtx (Some c) r)) ->
  succeeds (fun w => Q (this w)) (draw_offscreen name a).
Proof.
  intros H1 H2 w H. unfold draw_offscreen, bind, field, gets, completes. cbn.
  destruct (offscreenCtx (this w)) as [log|] eqn:E.
  - cbn. split; [reflexivity|]. now apply H2.
  - exfalso. now apply (H1 _ H).
Qed.

Lemma ks_updateParticle_run sa a b p w :
  updateParticle m sa a b p w
  = if respawns a b (maxRadius (this w)) p
    then (Normal (respawned m sa b (draws w)),
          mkWorld (this w) (dataArray w) (draws w + 6)%nat
                  (devicePixelRatio w) (createElement w))
    else (Normal (moved m sa a b p), w).
Proof.
  unfold updateParticle, respawns, radial_distance, moved. rewrite bind_field.
  match goal with |- context [gt ?u sa] => destruct (gt u sa) end;
    cbn [life];
    match goal with |- context [le ?u 0 || ?v] => destruct (le u 0 || v) end;
    try reflexivity;
    unfold respawned; cbn;
    rewrite !Nat.add_succ_r, !Nat.add_0_r; reflexivity.
Qed.

Lemma ks_updateParticle_succeeds (Q : Renderer -> Prop) sa a b p :
  succeeds (fun w => Q (this w)) (updateParticle m sa a b p).
Proof.
  intros w H. rewrite ks_updateParticle_run.
  destruct (respawns _ _ _ _); split; try reflexivity; exact H.
Qed.

(** With both contexts, [render] runs to its end. *)
Lemma ks_render_succeeds len :
  succeeds (fun w => has_contexts (this w)) (render m len).
Proof.
  unfold render, getFrequencyBandIntensity, drawSegment, updateParticles.
  run_to_end;
    first [ apply ks_draw_succeeds; unfold has_contexts; cbn;
            [tauto | intros ? ? [? ?]; split; [discriminate|assumption]]
          | apply ks_draw_offscreen_succeeds; unfold has_contexts; cbn;
            [tauto | intros ? ? [? ?]; split; [assumption|discriminate]]
          | apply ks_updateParticle_succeeds ].
Qed.

(** Without the main context it raises at the fade, without the
    off-screen one at the clearing of the off-screen canvas. *)
Lemma ks_render_null len w :
  ctx (this w) = None \/ offscreenCtx (this w) = None ->
  fst (render m len w) = Throw TypeError.
Proof.
  intros H. unfold render.
  rewrite bind_update, bind_gets.
  rewrite (bind_reads _ _ _ _ (sum_range_reads _ _)).
  rewrite (bind_reads _ _ _ _ (ks_band_reads _ _ _)).
  rewrite bind_update.
  rewrite !(bind_reads _ _ _ _ (ks_band_reads _ _ _)).
  rewrite !bind_field, ks_bind_draw.
  cbn [this with_this set_time set_hueOffset ctx offscreenCtx].
  destruct (ctx (this w)) as [log|]; [|reflexivity].
  destruct H as [H|H]; [discriminate|].
  rewrite bind_gets, bind_when.
  destruct (gt _ _ && _).
  - rewrite bind_update, bind_field, ks_bind_draw_offscreen.
    cbn [this with_this set_time set_hueOffset set_ctx set_segments ctx
         offscreenCtx]. now rewrite H.
  - rewrite bind_field, ks_bind_draw_offscreen.
    cbn [this with_this set_time set_hueOffset set_ctx set_segments ctx
         offscreenCtx]. now rewrite H.
Qed.

(** ** The particles across one [render] *)

Lemma ks_updateParticle_updated (Q : Renderer -> Prop) sa a b mr p :
  (forall r, Q r -> maxRadius r = mr) ->
  hoare (fun w => Q (this w)) (updateParticle m sa a b p)
        (fun p' w => updated m sa a b mr p p' /\ Q (this w)).
Proof.
  intros HQ w H. rewrite ks_updateParticle_run, (HQ _ H). unfold updated.
  destruct (respawns a b mr p); eexists; (split; [reflexivity|]);
    split; try exact H; try reflexivity.
  now eexists.
Qed.

Lemma ks_for_each_updated (Q : Renderer -> Prop) sa a b mr ps :
  (forall r, Q r -> maxRadius r = mr) ->
  hoare (fun w => Q (this w))
        (for_each ps (updateParticle m sa a b))
        (fun ps' w => Forall2 (updated m sa a b mr) ps ps' /\ Q (this w)).
Proof.
  intros HQ. induction ps as [|p ps IH]; cbn [for_each].
  - apply hoare_ret. intros w H. split; [constructor|exact H].
  - eapply hoare_bind; [apply (ks_updateParticle_updated Q); exact HQ|].
    intros p'. apply hoare_assume. intros Hp.
    eapply hoare_bind; [exact IH|].
    intros ps'. apply hoare_ret. cbv beta. intros w [H1 H2].
    split; [|exact H2]. constructor; assumption.
Qed.

(** The fields [updateParticles] depends on, with both contexts. *)
Definition pool_inv (ps : list Particle) (mr sg : number) (r : Renderer)
  : Prop :=
  has_contexts r /\ particles r = ps /\ maxRadius r = mr /\ segments r = sg.

Ltac ks_drawing :=
  first [ apply ks_draw_succeeds; unfold pool_inv, has_contexts; cbn;
          [ tauto
          | intros ? ? [[? ?] [? [? ?]]]; repeat split; auto; discriminate ]
        | apply ks_draw_offscreen_succeeds; unfold pool_inv, has_contexts; cbn;
          [ tauto
          | intros ? ? [[? ?] [? [? ?]]]; repeat split; auto; discriminate ] ].

Lemma ks_updateParticles_updated ps mr sg a b :
  hoare (fun w => pool_inv ps mr sg (this w)) (updateParticles m a b)
        (fun _ w =>
           Forall2 (updated m (Math_PI * 2 / sg) a b mr) ps
                   (particles (this w))
           /\ segments (this w) = sg /\ maxRadius (this w) = mr).
Proof.
  intros w H. unfold updateParticles. rewrite !bind_field.
  pose proof H as (Hc & Hp & Hm & Hs). rewrite Hp, Hs.
  destruct (ks_for_each_updated (pool_inv ps mr sg)
              (Math_PI * 2 / sg) a b mr ps) with (w := w)
    as (ps' & H1 & H2 & H3); [intros r Hr; apply Hr|exact H|].
  rewrite (bind_fst_normal _ _ _ _ H1).
  eexists. split; [reflexivity|].
  destruct H3 as (_ & _ & Hm' & Hs'). cbn. auto.
Qed.

Lemma ks_render_particles len w :
  has_contexts (this w) ->
  let w' := snd (render m len w) in
  let a := audioIntensity (dataArray w) len in
  let b := bandIntensity (dataArray w) len 0 0.15 in
  fst (render m len w) = Normal tt
  /\ Forall2 (updated m (Math_PI * 2 / segments (this w')) a b
               (maxRadius (this w)))
             (particles (this w)) (particles (this w')).
Proof.
  intros [Hc Ho]. cbv zeta. unfold render.
  rewrite bind_update, bind_gets.
  rewrite (bind_reads _ _ _ _ (sum_range_reads _ _)).
  rewrite (bind_reads _ _ _ _ (ks_band_reads _ _ _)).
  rewrite bind_update.
  rewrite !(bind_reads _ _ _ _ (ks_band_reads _ _ _)).
  rewrite !bind_field, ks_bind_draw.
  cbn [this with_this set_time set_hueOffset ctx offscreenCtx dataArray
       particles maxRadius].
  destruct (ctx (this w)) as [log|] eqn:Ec; [clear Hc|congruence].
  rewrite bind_gets, bind_when.
  cbn [this with_this set_time set_hueOffset set_ctx ctx offscreenCtx
       dataArray particles maxRadius segments time].
  destruct (gt _ _ && _); [rewrite bind_update|]; cbv beta;
    match goal with
    | |- fst (?c ?w2) = _ /\ _ =>
        assert (Hh : hoare
                  (fun w1 => pool_inv (particles (this w)) (maxRadius (this w))
                               (segments (this w2)) (this w1))
                  c
                  (fun _ w1 =>
                     Forall2 (updated m (Math_PI * 2 / segments (this w2))
                                (audioIntensity (dataArray w) len)
                                (bandIntensity (dataArray w) len 0 0.15)
                                (maxRadius (this w)))
                             (particles (this w)) (particles (this w1))
                     /\ segments (this w1) = segments (this w2)
                     /\ maxRadius (this w1) = maxRadius (this w)));
        [ repeat (lazymatch goal with
                  | |- hoare _ (bind _ _) _ => apply succeeds_then
                  end;
                  [ first [ apply succeeds_gets
                          | ks_drawing
                          | unfold drawSegment; run_to_end; ks_drawing
                          | run_to_end; ks_drawing ]
                  | intros ? ]);
          apply ks_updateParticles_updated
        | destruct (Hh w2) as ([] & H1 & H2 & H3 & _);
          [ unfold pool_inv, has_contexts; cbn; rewrite ?Ec;
            repeat split; auto; discriminate
          | split; [exact H1|];
            exact (eq_ind _ (fun s => Forall2 (updated m (Math_PI * 2 / s)
                                                 _ _ _) _ _)
                          H2 _ (eq_sym H3)) ] ]
    end.
Qed.

(** The hue offset moves before anything is drawn. *)
Lemma ks_render_hueOffset len w :
  hueOffset (this (snd (render m len w)))
  = rem (hueOffset (this w) + 0.5
         + bandIntensity (dataArray w) len 0 0.15 * 2) 360.
Proof.
  unfold render.
  rewrite bind_update, bind_gets.
  rewrite (bind_reads _ _ _ _ (sum_range_reads _ _)).
  rewrite (bind_reads _ _ _ _ (ks_band_reads _ _ _)).
  rewrite bind_update. cbv beta.
  match goal with
  | |- hueOffset (this (snd (?c ?w0))) = _ =>
      assert (K : keeps (fun w => hueOffset (this w)) c)
        by (unfold getFrequencyBandIntensity, drawSegment, updateParticles,
              updateParticle;
            frame;
            first [ apply ks_draw_keeps_this; reflexivity
                  | apply ks_draw_offscreen_keeps_this; reflexivity ]);
      transitivity (hueOffset (this w0)); [exact (K w0)|reflexivity]
  end.
Qed.

(** ** The quality scale *)

Lemma ks_quality_nonneg A : nonneg (quality A).
Proof.
  unfold quality, gt.
  destruct (PrimFloat.ltb (1920 * 1080) A) eqn:E; [|exact I].
  eapply Math_min_nonneg; [reflexivity|].
  eapply div_above_nonneg; [reflexivity|exact E].
Qed.

Lemma ks_quality_as_specified A : Specified.quality_as_specified A (quality A).
Proof.
  unfold Specified.quality_as_specified, quality, le, gt.
  change (1920 * 1080) with 2073600.
  destruct (PrimFloat.leb A 2073600) eqn:E.
  - now rewrite (leb_not_gt _ _ E).
  - destruct (PrimFloat.ltb 2073600 A); reflexivity.
Qed.

Lemma ks_particleCount_floor qs :
  nonneg qs -> Z.of_nat (particleCount qs) = floor_int (100 * qs).
Proof.
  intros H. unfold particleCount. apply Z2Nat.id, floor_int_nonneg.
  eapply mul_nonneg; [reflexivity|exact H].
Qed.

(** ** Runs of [render] *)

Lemma ks_new_clock {R} cv (w0 : World R) :
  clock (this (snd (new m cv w0))) = (12, 0%Z).
Proof. unfold new. rewrite ks_constructor_run. reflexivity. Qed.

Lemma ks_new_data {R} cv (w0 : World R) :
  dataArray (snd (new m cv w0)) = dataArray w0.
Proof. unfold new. rewrite ks_constructor_run. reflexivity. Qed.

Lemma ks_new_contexts {R} cv (w0 : World R) :
  ctx (this (snd (new m cv w0))) = getContext2d cv
  /\ offscreenCtx (this (snd (new m cv w0))) = getContext2d (createElement w0).
Proof. unfold new. rewrite ks_constructor_run. split; reflexivity. Qed.

Lemma ks_new_first_particle {R} cv (w0 : World R) :
  (0 < particleCount (quality (width cv * height cv)%float))%nat ->
  nth_error (particles (this (snd (new m cv w0)))) 0
  = Some (fresh_particle m (Math_PI * 2 / 12)
            (Math_min (width cv) (height cv) * 0.8) (draws w0)).
Proof.
  intros H. unfold new. rewrite ks_constructor_run.
  cbn [snd this with_this particles allocate app canvas segments draws].
  destruct (particleCount _); [lia|reflexivity].
Qed.

Lemma ks_ticks_keeps_data len k w :
  dataArray (ticks m len k w) = dataArray w.
Proof.
  induction k as [|k IH]; cbn [ticks]; [reflexivity|].
  etransitivity; [apply (ks_render_keeps_data len)|exact IH].
Qed.

Lemma ks_ticks_time len k w :
  time (this (ticks m len k w)) = (time (this w) + Z.of_nat k)%Z.
Proof.
  induction k as [|k IH]; cbn [ticks]; [lia|].
  pose proof (ks_render_clock len (ticks m len k w)) as H.
  cbv zeta in H. unfold clock in H. injection H as _ H. rewrite H, IH. lia.
Qed.

Lemma ks_render_keeps_maxRadius len :
  keeps (fun w => maxRadius (this w)) (render m len).
Proof.
  unfold render, getFrequencyBandIntensity, drawSegment, updateParticles,
    updateParticle.
  frame;
    first [ apply ks_draw_keeps_this; reflexivity
          | apply ks_draw_offscreen_keeps_this; reflexivity ].
Qed.

Lemma ks_ticks_keeps_maxRadius len k w :
  maxRadius (this (ticks m len k w)) = maxRadius (this w).
Proof.
  induction k as [|k IH]; cbn [ticks]; [reflexivity|].
  etransitivity; [apply (ks_render_keeps_maxRadius len)|exact IH].
Qed.

Lemma ks_ticks_contexts len k w :
  has_contexts (this w) -> has_contexts (this (ticks m len k w)).
Proof.
  intros H. induction k as [|k IH]; cbn [ticks]; [exact H|].
  now apply ks_render_succeeds.
Qed.

(** ** The mirroring loop ends

    [for (let i = 0; i < this.segments; i++)] ends when the segment count
    is not +Infinity. [render] keeps it so when its target is not. *)

Definition ends_mirroring (r : Renderer) : Prop := segments r <> infinity.

Lemma ks_render_ends_mirroring len w :
  targetSegments (bandIntensity (dataArray w) len 0 0.15) <> infinity ->
  ends_mirroring (this w) ->
  ends_mirroring (this (snd (render m len w))).
Proof.
  intros Ht Hs. unfold ends_mirroring.
  pose proof (ks_render_clock len w) as H.
  cbv zeta in H. unfold clock in H. injection H as H _. rewrite H.
  destruct (ctx (this w)); [|exact Hs].
  destruct (_ && _); assumption.
Qed.

Lemma ks_ticks_ends_mirroring len k w :
  targetSegments (bandIntensity (dataArray w) len 0 0.15) <> infinity ->
  ends_mirroring (this w) ->
  ends_mirroring (this (ticks m len k w)).
Proof.
  intros Ht Hs. induction k as [|k IH]; cbn [ticks]; [exact Hs|].
  apply ks_render_ends_mirroring; [|exact IH].
  now rewrite ks_ticks_keeps_data.
Qed.

Lemma ks_new_ends_mirroring {R} cv (w0 : World R) :
  ends_mirroring (this (snd (new m cv w0))).
Proof.
  unfold ends_mirroring.
  pose proof (ks_new_clock cv w0) as Hn. unfold clock in Hn.
  injection Hn as -> _.
  intros E. apply (f_equal Prim2SF) in E. vm_compute in E. discriminate E.
Qed.

(** ** The decay of a particle *)

Lemma Forall2_nth_error_l {A B} (P : A -> B -> Prop) l l' i a :
  Forall2 P l l' -> nth_error l i = Some a ->
  exists b, nth_error l' i = Some b /\ P a b.
Proof.
  intros H. revert i. induction H as [|x y l l' Hxy H IH]; intros i Hi.
  - destruct i; discriminate.
  - destruct i as [|i]; cbn in *.
    + injection Hi as ->. now exists y.
    + now apply IH.
Qed.

Lemma moved_life sa a b p : life (moved m sa a b p) = life p - 0.005.
Proof. unfold moved. destruct (gt _ sa); reflexivity. Qed.

Lemma decay_199_dies a b mr p :
  life p = decay 199 -> respawns a b mr p = true.
Proof.
  intros H. unfold respawns. rewrite H.
  assert (le (decay 199 - 0.005) 0 = true) as -> by (vm_compute; reflexivity).
  reflexivity.
Qed.

End WithMath.
End KaleidoscopeFacts.

(* ================================================================== *)
(** * The claims *)
(* ================================================================== *)

Section EnergyLevelClaims.
Import JS Eff DOM EffFacts FloatFacts Pure ChemicalOrbitals ChemicalPure
  ChemicalFacts ChemicalRuns ChemicalCycle Scenario.
Local Open Scope float_scope.
Variable m : MathLib.

(** C1. From construction on, with the same buffer at every tick, one
    [render] leaves the level where it is or moves it to its successor in
    the cycle 1, 2, 3, 4, 5, 6, 1; the two threshold tests never both
    succeed in a tick; and the level moves only when the ticks counted
    since the last move have reached the nominal or the audio-adjusted
    duration, the count restarting from zero. *)
Theorem C1_energy_level_cycles_in_order
  {R} (cv : Canvas) (w0 : World R) (bufferLength : Z) (k : nat) :
  let a := audioIntensity (dataArray w0) bufferLength in
  let w := ticks m bufferLength k (snd (new m cv w0)) in
  let w' := snd (render m bufferLength w) in
  let t := energyLevelTimer (this w) in
  let l := currentEnergyLevel (this w) in
  let l' := currentEnergyLevel (this w') in
  (1 <= l <= 6)%Z
  /\ first_check 300 t && second_check 300 a t = false
  /\ ((l' = l /\ energyLevelTimer (this w') = (t + 1)%Z)
      \/ (l' = (l mod 6 + 1)%Z /\ l' <> l
          /\ energyLevelTimer (this w') = 0%Z
          /\ ((300 <= t + 1)%Z
              \/ ge (of_Z (t + 1)) (300 / (1 + a * 2)) = true))).
Proof.
  cbv zeta.
  pose proof (co_ticks_inv m bufferLength k (snd (new m cv w0))) as Hinv.
  cbv zeta in Hinv. rewrite co_new_energy, co_new_data in Hinv.
  specialize (Hinv ltac:(unfold energy_inv; repeat split; auto; lia)).
  pose proof (co_render_energy m bufferLength
                (ticks m bufferLength k (snd (new m cv w0)))) as Hstep.
  cbv zeta in Hstep. rewrite co_ticks_keeps_data, co_new_data in Hstep.
  unfold energy_of in Hinv, Hstep.
  set (w := ticks m bufferLength k (snd (new m cv w0))) in *.
  destruct Hinv as (HD & Ht & Hl & Hc). rewrite HD in Hstep.
  injection Hstep as Ht' Hl' _. rewrite Ht', Hl'.
  assert (Hi : energy_inv (audioIntensity (dataArray w0) bufferLength)
                 (energyLevelTimer (this w), currentEnergyLevel (this w), 300))
    by (rewrite HD in Hc; exact (conj eq_refl (conj Ht (conj Hl Hc)))).
  destruct (step_inv _ _ _ Hi) as (_ & Hboth & Hmove).
  split; [exact Hl|]. split; [exact Hboth|].
  destruct Hmove as [Hstay|(Hnext & Hzero & Hwhy)]; [left; exact Hstay|].
  right. split; [exact Hnext|]. split; [|split; assumption].
  rewrite Hnext. unfold next_level, MAX_ENERGY_LEVEL.
  pose proof (Z.mod_pos_bound (currentEnergyLevel (this w)) 6 ltac:(lia)).
  assert ((currentEnergyLevel (this w)) mod 6
          = if (currentEnergyLevel (this w) =? 6)%Z then 0
            else currentEnergyLevel (this w))%Z.
  { destruct (Z.eqb_spec (currentEnergyLevel (this w)) 6) as [->|Hne];
      [reflexivity|]. apply Z.mod_small. lia. }
  destruct (currentEnergyLevel (this w) =? 6)%Z eqn:E6; lia.
Qed.

(** The level and the pool after [k] ticks of the constant-128 input. *)
Lemma co_scenario_128 k :
  (k <= 300)%nat ->
  let w := ticks m 1024 k (snd (new m canvas1000 world128)) in
  currentEnergyLevel (this w) = level_at k
  /\ List.length (electrons (this w)) = 50%nat.
Proof.
  intros Hk. cbv zeta. split.
  - pose proof (co_ticks_trace m 1024 k (snd (new m canvas1000 world128)))
      as Ht.
    rewrite co_new_energy, co_new_data in Ht.
    specialize (Ht ltac:(unfold new; rewrite co_constructor_run; reflexivity)).
    cbv zeta in Ht.
    assert (HD : energyLevelDuration (this (snd (new m canvas1000 world128)))
                 = 300)
      by (unfold new; rewrite co_constructor_run; reflexivity).
    rewrite HD in Ht. unfold energy_of in Ht. injection Ht as _ Hl _.
    rewrite Hl.
    assert (C : let a := audioIntensity (dataArray world128) 1024 in
                forallb (fun k =>
                  Z.eqb (snd (energy_trace 300 a k)) (level_at k))
                  (seq 0 301) = true)
      by (vm_compute; reflexivity).
    cbv zeta in C. rewrite forallb_forall in C.
    apply Z.eqb_eq, C, in_seq. lia.
  - change (pool_size (this (ticks m 1024 k (snd (new m canvas1000 world128))))
            = 50%nat).
    rewrite co_ticks_keeps_pool_size. unfold new.
    rewrite co_constructor_run. unfold pool_size. cbn [this electrons snd].
    rewrite fresh_electrons_length. vm_compute. reflexivity.
Qed.

(** C2, amended. On a 1000 x 1000 surface, 300 ticks of a 1024-length
    buffer of constant value 128 move the level twice, from 1 to 2 at tick
    150 and from 2 to 3 at tick 300, and the pool holds 50 electrons at
    every tick. *)
Theorem C2_constant_128_moves_level_at_150_and_300 :
  let w := snd (new m canvas1000 world128) in
  Forall (fun k =>
            currentEnergyLevel (this (ticks m 1024 k w)) = level_at k
            /\ List.length (electrons (this (ticks m 1024 k w))) = 50%nat)
         (seq 0 301).
Proof.
  cbv zeta. apply Forall_forall. intros k Hk. apply in_seq in Hk.
  apply co_scenario_128. lia.
Qed.

End EnergyLevelClaims.

(** C2 as stated fails, whatever the [Math] functions are: with that input
    the level is already 2 after 150 ticks. *)
Lemma C2_single_transition_at_300_refuted :
  ~ (exists m, Scenario.transitions_once_at_300 m).
Proof.
  intros [m [H150 _]]. specialize (H150 150%nat ltac:(lia)).
  destruct (co_scenario_128 m 150 ltac:(lia)) as [C150 _].
  cbv zeta in C150. rewrite H150 in C150. discriminate.
Qed.

Section DegenerateInputClaims.
Import JS Eff DOM FloatFacts.
Local Open Scope float_scope.
Variable m : MathLib.

(** C3. The claim does not hold of the code: on a zero-length buffer the
    band intensity of [KaleidoscopeRenderer] is NaN for each of the three
    bands, its [render] leaves the hue offset NaN, and the overall
    intensity of both renderers is NaN; only the band intensity of
    [ChemicalOrbitalsRenderer], which tests [count <= 0], is 0. The same
    happens on a buffer of four samples, whose bass band is empty: NaN in
    [KaleidoscopeRenderer], and in the hue offset after its [render], 0 in
    [ChemicalOrbitalsRenderer]. *)
Theorem C3_zero_length_buffer_gives_NaN
  (rk : Kaleidoscope.Renderer) (rc : ChemicalOrbitals.Renderer)
  (n : nat) (d : number) (ce : Canvas) :
  let wk := mkWorld rk [] n d ce in
  let wc := mkWorld rc [] n d ce in
  let four := repeat Byte.x80 4 in
  let wk4 := mkWorld rk four n d ce in
  let wc4 := mkWorld rc four n d ce in
  fst (Kaleidoscope.getFrequencyBandIntensity 0 0 0.15 wk) = Normal nan
  /\ fst (Kaleidoscope.getFrequencyBandIntensity 0 0.3 0.6 wk) = Normal nan
  /\ fst (Kaleidoscope.getFrequencyBandIntensity 0 0.7 1.0 wk) = Normal nan
  /\ Kaleidoscope.hueOffset (this (snd (Kaleidoscope.render m 0 wk))) = nan
  /\ KaleidoscopePure.audioIntensity [] 0 = nan
  /\ ChemicalPure.audioIntensity [] 0 = nan
  /\ fst (ChemicalOrbitals.getFrequencyBandIntensity 0 0 0.15 wc) = Normal 0
  /\ fst (Kaleidoscope.getFrequencyBandIntensity 4 0 0.15 wk4) = Normal nan
  /\ Kaleidoscope.hueOffset (this (snd (Kaleidoscope.render m 4 wk4))) = nan
  /\ fst (ChemicalOrbitals.getFrequencyBandIntensity 4 0 0.15 wc4) = Normal 0.
Proof.
  cbv zeta.
  assert (Hnan : forall x : number, x + nan * 2 = nan).
  { intros x. change (nan * 2) with nan. apply add_nan_r. }
  split; [vm_compute; reflexivity|].
  split; [vm_compute; reflexivity|].
  split; [vm_compute; reflexivity|].
  split.
  { rewrite KaleidoscopeFacts.ks_render_hueOffset. cbn [dataArray].
    assert (KaleidoscopePure.bandIntensity [] 0 0 0.15 = nan) as ->
      by (vm_compute; reflexivity).
    rewrite Hnan. vm_compute. reflexivity. }
  split; [vm_compute; reflexivity|].
  split; [vm_compute; reflexivity|].
  split; [vm_compute; reflexivity|].
  split; [vm_compute; reflexivity|].
  split; [|vm_compute; reflexivity].
  rewrite KaleidoscopeFacts.ks_render_hueOffset. cbn [dataArray].
  assert (KaleidoscopePure.bandIntensity (repeat Byte.x80 4) 4 0 0.15 = nan)
    as -> by (vm_compute; reflexivity).
  rewrite Hnan. vm_compute. reflexivity.
Qed.

End DegenerateInputClaims.

Section EmptyBandFacts.
Import JS Eff DOM EffFacts FloatFacts Pure.
Local Open Scope float_scope.
Variable m : MathLib.

(** X2. With a [bufferLength] from 1 to 6 the bass band of
    [KaleidoscopeRenderer] is empty, [floor(bufferLength * 0.15)] being 0:
    its intensity is NaN whatever the buffer holds, and so is the hue
    offset that [render] leaves. *)
Theorem X2_kaleidoscope_bass_is_NaN_below_seven_samples (w : Kaleidoscope.W) :
  Forall (fun bufferLength =>
            fst (Kaleidoscope.getFrequencyBandIntensity bufferLength 0 0.15 w)
            = Normal nan
            /\ Kaleidoscope.hueOffset
                 (this (snd (Kaleidoscope.render m bufferLength w))) = nan)
         [1; 2; 3; 4; 5; 6]%Z.
Proof.
  assert (Hnan : forall x : number, x + nan * 2 = nan).
  { intros x. change (nan * 2) with nan. apply add_nan_r. }
  assert (Hb : forall len, In len [1; 2; 3; 4; 5; 6]%Z ->
                 KaleidoscopePure.bandIntensity (dataArray w) len 0 0.15 = nan).
  { intros len Hin. cbn [In] in Hin.
    destruct Hin as [<-|[<-|[<-|[<-|[<-|[<-|[]]]]]]]; vm_compute; reflexivity. }
  apply Forall_forall. intros len Hin. split.
  - rewrite (KaleidoscopeFacts.ks_band_reads len _ _ w). cbn [fst].
    now rewrite (Hb len Hin).
  - rewrite KaleidoscopeFacts.ks_render_hueOffset, (Hb len Hin), Hnan.
    vm_compute. reflexivity.
Qed.

End EmptyBandFacts.

Section QualityClaims.
Import JS Eff DOM FloatFacts Specified.
Local Open Scope float_scope.
Variable m : MathLib.

(** C4. Both constructors and both [resize] methods assign the quality
    scale the specification words, for the area [width * height], and the
    pixel ratio [min(devicePixelRatio, 2) * qualityScale], where
    [devicePixelRatio] is [window.devicePixelRatio || 1]; a 1920 x 1080
    surface gets the scale 1 and a 3840 x 2160 surface the scale 0.25. *)
Theorem C4_quality_scale_and_pixel_ratio
  {R} (cv : Canvas) (w0 : World R) (w h : number)
  (wc : ChemicalOrbitals.W) (wk : Kaleidoscope.W) (ctx0 : option Context2D) :
  let c := this (snd (ChemicalOrbitals.new m cv w0)) in
  let k := this (snd (Kaleidoscope.new m cv w0)) in
  let c' := this (snd (ChemicalOrbitals.resize m w h wc)) in
  let k' := this (snd (Kaleidoscope.resize m w h wk)) in
  let hd := mkCanvas 1920 1080 ctx0 in
  let uhd := mkCanvas 3840 2160 ctx0 in
  (quality_as_specified (width cv * height cv) (ChemicalOrbitals.qualityScale c)
   /\ ChemicalOrbitals.pixelRatio c
      = Math_min (or_else (devicePixelRatio w0) 1) 2
        * ChemicalOrbitals.qualityScale c)
  /\ (quality_as_specified (width cv * height cv) (Kaleidoscope.qualityScale k)
      /\ Kaleidoscope.pixelRatio k
         = Math_min (or_else (devicePixelRatio w0) 1) 2
           * Kaleidoscope.qualityScale k)
  /\ (quality_as_specified (w * h) (ChemicalOrbitals.qualityScale c')
      /\ ChemicalOrbitals.pixelRatio c'
         = Math_min (or_else (devicePixelRatio wc) 1) 2
           * ChemicalOrbitals.qualityScale c')
  /\ (quality_as_specified (w * h) (Kaleidoscope.qualityScale k')
      /\ Kaleidoscope.pixelRatio k'
         = Math_min (or_else (devicePixelRatio wk) 1) 2
           * Kaleidoscope.qualityScale k')
  /\ ChemicalOrbitals.qualityScale (this (snd (ChemicalOrbitals.new m hd w0))) = 1
  /\ Kaleidoscope.qualityScale (this (snd (Kaleidoscope.new m hd w0))) = 1
  /\ ChemicalOrbitals.qualityScale (this (snd (ChemicalOrbitals.new m uhd w0)))
     = 0.25
  /\ Kaleidoscope.qualityScale (this (snd (Kaleidoscope.new m uhd w0))) = 0.25.
Proof.
  cbv zeta. unfold ChemicalOrbitals.new, Kaleidoscope.new.
  rewrite !ChemicalFacts.co_constructor_run, !KaleidoscopeFacts.ks_constructor_run,
    ChemicalFacts.co_resize_run, KaleidoscopeFacts.ks_resize_run.
  cbn [snd this with_this ChemicalOrbitals.qualityScale
       ChemicalOrbitals.pixelRatio Kaleidoscope.qualityScale
       Kaleidoscope.pixelRatio ChemicalOrbitals.allocate Kaleidoscope.allocate
       ChemicalOrbitals.canvas Kaleidoscope.canvas devicePixelRatio
       width height].
  rewrite ChemicalFacts.co_resize_quality_eq, ChemicalFacts.co_pixel_cap.
  repeat split;
    first [ apply ChemicalFacts.co_quality_as_specified
          | apply KaleidoscopeFacts.ks_quality_as_specified
          | reflexivity ].
Qed.

End QualityClaims.

Section SetupClaims.
Import JS Eff DOM EffFacts.
Local Open Scope float_scope.
Variable m : MathLib.

(** C5, amended. Construction never raises, with or without a context: a
    [null] context is stored unchecked, and so is that of the off-screen
    canvas. The failure surfaces at a [render], which raises a [TypeError]
    when a context is missing; [resize] never raises. *)
Theorem C5_missing_context_raises_at_render_not_at_construction
  {R} (cv : Canvas) (w0 : World R) (bufferLength : Z) (w h : number) :
  (bufferLength < 2 ^ 53)%Z ->
  let c := ChemicalOrbitals.new m cv w0 in
  let k := Kaleidoscope.new m cv w0 in
  fst c = Normal tt
  /\ fst k = Normal tt
  /\ ChemicalOrbitals.ctx (this (snd c)) = getContext2d cv
  /\ Kaleidoscope.ctx (this (snd k)) = getContext2d cv
  /\ Kaleidoscope.offscreenCtx (this (snd k)) = getContext2d (createElement w0)
  /\ match getContext2d cv with
     | None =>
         fst (ChemicalOrbitals.render m bufferLength (snd c)) = Throw TypeError
     | Some _ => True
     end
  /\ match getContext2d cv, getContext2d (createElement w0) with
     | Some _, Some _ => True
     | _, _ =>
         fst (Kaleidoscope.render m bufferLength (snd k)) = Throw TypeError
     end
  /\ fst (ChemicalOrbitals.resize m w h (snd c)) = Normal tt
  /\ fst (Kaleidoscope.resize m w h (snd k)) = Normal tt.
Proof.
  intros _. cbv zeta.
  assert (Hc : ChemicalOrbitals.ctx (this (snd (ChemicalOrbitals.new m cv w0)))
               = getContext2d cv)
    by (unfold ChemicalOrbitals.new;
        now rewrite ChemicalFacts.co_constructor_run).
  destruct (KaleidoscopeFacts.ks_new_contexts m cv w0) as [Hk Ho].
  split; [unfold ChemicalOrbitals.new;
          now rewrite ChemicalFacts.co_constructor_run|].
  split; [unfold Kaleidoscope.new;
          now rewrite KaleidoscopeFacts.ks_constructor_run|].
  split; [exact Hc|]. split; [exact Hk|]. split; [exact Ho|].
  split; [|split; [|split]].
  - destruct (getContext2d cv) as [log|]; [exact I|].
    now apply ChemicalFacts.co_render_null.
  - destruct (getContext2d cv) as [log|].
    + destruct (getContext2d (createElement w0)) as [log'|]; [exact I|].
      apply KaleidoscopeFacts.ks_render_null. now right.
    + apply KaleidoscopeFacts.ks_render_null. now left.
  - now rewrite ChemicalFacts.co_resize_run.
  - now rewrite KaleidoscopeFacts.ks_resize_run.
Qed.

End SetupClaims.

(** C5 as stated fails: on a canvas whose [getContext('2d')] is [null],
    both constructors complete. *)
Lemma C5_construction_without_context_completes :
  ~ Scenario.construction_raises_without_context.
Proof.
  intros H.
  destruct (H Scenario.small_angle_math (DOM.mkCanvas 300%float 150%float None)
              Scenario.world64 eq_refl) as [Hc _].
  rewrite ChemicalCycle.co_new_completes in Hc. discriminate Hc.
Qed.

Section FrameClaims.
Import JS Eff DOM EffFacts ChemicalOrbitals.
Local Open Scope float_scope.
Variable m : MathLib.

(** C9. [resize] of [ChemicalOrbitalsRenderer] leaves the energy level, its
    timer, its nominal duration and the tick counter as they are, and
    recomputes the quality scale, the centre, the maximal radius and an
    electron pool of the size of the new quality scale. *)
Theorem C9_resize_keeps_the_energy_level_state
  (w : W) (width height : number) :
  let r := this w in
  let r' := this (snd (resize m width height w)) in
  currentEnergyLevel r' = currentEnergyLevel r
  /\ energyLevelTimer r' = energyLevelTimer r
  /\ energyLevelDuration r' = energyLevelDuration r
  /\ time r' = time r
  /\ qualityScale r' = ChemicalPure.resize_quality (width * height)
  /\ centerX r' = width * 0.5
  /\ centerY r' = height * 0.5
  /\ maxRadius r' = Math_min width height * 0.4
  /\ List.length (electrons r') = ChemicalPure.electronCount (qualityScale r').
Proof.
  cbv zeta. rewrite ChemicalFacts.co_resize_run.
  cbn [snd this currentEnergyLevel energyLevelTimer energyLevelDuration time
       qualityScale centerX centerY maxRadius electrons].
  rewrite ChemicalFacts.fresh_electrons_length.
  repeat split; reflexivity.
Qed.

(** C10. Neither [render] writes to the frequency buffer: after the call,
    whether it completed or raised, the buffer holds what it held. *)
Theorem C10_render_leaves_the_buffer_unchanged
  (bufferLength : Z) (wc : ChemicalOrbitals.W) (wk : Kaleidoscope.W) :
  dataArray (snd (ChemicalOrbitals.render m bufferLength wc)) = dataArray wc
  /\ dataArray (snd (Kaleidoscope.render m bufferLength wk)) = dataArray wk.
Proof.
  split.
  - apply (ChemicalFacts.co_render_keeps_data m bufferLength).
  - apply (KaleidoscopeFacts.ks_render_keeps_data m bufferLength).
Qed.

End FrameClaims.

Section ResizeClaims.
Import JS Eff DOM EffFacts FloatFacts.
Local Open Scope float_scope.
Variable m : MathLib.

(** [resize] leaves the context of [ChemicalOrbitalsRenderer] as it is. *)
Lemma co_resize_keeps_ctx width height (w : ChemicalOrbitals.W) :
  ChemicalOrbitals.ctx (this (snd (ChemicalOrbitals.resize m width height w)))
  = ChemicalOrbitals.ctx (this w).
Proof. rewrite ChemicalFacts.co_resize_run. reflexivity. Qed.

(** C7, amended. A second [resize] to the same size assigns the same
    quality scale, pixel ratio, centre, maximal radius and pool size as
    the first; after a [resize], as after construction, the pool holds
    [floor(50 * qualityScale)] electrons, [floor(100 * qualityScale)]
    particles. [resize] never raises and leaves the contexts as they
    are: on a renderer without a context the [render] that follows it
    raises a [TypeError]. *)
Theorem C7_resize_is_idempotent_and_sizes_the_pool
  (width height : number) (bufferLength : Z)
  (wc : ChemicalOrbitals.W) (wk : Kaleidoscope.W)
  {R} (cv : Canvas) (w0 : World R) :
  (bufferLength < 2 ^ 53)%Z ->
  let c1 := snd (ChemicalOrbitals.resize m width height wc) in
  let c2 := snd (ChemicalOrbitals.resize m width height c1) in
  let k1 := snd (Kaleidoscope.resize m width height wk) in
  let k2 := snd (Kaleidoscope.resize m width height k1) in
  let c0 := snd (ChemicalOrbitals.new m cv w0) in
  let k0 := snd (Kaleidoscope.new m cv w0) in
  let summary_c (w : ChemicalOrbitals.W) :=
    (ChemicalOrbitals.qualityScale (this w), ChemicalOrbitals.pixelRatio (this w),
     ChemicalOrbitals.centerX (this w), ChemicalOrbitals.centerY (this w),
     ChemicalOrbitals.maxRadius (this w),
     List.length (ChemicalOrbitals.electrons (this w))) in
  let summary_k (w : Kaleidoscope.W) :=
    (Kaleidoscope.qualityScale (this w), Kaleidoscope.pixelRatio (this w),
     Kaleidoscope.centerX (this w), Kaleidoscope.centerY (this w),
     Kaleidoscope.maxRadius (this w),
     List.length (Kaleidoscope.particles (this w))) in
  let pool_c (w : ChemicalOrbitals.W) :=
    Z.of_nat (List.length (ChemicalOrbitals.electrons (this w)))
    = floor_int (50 * ChemicalOrbitals.qualityScale (this w)) in
  let pool_k (w : Kaleidoscope.W) :=
    Z.of_nat (List.length (Kaleidoscope.particles (this w)))
    = floor_int (100 * Kaleidoscope.qualityScale (this w)) in
  summary_c c2 = summary_c c1
  /\ summary_k k2 = summary_k k1
  /\ pool_c c1 /\ pool_c c0 /\ pool_k k1 /\ pool_k k0
  /\ fst (ChemicalOrbitals.resize m width height wc) = Normal tt
  /\ fst (Kaleidoscope.resize m width height wk) = Normal tt
  /\ ChemicalOrbitals.ctx (this c1) = ChemicalOrbitals.ctx (this wc)
  /\ Kaleidoscope.ctx (this k1) = Kaleidoscope.ctx (this wk)
  /\ Kaleidoscope.offscreenCtx (this k1) = Kaleidoscope.offscreenCtx (this wk)
  /\ match ChemicalOrbitals.ctx (this wc) with
     | None => fst (ChemicalOrbitals.render m bufferLength c1) = Throw TypeError
     | Some _ => True
     end
  /\ match Kaleidoscope.ctx (this wk), Kaleidoscope.offscreenCtx (this wk) with
     | Some _, Some _ => True
     | _, _ => fst (Kaleidoscope.render m bufferLength k1) = Throw TypeError
     end.
Proof.
  intros _. cbv zeta.
  unfold ChemicalOrbitals.new, Kaleidoscope.new.
  assert (Ec := ChemicalFacts.co_resize_run m width height wc).
  assert (Ek := KaleidoscopeFacts.ks_resize_run m width height wk).
  cbv zeta in Ec, Ek.
  split; [|split].
  - rewrite (ChemicalFacts.co_resize_run m width height (snd _)), Ec.
    cbn [snd this ChemicalOrbitals.qualityScale ChemicalOrbitals.pixelRatio
         ChemicalOrbitals.centerX ChemicalOrbitals.centerY
         ChemicalOrbitals.maxRadius ChemicalOrbitals.electrons
         devicePixelRatio].
    now rewrite !ChemicalFacts.fresh_electrons_length.
  - rewrite (KaleidoscopeFacts.ks_resize_run m width height (snd _)), Ek.
    cbn [snd this Kaleidoscope.qualityScale Kaleidoscope.pixelRatio
         Kaleidoscope.centerX Kaleidoscope.centerY
         Kaleidoscope.maxRadius Kaleidoscope.particles devicePixelRatio].
    now rewrite !KaleidoscopeFacts.fresh_particles_length.
  - split; [|split; [|split; [|split]]].
    + rewrite Ec. cbn [snd this ChemicalOrbitals.electrons
                        ChemicalOrbitals.qualityScale].
      rewrite ChemicalFacts.fresh_electrons_length.
      apply ChemicalFacts.co_electronCount_floor.
      rewrite ChemicalFacts.co_resize_quality_eq.
      apply ChemicalFacts.co_constructor_quality_nonneg.
    + rewrite ChemicalFacts.co_constructor_run.
      cbn [snd this ChemicalOrbitals.electrons ChemicalOrbitals.qualityScale].
      rewrite ChemicalFacts.fresh_electrons_length.
      apply ChemicalFacts.co_electronCount_floor,
        ChemicalFacts.co_constructor_quality_nonneg.
    + rewrite Ek. cbn [snd this Kaleidoscope.particles
                        Kaleidoscope.qualityScale].
      rewrite KaleidoscopeFacts.fresh_particles_length.
      apply KaleidoscopeFacts.ks_particleCount_floor,
        KaleidoscopeFacts.ks_quality_nonneg.
    + rewrite KaleidoscopeFacts.ks_constructor_run.
      cbn [snd this with_this Kaleidoscope.particles Kaleidoscope.qualityScale
           Kaleidoscope.allocate app].
      rewrite KaleidoscopeFacts.fresh_particles_length.
      apply KaleidoscopeFacts.ks_particleCount_floor,
        KaleidoscopeFacts.ks_quality_nonneg.
    + assert (Hc : ChemicalOrbitals.ctx
                     (this (snd (ChemicalOrbitals.resize m width height wc)))
                   = ChemicalOrbitals.ctx (this wc))
        by (rewrite Ec; reflexivity).
      assert (Hk : Kaleidoscope.ctx
                     (this (snd (Kaleidoscope.resize m width height wk)))
                   = Kaleidoscope.ctx (this wk))
        by (rewrite Ek; reflexivity).
      assert (Ho : Kaleidoscope.offscreenCtx
                     (this (snd (Kaleidoscope.resize m width height wk)))
                   = Kaleidoscope.offscreenCtx (this wk))
        by (rewrite Ek; reflexivity).
      split; [now rewrite Ec|]. split; [now rewrite Ek|].
      split; [exact Hc|]. split; [exact Hk|]. split; [exact Ho|].
      split.
      * destruct (ChemicalOrbitals.ctx (this wc)) as [log|] eqn:E; [exact I|].
        apply ChemicalFacts.co_render_null. exact Hc.
      * destruct (Kaleidoscope.ctx (this wk)) as [log|] eqn:E.
        -- destruct (Kaleidoscope.offscreenCtx (this wk)) as [log'|] eqn:E';
             [exact I|].
           apply KaleidoscopeFacts.ks_render_null. right. exact Ho.
        -- apply KaleidoscopeFacts.ks_render_null. left. exact Hk.
Qed.

End ResizeClaims.

(** C7 as stated fails: on a renderer built on a canvas whose
    [getContext('2d')] is [null], the [render] that follows a [resize]
    raises. *)
Lemma C7_render_after_resize_raises_without_context :
  ~ Scenario.render_after_resize_never_raises.
Proof.
  intros H.
  destruct (H Scenario.small_angle_math (DOM.mkCanvas 300%float 150%float None)
              Scenario.world64 800%float 600%float 64%Z) as [Hc _].
  unfold Eff.completes in Hc.
  rewrite ChemicalFacts.co_render_null in Hc; [discriminate Hc|].
  rewrite co_resize_keeps_ctx. apply ChemicalCycle.co_new_ctx.
Qed.

(** ** The theorems with hypotheses, applied *)

Lemma C5_missing_context_witness :
  let m := Scenario.small_angle_math in
  let cv := DOM.mkCanvas 300%float 150%float None in
  (64 < 2 ^ 53)%Z
  /\ fst (ChemicalOrbitals.render m 64
            (snd (ChemicalOrbitals.new m cv Scenario.world64)))
     = Eff.Throw Eff.TypeError.
Proof.
  cbv zeta. split; [reflexivity|].
  destruct (C5_missing_context_raises_at_render_not_at_construction
              Scenario.small_angle_math (DOM.mkCanvas 300%float 150%float None)
              Scenario.world64 64 800%float 600%float eq_refl)
    as (_ & _ & _ & _ & _ & H & _).
  exact H.
Defined.

Lemma C7_resize_witness :
  let m := Scenario.small_angle_math in
  let wc := snd (ChemicalOrbitals.new m (DOM.mkCanvas 300%float 150%float None)
                   Scenario.world64) in
  (64 < 2 ^ 53)%Z
  /\ fst (ChemicalOrbitals.resize m 800%float 600%float wc) = Eff.Normal tt
  /\ Z.of_nat (List.length
                 (ChemicalOrbitals.electrons
                    (DOM.this
                       (snd (ChemicalOrbitals.resize m 800%float 600%float
                               wc)))))
     = JS.floor_int
         (50 * ChemicalOrbitals.qualityScale
                 (DOM.this
                    (snd (ChemicalOrbitals.resize m 800%float 600%float wc))))%float.
Proof.
  cbv zeta. split; [reflexivity|].
  destruct (C7_resize_is_idempotent_and_sizes_the_pool
              Scenario.small_angle_math 800%float 600%float 64
              (snd (ChemicalOrbitals.new Scenario.small_angle_math
                      (DOM.mkCanvas 300%float 150%float None)
                      Scenario.world64))
              (snd (Kaleidoscope.new Scenario.small_angle_math
                      Scenario.canvas200 Scenario.world64))
              Scenario.canvas200 Scenario.world64 eq_refl)
    as (_ & _ & Hp & _ & _ & _ & Hr & _).
  split; [exact Hr|exact Hp].
Defined.

(* ================================================================== *)
(** * One [render] of [ChemicalOrbitalsRenderer], run to its end *)
(* ================================================================== *)

Module ChemicalFrameFacts.
Import JS Eff DOM EffFacts FloatFacts Pure ReadFacts ChemicalOrbitals
  ChemicalPure ChemicalFacts ChemicalFrame Calls.
Local Open Scope float_scope.

Section WithMath.
Variable m : MathLib.

Lemma co_bind_draw {B} name a (k : unit -> M (World Renderer) B) w :
  bind (draw name a) k w
  = match ctx (this w) with
    | None => (Throw TypeError, w)
    | Some log =>
        k tt (with_this (set_ctx (Some (log ++ [mkDraw name a])) (this w)) w)
    end.
Proof.
  unfold draw, bind, field, gets. destruct (ctx (this w)); reflexivity.
Qed.

Ltac co_fields :=
  unfold set_ctx, set_time, set_energyLevelTimer, set_currentEnergyLevel,
    set_electrons, with_this;
  cbn [this ctx canvas time centerX centerY maxRadius pixelRatio qualityScale
       currentEnergyLevel energyLevelTimer energyLevelDuration electrons
       dataArray draws devicePixelRatio createElement].

Ltac co_draws :=
  repeat first
    [ rewrite bind_assoc
    | rewrite bind_field
    | rewrite bind_update
    | rewrite (bind_reads _ _ _ _ (for_each_ret _ _))
    | rewrite co_bind_draw
    | progress co_fields ].

(** The two threshold tests, run on the incremented counters. *)
Lemma co_checks_run {B} a (k : M (World Renderer) B) r d n dpr ce :
  (r <- gets this ;;
   when (ge (of_Z (energyLevelTimer r)) (energyLevelDuration r))
     (update (set_energyLevelTimer 0%Z) ;;
      update (fun r =>
        set_currentEnergyLevel
          (currentEnergyLevel r mod MAX_ENERGY_LEVEL + 1)%Z r)) ;;
   r <- gets this ;;
   when (ge (of_Z (energyLevelTimer r))
            (energyLevelDuration r / (1 + a * 2)))
     (update (set_energyLevelTimer 0%Z) ;;
      update (fun r =>
        set_currentEnergyLevel
          (currentEnergyLevel r mod MAX_ENERGY_LEVEL + 1)%Z r)) ;;
   k)
    (mkWorld (set_energyLevelTimer (energyLevelTimer r + 1)%Z
                (set_time (time r + 1)%Z r)) d n dpr ce)
  = k (mkWorld (counted a r) d n dpr ce).
Proof.
  destruct r as [cv c t cx cy mr pr qs l tm D es].
  unfold counted, timer_after, level_after, second_check, timer_between,
    first_check, next_level.
  rewrite bind_gets, bind_when. co_fields.
  destruct (ge (of_Z (tm + 1)) D).
  - rewrite bind_assoc, !bind_update, bind_gets, bind_when. co_fields.
    destruct (ge (of_Z 0) _).
    + rewrite bind_assoc, !bind_update. reflexivity.
    + reflexivity.
  - rewrite bind_gets, bind_when. co_fields.
    destruct (ge (of_Z (tm + 1)) _).
    + rewrite bind_assoc, !bind_update. reflexivity.
    + reflexivity.
Qed.

(** The drawing half of [render]. *)
Definition painting (a b mid treble : number) : M (World Renderer) unit :=
  cv <- field canvas ;;
  draw "fillRect" [0; 0; width cv; height cv] ;;
  drawEnergyLevelLabel a ;;
  n <- field currentEnergyLevel ;;
  drawOrbitals n a b mid treble ;;
  drawNucleus a b ;;
  updateElectrons m a b ;;
  n <- field currentEnergyLevel ;;
  drawElectrons n a treble.

(** [render] up to its first drawing call. *)
Lemma co_render_counted len w :
  let d := dataArray w in
  render m len w
  = painting (audioIntensity d len) (bandIntensity d len 0 0.15)
      (bandIntensity d len 0.3 0.6) (bandIntensity d len 0.7 1.0)
      (with_this (counted (audioIntensity d len) (this w)) w).
Proof.
  destruct w as [r d k dpr ce]. cbn [this dataArray]. cbv zeta.
  unfold render.
  rewrite !bind_update.
  rewrite (bind_reads _ _ _ _ (sum_range_reads _ _)).
  rewrite !(bind_reads _ _ _ _ (co_band_reads _ _ _)).
  cbn [with_this this dataArray draws devicePixelRatio createElement].
  exact (co_checks_run (audioIntensity d len)
           (painting (audioIntensity d len) (bandIntensity d len 0 0.15)
              (bandIntensity d len 0.3 0.6) (bandIntensity d len 0.7 1.0))
           r d k dpr ce).
Qed.

(** With a context, [render] completes and leaves [rendered]. *)
Lemma co_render_run len log w :
  ctx (this w) = Some log ->
  render m len w
  = (Normal tt, with_this (rendered m (dataArray w) len log (this w)) w).
Proof.
  intros Hc. rewrite co_render_counted. cbv zeta.
  destruct w as [[cv c t cx cy mr pr qs l tm D es] d k dpr ce].
  cbn [this ctx dataArray] in *. subst c.
  unfold painting, rendered, counted, recorded, orbiting.
  generalize (timer_after D (audioIntensity d len) tm)
             (level_after D (audioIntensity d len) tm l).
  intros tm' l'.
  unfold drawEnergyLevelLabel, drawOrbitals, drawNucleus, drawElectrons,
    updateElectrons, W.
  co_draws.
  erewrite co_draw_some by (co_fields; reflexivity).
  co_fields. rewrite <- !app_assoc. reflexivity.
Qed.

(** Without one, it raises at the fade, after the counters and the tests. *)
Lemma co_render_run_null len w :
  ctx (this w) = None ->
  render m len w
  = (Throw TypeError,
     with_this (counted (audioIntensity (dataArray w) len) (this w)) w).
Proof.
  intros Hc. rewrite co_render_counted. cbv zeta. unfold painting.
  rewrite bind_field, co_bind_draw.
  unfold counted. cbn [this with_this ctx]. now rewrite Hc.
Qed.

End WithMath.
End ChemicalFrameFacts.

(* ================================================================== *)
(** * One [render] of [KaleidoscopeRenderer], run to its end *)
(* ================================================================== *)

Module KaleidoscopeFrameFacts.
Import JS Eff DOM EffFacts FloatFacts Pure ReadFacts Kaleidoscope
  KaleidoscopePure KaleidoscopeFacts KaleidoscopeFrame Calls.
Local Open Scope float_scope.

Section WithMath.
Variable m : MathLib.

Ltac ks_fields :=
  unfold set_canvas, set_ctx, set_offscreenCanvas, set_offscreenCtx,
    set_segments, set_particles, set_time, set_hueOffset, with_this;
  cbn [this canvas ctx offscreenCanvas offscreenCtx segments particles time
       hueOffset centerX centerY maxRadius pixelRatio qualityScale
       dataArray draws devicePixelRatio createElement].

(** The mirroring loop on a context. *)
Lemma ks_mirror_loop sa cx cy n : forall i cv log oc oct sg ps t h cx' cy' mr
                                     pr qs d k dpr ce,
  loop n i (fun i _ =>
    draw "drawImage"
      [sa * of_Z i; if (i mod 2 =? 1)%Z then -1 else 1; - cx; - cy]) tt
    (mkWorld (mkRenderer cv (Some log) oc oct sg ps t h cx' cy' mr pr qs)
             d k dpr ce)
  = (Normal tt,
     mkWorld (mkRenderer cv (Some (log ++ mirrored sa cx cy n i)) oc oct sg
                         ps t h cx' cy' mr pr qs) d k dpr ce).
Proof.
  induction n as [|n IH]; intros; cbn [loop mirrored].
  - now rewrite app_nil_r.
  - rewrite ks_bind_draw. ks_fields. rewrite IH, <- app_assoc. reflexivity.
Qed.

(** [forEach] over the pool. *)
Lemma ks_for_each_run sa a b ps : forall w,
  for_each ps (updateParticle m sa a b) w
  = (Normal (fst (stepped m sa a b (maxRadius (this w)) ps (draws w))),
     mkWorld (this w) (dataArray w)
             (snd (stepped m sa a b (maxRadius (this w)) ps (draws w)))
             (devicePixelRatio w) (createElement w)).
Proof.
  induction ps as [|p ps IH]; intros w; cbn [for_each stepped].
  - destruct w. reflexivity.
  - unfold bind at 1. rewrite ks_updateParticle_run.
    destruct (respawns a b (maxRadius (this w)) p).
    + unfold bind at 1. rewrite IH. cbn [this draws].
      destruct (stepped m sa a b (maxRadius (this w)) ps (draws w + 6)).
      reflexivity.
    + unfold bind at 1. rewrite IH.
      destruct (stepped m sa a b (maxRadius (this w)) ps (draws w)).
      reflexivity.
Qed.

Ltac ks_draws :=
  repeat first
    [ rewrite bind_assoc
    | rewrite bind_field
    | rewrite bind_update
    | rewrite ks_bind_draw
    | rewrite ks_bind_draw_offscreen
    | progress ks_fields ].

Ltac ks_start :=
  unfold render;
  rewrite bind_update, bind_gets;
  rewrite (bind_reads _ _ _ _ (sum_range_reads _ _));
  rewrite (bind_reads _ _ _ _ (ks_band_reads _ _ _));
  rewrite bind_update;
  rewrite !(bind_reads _ _ _ _ (ks_band_reads _ _ _));
  unfold rendered, retargeted, offscreen_recorded, targetSegments,
    audioIntensity;
  unfold drawSegment, updateParticles, W;
  ks_fields;
  rewrite !bind_field, ks_bind_draw; ks_fields.

Ltac ks_finish :=
  ks_draws;
  erewrite bind_normal by apply ks_mirror_loop;
  ks_draws; erewrite bind_normal by apply ks_for_each_run;
  ks_fields; rewrite <- !app_assoc; reflexivity.

(** With both contexts, [render] completes and leaves [rendered]. *)
Lemma ks_render_run len log olog w :
  ctx (this w) = Some log -> offscreenCtx (this w) = Some olog ->
  let d := dataArray w in
  let b := bandIntensity d len 0 0.15 in
  render m len w
  = (Normal tt,
     mkWorld (rendered m d len log olog (draws w) (this w)) d
             (snd (stepped m
                     (Math_PI * 2
                      / retargeted b (time (this w) + 1) (segments (this w)))
                     (audioIntensity d len) b
                     (maxRadius (this w)) (particles (this w)) (draws w)))
             (devicePixelRatio w) (createElement w)).
Proof.
  destruct w as [[cv c oc oct sg ps t h cx cy mr pr qs] d k dpr ce].
  cbn [this ctx offscreenCtx dataArray draws]. intros -> ->. cbv zeta.
  ks_start.
  rewrite bind_gets, bind_when. ks_fields.
  destruct (gt _ _ && _); ks_finish.
Qed.

(** Without the main context it raises at the fade: the tick counter and
    the hue offset have moved. *)
Lemma ks_render_run_null len w :
  ctx (this w) = None ->
  render m len w
  = (Throw TypeError,
     with_this
       (set_hueOffset
          (rem (hueOffset (this w) + 0.5
                + bandIntensity (dataArray w) len 0 0.15 * 2) 360)
          (set_time (time (this w) + 1)%Z (this w))) w).
Proof.
  destruct w as [[cv c oc oct sg ps t h cx cy mr pr qs] d k dpr ce].
  cbn [this ctx offscreenCtx dataArray draws]. intros ->.
  ks_start. reflexivity.
Qed.

(** Without the off-screen context it raises at the clearing of the
    off-screen canvas: the fade is recorded and the segment count
    retargeted. *)
Lemma ks_render_run_offscreen_null len log w :
  ctx (this w) = Some log -> offscreenCtx (this w) = None ->
  let r := this w in
  let b := bandIntensity (dataArray w) len 0 0.15 in
  render m len w
  = (Throw TypeError,
     with_this
       {| canvas := canvas r;
          ctx := Some (log ++ [mkDraw "fillRect"
                                 [0.05 * (1 + (1 - qualityScale r) * 0.5);
                                  0; 0; width (canvas r); height (canvas r)]]);
          offscreenCanvas := offscreenCanvas r;
          offscreenCtx := None;
          segments := retargeted b (time r + 1) (segments r);
          particles := particles r;
          time := (time r + 1)%Z;
          hueOffset := rem (hueOffset r + 0.5 + b * 2) 360;
          centerX := centerX r; centerY := centerY r;
          maxRadius := maxRadius r;
          pixelRatio := pixelRatio r; qualityScale := qualityScale r |} w).
Proof.
  destruct w as [[cv c oc oct sg ps t h cx cy mr pr qs] d k dpr ce].
  cbn [this ctx offscreenCtx dataArray draws]. intros -> ->. cbv zeta.
  ks_start.
  rewrite bind_gets, bind_when. ks_fields.
  destruct (gt _ _ && _); ks_draws; reflexivity.
Qed.

End WithMath.
End KaleidoscopeFrameFacts.

(* ================================================================== *)
(** * Signs of sums and differences *)
(* ================================================================== *)

Module SignFacts.
Import JS FloatFacts.
Local Open Scope float_scope.

Lemma binary_round_not_nan sx mx ex :
  binary_round prec emax sx mx ex <> S754_nan.
Proof.
  unfold binary_round.
  destruct (shl_align mx ex _) as [mz ez].
  apply binary_round_aux_not_nan. lia.
Qed.

Lemma binary_normalize_not_nan mz ez sz :
  binary_normalize prec emax mz ez sz <> S754_nan.
Proof.
  destruct mz; cbn [binary_normalize];
    [discriminate|apply binary_round_not_nan..].
Qed.

(** A difference of two numbers, the second one finite, is NaN only if the
    first is. *)
Lemma sub_finite_not_nan x c s mc ec :
  Prim2SF c = S754_finite s mc ec ->
  is_nan x = false -> is_nan (x - c) = false.
Proof.
  intros Hc Hx. destruct (is_nan (x - c)) eqn:E; [|reflexivity].
  apply is_nan_spec in E. rewrite sub_spec, Hc in E.
  destruct (Prim2SF x) as [sx|sx| |sx mx ex] eqn:Ex; cbn in E;
    try discriminate.
  - assert (is_nan x = true) by now apply is_nan_spec. congruence.
  - exfalso. revert E. apply binary_normalize_not_nan.
Qed.

(** A number that is not NaN and not at most 0 is above 0. *)
Lemma not_le_zero_gt x :
  is_nan x = false -> le x 0 = false -> gt x 0 = true.
Proof.
  unfold le, gt. rewrite FloatAxioms.leb_spec, FloatAxioms.ltb_spec.
  change (Prim2SF 0) with (S754_zero false). intros Hn.
  unfold SFleb, SFltb.
  destruct (Prim2SF x) as [s|s| |s mx ex] eqn:Ex; cbn;
    try (destruct s; cbn; congruence).
  assert (is_nan x = true) by now apply is_nan_spec. congruence.
Qed.

End SignFacts.

(* ================================================================== *)
(** * The energy state of [ChemicalOrbitalsRenderer] over any calls *)
(* ================================================================== *)

Module EnergyFacts.
Import JS Eff DOM EffFacts FloatFacts Pure ReadFacts ChemicalOrbitals
  ChemicalPure ChemicalFacts ChemicalFrame ChemicalFrameFacts ChemicalCycle
  Calls.
Local Open Scope float_scope.

Lemma next_level_range l : (1 <= next_level l <= 6)%Z.
Proof.
  unfold next_level, MAX_ENERGY_LEVEL.
  pose proof (Z.mod_pos_bound l 6 ltac:(lia)). lia.
Qed.

(** One tick on the timer and the level, whatever the intensity. *)
Lemma range_step a t l :
  (0 <= t <= 299)%Z -> (1 <= l <= 6)%Z ->
  (0 <= timer_after 300%float a t <= 299)%Z
  /\ (1 <= level_after 300%float a t l <= 6)%Z
  /\ ((level_after 300%float a t l = l
       /\ timer_after 300%float a t = (t + 1)%Z)
      \/ (timer_after 300%float a t = 0%Z
          /\ (level_after 300%float a t l = next_level l
              \/ level_after 300%float a t l = next_level (next_level l)))).
Proof.
  intros Ht Hl.
  pose proof (next_level_range l).
  pose proof (next_level_range (next_level l)).
  unfold timer_after, level_after, second_check, timer_between.
  rewrite (first_check_small t Ht).
  destruct (t =? 299)%Z eqn:E;
    [apply Z.eqb_eq in E|apply Z.eqb_neq in E];
    destruct (ge _ _); repeat split; auto; try lia.
Qed.

Section WithMath.
Variable m : MathLib.

(** What one [render] leaves alone, and what it does to the counters,
    with or without a context. *)
Lemma co_render_shape len w :
  let r := this w in
  let r' := this (snd (render m len w)) in
  let a := audioIntensity (dataArray w) len in
  time r' = (time r + 1)%Z
  /\ energy_of r'
     = (timer_after (energyLevelDuration r) a (energyLevelTimer r),
        level_after (energyLevelDuration r) a (energyLevelTimer r)
          (currentEnergyLevel r),
        energyLevelDuration r)
  /\ qualityScale r' = qualityScale r
  /\ List.length (electrons r') = List.length (electrons r)
  /\ (ctx r' = None <-> ctx r = None).
Proof.
  cbv zeta. destruct (ctx (this w)) as [log|] eqn:E.
  - rewrite (co_render_run m len log w E).
    unfold rendered, counted, orbiting, energy_of.
    cbn [snd with_this this set_ctx set_electrons time ctx qualityScale
         electrons currentEnergyLevel energyLevelTimer energyLevelDuration].
    rewrite length_map. repeat split; try reflexivity; discriminate.
  - rewrite (co_render_run_null m len w E).
    unfold counted, energy_of.
    cbn [snd with_this this time ctx qualityScale electrons
         currentEnergyLevel energyLevelTimer energyLevelDuration].
    rewrite E. repeat split; reflexivity.
Qed.

Lemma co_render_in_range len w :
  in_range (this w) -> in_range (this (snd (render m len w))).
Proof.
  intros (HD & Ht & Hl & Hp).
  destruct (co_render_shape len w) as (_ & He & Hq & Hn & _).
  cbv zeta in He. unfold energy_of in He. injection He as H1 H2 H3.
  unfold in_range. rewrite H1, H2, H3, HD, Hq, Hn.
  destruct (range_step (audioIntensity (dataArray w) len) _ _ Ht Hl)
    as (? & ? & _).
  auto.
Qed.

Lemma co_resize_in_range wd ht w :
  in_range (this w) -> in_range (this (snd (resize m wd ht w))).
Proof.
  intros (HD & Ht & Hl & Hp). rewrite co_resize_run. unfold in_range.
  cbn [snd this energyLevelDuration energyLevelTimer currentEnergyLevel
       electrons qualityScale].
  rewrite fresh_electrons_length. auto.
Qed.

Lemma co_run_in_range calls : forall w,
  in_range (this w) -> in_range (this (run m calls w)).
Proof.
  induction calls as [|[d len|wd ht] calls IH]; intros w H; cbn [run]; auto.
  - apply IH. now apply co_render_in_range.
  - apply IH. now apply co_resize_in_range.
Qed.

Lemma co_run_time calls : forall w,
  time (this (run m calls w))
  = (time (this w) + Z.of_nat (renders_in calls))%Z.
Proof.
  induction calls as [|[d len|wd ht] calls IH]; intros w;
    cbn [run renders_in].
  - lia.
  - rewrite IH. destruct (co_render_shape len (with_data d w)) as (-> & _).
    cbn [with_data this]. lia.
  - rewrite IH, co_resize_run. reflexivity.
Qed.

Lemma co_new_in_range {R} cv (w0 : World R) :
  in_range (this (snd (new m cv w0))) /\ time (this (snd (new m cv w0))) = 0%Z.
Proof.
  unfold new, in_range. rewrite co_constructor_run.
  cbn [snd this with_this allocate energyLevelDuration energyLevelTimer
       currentEnergyLevel electrons qualityScale time].
  rewrite fresh_electrons_length. repeat split; lia.
Qed.

(** The counters and the level do not depend on the context. *)
Lemma co_run_energy_eq calls : forall w1 w2,
  energy_of (this w1) = energy_of (this w2) ->
  time (this w1) = time (this w2) ->
  energy_of (this (run m calls w1)) = energy_of (this (run m calls w2))
  /\ time (this (run m calls w1)) = time (this (run m calls w2)).
Proof.
  induction calls as [|[d len|wd ht] calls IH]; intros w1 w2 He Ht;
    cbn [run]; auto.
  - apply IH.
    + rewrite !co_render_energy. cbn [with_data this dataArray].
      unfold energy_of in He. injection He as -> -> ->. reflexivity.
    + destruct (co_render_shape len (with_data d w1)) as (-> & _).
      destruct (co_render_shape len (with_data d w2)) as (-> & _).
      cbn [with_data this]. now rewrite Ht.
  - apply IH; rewrite !co_resize_run; cbn [snd this]; assumption.
Qed.

(** Without a context no call moves the electrons of a pool that the
    calls do not resize. *)
Lemma co_run_null calls : forall w,
  ctx (this w) = None ->
  ctx (this (run m calls w)) = None.
Proof.
  induction calls as [|[d len|wd ht] calls IH]; intros w H; cbn [run]; auto.
  - apply IH. destruct (co_render_shape len (with_data d w)) as (_&_&_&_&Hc).
    now apply Hc.
  - apply IH. rewrite co_resize_run. exact H.
Qed.

End WithMath.
End EnergyFacts.

(* ================================================================== *)
(** * Silent buffers *)
(* ================================================================== *)

Module SilenceFacts.
Import JS Eff DOM EffFacts FloatFacts Pure ReadFacts ChemicalOrbitals
  ChemicalPure ChemicalFacts ChemicalFrame ChemicalFrameFacts ChemicalCycle
  EnergyFacts Calls.
Local Open Scope float_scope.

(** A number that is NaN or a zero. *)
Definition zero_or_nan (x : number) : Prop :=
  match Prim2SF x with
  | S754_zero _ | S754_nan => True
  | _ => False
  end.

Lemma silent_byte_at d i : silent d -> byte_at d i = 0.
Proof.
  intros H. unfold byte_at. destruct (i <? 0)%Z; [reflexivity|].
  destruct (nth_error d (Z.to_nat i)) as [b|] eqn:E; [|reflexivity].
  apply nth_error_In in E. unfold silent in H. rewrite Forall_forall in H.
  now rewrite (H b E).
Qed.

Lemma silent_sum_loop d n : forall i, silent d -> sum_loop d n i 0 = 0.
Proof.
  induction n as [|n IH]; intros i H; cbn [sum_loop]; [reflexivity|].
  rewrite (silent_byte_at d i H). change (0 + 0) with 0. now apply IH.
Qed.

(** The overall intensity of a silent buffer: 0 for a positive length, -0
    for a negative one, NaN for the length 0. *)
Lemma silent_intensity d len :
  silent d -> zero_or_nan (audioIntensity d len).
Proof.
  intros H. unfold audioIntensity, sum_range, zero_or_nan.
  rewrite (silent_sum_loop d _ _ H).
  rewrite mul_spec, div_spec.
  change (Prim2SF 0) with (S754_zero false).
  change (Prim2SF INV_255) with (Prim2SF (1 / 255)).
  destruct (Prim2SF (of_Z len)) as [s|s| |s mx ex]; cbn;
    try (destruct s; exact I); exact I.
Qed.

(** The audio-adjusted test never succeeds at such an intensity. *)
Lemma second_check_silent a t :
  zero_or_nan a -> (0 <= t <= 299)%Z -> second_check 300 a t = false.
Proof.
  intros Ha Ht. unfold second_check, timer_between.
  rewrite (first_check_small t Ht).
  assert (Hs : 300 / (1 + a * 2) = 300 \/ 300 / (1 + a * 2) = nan).
  { unfold zero_or_nan in Ha.
    destruct (Prim2SF a) as [s| | |] eqn:E; try contradiction.
    - left. assert (1 + a * 2 = 1) as ->; [|reflexivity].
      apply Prim2SF_inj. rewrite add_spec, mul_spec, E.
      destruct s; reflexivity.
    - right. apply Prim2SF_inj. rewrite div_spec, add_spec, mul_spec, E.
      reflexivity. }
  destruct Hs as [-> | ->].
  - destruct (t =? 299)%Z eqn:E; [reflexivity|].
    change (first_check 300 t = false).
    now rewrite (first_check_small t Ht).
  - unfold ge. rewrite FloatAxioms.leb_spec.
    change (Prim2SF nan) with S754_nan. reflexivity.
Qed.

(** One silent tick: the nominal test alone decides. *)
Lemma silent_step a t l :
  zero_or_nan a -> (0 <= t <= 299)%Z ->
  timer_after 300 a t = (if (t =? 299)%Z then 0 else t + 1)%Z
  /\ level_after 300 a t l = (if (t =? 299)%Z then next_level l else l).
Proof.
  intros Ha Ht. unfold timer_after, level_after.
  rewrite (second_check_silent a t Ha Ht). unfold timer_between.
  now rewrite (first_check_small t Ht).
Qed.

Lemma silent_state_step k :
  (0 <= k)%Z ->
  let '(t, l) := silent_state k in
  silent_state (k + 1)
  = ((if (t =? 299)%Z then 0 else t + 1)%Z,
     (if (t =? 299)%Z then next_level l else l)).
Proof.
  intros Hk. unfold silent_state, next_level, MAX_ENERGY_LEVEL.
  pose proof (Z.div_mod k 300 ltac:(lia)) as E.
  pose proof (Z.mod_pos_bound k 300 ltac:(lia)) as B.
  destruct (Z.eqb_spec (k mod 300) 299) as [H|H].
  - assert (E1 : (k + 1 = 300 * (k / 300 + 1) + 0)%Z) by lia.
    assert ((k + 1) mod 300 = 0 /\ (k + 1) / 300 = k / 300 + 1)%Z as [-> ->].
    { split; [symmetry; eapply (Z.mod_unique _ _ (k / 300 + 1)); [|exact E1]
             |symmetry; eapply (Z.div_unique _ _ _ 0); [|exact E1]]; lia. }
    f_equal. rewrite Z.add_mod_idemp_l by lia. reflexivity.
  - assert (E1 : (k + 1 = 300 * (k / 300) + (k mod 300 + 1))%Z) by lia.
    assert ((k + 1) mod 300 = k mod 300 + 1
            /\ (k + 1) / 300 = k / 300)%Z as [-> ->].
    { split; [symmetry; eapply (Z.mod_unique _ _ (k / 300)); [|exact E1]
             |symmetry; eapply (Z.div_unique _ _ _ (k mod 300 + 1));
              [|exact E1]]; lia. }
    reflexivity.
Qed.

Section WithMath.
Variable m : MathLib.

Lemma co_run_silent calls : forall w k,
  all_silent calls ->
  (0 <= k)%Z ->
  energy_of (this w) = (fst (silent_state k), snd (silent_state k), 300) ->
  energy_of (this (run m calls w))
  = (fst (silent_state (k + Z.of_nat (renders_in calls))),
     snd (silent_state (k + Z.of_nat (renders_in calls))), 300).
Proof.
  induction calls as [|[d len|wd ht] calls IH]; intros w k Hs Hk H;
    cbn [run renders_in].
  - now rewrite Z.add_0_r.
  - destruct Hs as [Hd Hs'].
    replace (k + Z.of_nat (S (renders_in calls)))%Z
      with ((k + 1) + Z.of_nat (renders_in calls))%Z by lia.
    apply IH; [exact Hs'|lia|].
    rewrite co_render_energy. cbn [with_data this dataArray].
    unfold energy_of in H. injection H as Ht Hl HD.
    rewrite HD, Ht, Hl.
    assert (Hb : (0 <= k mod 300 <= 299)%Z).
    { pose proof (Z.mod_pos_bound k 300 ltac:(lia)). lia. }
    destruct (silent_step (audioIntensity d len) (k mod 300)
                ((k / 300) mod 6 + 1) (silent_intensity d len Hd) Hb)
      as [-> ->].
    pose proof (silent_state_step k Hk) as Hstep.
    unfold silent_state at 1 in Hstep. rewrite Hstep. reflexivity.
  - apply IH; [exact Hs|exact Hk|].
    rewrite co_resize_run. exact H.
Qed.

End WithMath.
End SilenceFacts.


(* ================================================================== *)
(** * The particle pool of [KaleidoscopeRenderer] over any calls *)
(* ================================================================== *)

Module PoolFacts.
Import JS Eff DOM EffFacts FloatFacts SignFacts Pure ReadFacts Kaleidoscope
  KaleidoscopePure KaleidoscopeFacts KaleidoscopeFrame KaleidoscopeFrameFacts
  Calls.
Local Open Scope float_scope.

Section WithMath.
Variable m : MathLib.

Lemma moved_alive sa a b mr p :
  alive p -> respawns a b mr p = false -> alive (moved m sa a b p).
Proof.
  unfold alive, respawns. intros Hp Hr.
  apply orb_false_iff in Hr. destruct Hr as [Hr _].
  rewrite moved_life. apply not_le_zero_gt; [|exact Hr].
  eapply sub_finite_not_nan; [reflexivity|].
  unfold gt in Hp. exact (ltb_not_nan_r _ _ Hp).
Qed.

Lemma stepped_shape sa a b mr ps : forall k,
  let r := stepped m sa a b mr ps k in
  List.length (fst r) = List.length ps
  /\ snd r = (k + 6 * respawning a b mr ps)%nat
  /\ (Forall alive ps -> Forall alive (fst r)).
Proof.
  unfold respawning.
  induction ps as [|p ps IH]; intros k; cbn [stepped filter].
  - cbn. repeat split; auto; lia.
  - destruct (respawns a b mr p) eqn:E.
    + destruct (IH (k + 6)%nat) as (H1 & H2 & H3).
      destruct (stepped m sa a b mr ps (k + 6)) as [qs k'].
      cbn [fst snd List.length] in *. split; [lia|]. split; [lia|].
      intros H. inversion H; subst. constructor; [reflexivity|auto].
    + destruct (IH k) as (H1 & H2 & H3).
      destruct (stepped m sa a b mr ps k) as [qs k'].
      cbn [fst snd List.length] in *. split; [lia|]. split; [lia|].
      intros H. inversion H; subst.
      constructor; [now apply (moved_alive sa a b mr)|auto].
Qed.

Lemma fresh_particles_alive sa mr n : forall k,
  Forall alive (fresh_particles m sa mr k n).
Proof.
  induction n as [|n IH]; intros k; cbn [fresh_particles]; constructor.
  - reflexivity.
  - apply IH.
Qed.

(** What one [render] does to the tick counter and leaves alone, with or
    without contexts. *)
Lemma ks_render_shape len w :
  let r := this w in
  let w' := snd (render m len w) in
  let r' := this w' in
  time r' = (time r + 1)%Z
  /\ canvas r' = canvas r /\ offscreenCanvas r' = offscreenCanvas r
  /\ centerX r' = centerX r /\ centerY r' = centerY r
  /\ maxRadius r' = maxRadius r
  /\ pixelRatio r' = pixelRatio r /\ qualityScale r' = qualityScale r
  /\ List.length (particles r') = List.length (particles r)
  /\ (Forall alive (particles r) -> Forall alive (particles r'))
  /\ (ctx r' = None <-> ctx r = None)
  /\ (offscreenCtx r' = None <-> offscreenCtx r = None)
  /\ devicePixelRatio w' = devicePixelRatio w
  /\ createElement w' = createElement w.
Proof.
  cbv zeta. destruct (ctx (this w)) as [log|] eqn:Ec.
  - destruct (offscreenCtx (this w)) as [olog|] eqn:Eo.
    + rewrite (ks_render_run m len log olog w Ec Eo). cbv zeta.
      unfold rendered.
      cbn [snd this time canvas offscreenCanvas centerX centerY maxRadius
           pixelRatio qualityScale particles ctx offscreenCtx
           devicePixelRatio createElement].
      match goal with
      | |- context [stepped m ?sa ?a ?b ?mr ?ps ?k] =>
          destruct (stepped_shape sa a b mr ps k) as (H1 & _ & H3)
      end.
      cbv zeta in H1, H3.
      repeat split; try reflexivity; try discriminate; assumption.
    + rewrite (ks_render_run_offscreen_null m len log w Ec Eo). cbv zeta.
      cbn [snd with_this this time canvas offscreenCanvas centerX centerY
           maxRadius pixelRatio qualityScale particles ctx offscreenCtx
           devicePixelRatio createElement].
      repeat split; try reflexivity; try discriminate; auto.
  - rewrite (ks_render_run_null m len w Ec).
    cbn [snd with_this this set_hueOffset set_time time canvas
         offscreenCanvas centerX centerY maxRadius pixelRatio qualityScale
         particles ctx offscreenCtx devicePixelRatio createElement].
    rewrite Ec. repeat split; try reflexivity; auto.
Qed.

Lemma ks_render_pool_ok len w :
  pool_ok (this w) -> pool_ok (this (snd (render m len w))).
Proof.
  intros [Ha Hn].
  destruct (ks_render_shape len w) as (_&_&_&_&_&_&_&Hq&Hl&Hal&_).
  unfold pool_ok. rewrite Hq, Hl. auto.
Qed.

Lemma ks_resize_pool_ok wd ht w : pool_ok (this (snd (resize m wd ht w))).
Proof.
  rewrite ks_resize_run. unfold pool_ok.
  cbn [snd this particles qualityScale].
  rewrite fresh_particles_length. split; [apply fresh_particles_alive|auto].
Qed.

Lemma ks_new_pool_ok {R} cv (w0 : World R) :
  pool_ok (this (snd (new m cv w0))).
Proof.
  unfold new. rewrite ks_constructor_run. unfold pool_ok.
  cbn [snd this with_this allocate particles qualityScale app].
  rewrite fresh_particles_length. split; [apply fresh_particles_alive|auto].
Qed.

Lemma ks_run_pool_ok calls : forall w,
  pool_ok (this w) -> pool_ok (this (run m calls w)).
Proof.
  induction calls as [|[d len|wd ht] calls IH]; intros w H; cbn [run]; auto.
  - apply IH. now apply ks_render_pool_ok.
  - apply IH. apply ks_resize_pool_ok.
Qed.

Lemma ks_run_time calls : forall w,
  time (this (run m calls w))
  = (time (this w) + Z.of_nat (renders_in calls))%Z.
Proof.
  induction calls as [|[d len|wd ht] calls IH]; intros w;
    cbn [run renders_in].
  - lia.
  - rewrite IH. destruct (ks_render_shape len (with_data d w)) as (-> & _).
    cbn [with_data this]. lia.
  - rewrite IH, ks_resize_run. reflexivity.
Qed.

(** A pool of living particles passes the test of [drawParticles] whole. *)
Lemma alive_filter ps :
  Forall alive ps -> filter (fun p => negb (le (life p) 0)) ps = ps.
Proof.
  induction 1 as [|p ps Hp _ IH]; cbn [filter]; [reflexivity|].
  unfold alive, gt in Hp.
  assert (le (life p) 0 = false) as ->.
  { unfold le. destruct (PrimFloat.leb (life p) 0) eqn:E; [|reflexivity].
    apply leb_not_gt in E. congruence. }
  cbn [negb]. now rewrite IH.
Qed.

End WithMath.
End PoolFacts.

(* ================================================================== *)
(** * A hue offset that is NaN *)
(* ================================================================== *)

Module HueFacts.
Import JS Eff DOM EffFacts FloatFacts Kaleidoscope KaleidoscopePure
  KaleidoscopeFacts KaleidoscopeFrame Calls.
Local Open Scope float_scope.

Lemma add_nan_l x : nan + x = nan.
Proof.
  apply Prim2SF_inj. rewrite add_spec.
  change (Prim2SF nan) with S754_nan. reflexivity.
Qed.

Section WithMath.
Variable m : MathLib.

(** [render] keeps a NaN hue offset, whatever the buffer. *)
Lemma ks_render_hue_nan len w :
  hueOffset (this w) = nan -> hueOffset (this (snd (render m len w))) = nan.
Proof.
  intros H. rewrite ks_render_hueOffset, H, !add_nan_l. reflexivity.
Qed.

Lemma ks_resize_hue wd ht w :
  hueOffset (this (snd (resize m wd ht w))) = hueOffset (this w).
Proof. rewrite ks_resize_run. reflexivity. Qed.

Lemma ks_run_hue_nan calls : forall w,
  hueOffset (this w) = nan -> hueOffset (this (run m calls w)) = nan.
Proof.
  induction calls as [|[d len|wd ht] calls IH]; intros w H; cbn [run]; auto.
  - apply IH, ks_render_hue_nan. exact H.
  - apply IH. now rewrite ks_resize_hue.
Qed.

(** The bass band of a length from 1 to 6 is empty. *)
Lemma short_bass_nan d len :
  (1 <= len <= 6)%Z -> bandIntensity d len 0 0.15 = nan.
Proof.
  intros H.
  assert (len = 1 \/ len = 2 \/ len = 3 \/ len = 4 \/ len = 5 \/ len = 6)%Z
    as [->|[->|[->|[->|[->| ->]]]]] by lia;
    vm_compute; reflexivity.
Qed.

End WithMath.
End HueFacts.

(* ================================================================== *)
(** * The segment count and the lives of the particles over any calls *)
(* ================================================================== *)

Module SegmentFacts.
Import JS Eff DOM EffFacts FloatFacts Kaleidoscope KaleidoscopePure
  KaleidoscopeFacts KaleidoscopeFrame KaleidoscopeFrameFacts PoolFacts Calls.
Local Open Scope float_scope.

Lemma retargeted_cases b t sg :
  retargeted b t sg = sg
  \/ (retargeted b t sg = targetSegments b /\ (t mod 5 = 0)%Z).
Proof.
  unfold retargeted. destruct (gt _ _); cbn [andb]; [|now left].
  destruct (Z.eqb_spec (t mod 5) 0); [right|left]; auto.
Qed.

Lemma retargeted_off_beat b t sg :
  (t mod 5 <> 0)%Z -> retargeted b t sg = sg.
Proof.
  intros H. destruct (retargeted_cases b t sg) as [E|[_ E]];
    [exact E|contradiction].
Qed.

Section WithMath.
Variable m : MathLib.

(** The segment count after one [render]: retargeted once the fade is
    drawn, left alone when the main context is missing. *)
Lemma ks_render_segments len w :
  segments (this (snd (render m len w)))
  = match ctx (this w) with
    | Some _ => retargeted (bandIntensity (dataArray w) len 0 0.15)
                  (time (this w) + 1) (segments (this w))
    | None => segments (this w)
    end.
Proof.
  destruct (ctx (this w)) as [log|] eqn:Ec.
  - destruct (offscreenCtx (this w)) as [olog|] eqn:Eo.
    + rewrite (ks_render_run m len log olog w Ec Eo). reflexivity.
    + rewrite (ks_render_run_offscreen_null m len log w Ec Eo). reflexivity.
  - rewrite (ks_render_run_null m len w Ec). reflexivity.
Qed.

Lemma ks_resize_segments wd ht w :
  segments (this (snd (resize m wd ht w))) = segments (this w).
Proof. rewrite ks_resize_run. reflexivity. Qed.

Lemma ks_resize_contexts wd ht w :
  ctx (this (snd (resize m wd ht w))) = ctx (this w)
  /\ offscreenCtx (this (snd (resize m wd ht w))) = offscreenCtx (this w).
Proof. rewrite ks_resize_run. split; reflexivity. Qed.

(** No call acquires or loses a context. *)
Lemma ks_run_contexts calls : forall w,
  (ctx (this (run m calls w)) = None <-> ctx (this w) = None)
  /\ (offscreenCtx (this (run m calls w)) = None
      <-> offscreenCtx (this w) = None).
Proof.
  induction calls as [|[d len|wd ht] calls IH]; intros w; cbn [run].
  - tauto.
  - destruct (IH (snd (render m len (with_data d w)))) as [H1 H2].
    destruct (ks_render_shape m len (with_data d w))
      as (_&_&_&_&_&_&_&_&_&_&Hc&Ho&_).
    cbn [with_data this] in Hc, Ho. tauto.
  - destruct (IH (snd (resize m wd ht w))) as [H1 H2].
    destruct (ks_resize_contexts wd ht w) as [Hc Ho].
    rewrite Hc in H1. rewrite Ho in H2. tauto.
Qed.

(** Before the fifth [render] the segment count stays as it is. *)
Lemma ks_run_quiet calls : forall w,
  (0 <= time (this w))%Z ->
  (time (this w) + Z.of_nat (renders_in calls) < 5)%Z ->
  segments (this (run m calls w)) = segments (this w).
Proof.
  induction calls as [|[d len|wd ht] calls IH]; intros w H0 H;
    cbn [run renders_in] in *.
  - reflexivity.
  - destruct (ks_render_shape m len (with_data d w)) as (Ht & _).
    cbn [with_data this] in Ht.
    rewrite IH; [|lia|lia].
    rewrite ks_render_segments. cbn [with_data this dataArray].
    destruct (ctx (this w)); [|reflexivity].
    apply retargeted_off_beat.
    intros E. apply Z.mod_divide in E; [|lia]. destruct E as [q Hq]. lia.
  - rewrite IH.
    + apply ks_resize_segments.
    + rewrite ks_resize_run. exact H0.
    + rewrite ks_resize_run. exact H.
Qed.

End WithMath.
End SegmentFacts.

Module LifeFacts.
Import JS Eff DOM EffFacts FloatFacts Kaleidoscope KaleidoscopePure
  KaleidoscopeFacts KaleidoscopeFrame KaleidoscopeFrameFacts PoolFacts
  KaleidoscopeCanvas SegmentFacts Calls.
Local Open Scope float_scope.

(** A particle that does not respawn has not yet decayed 199 times. *)
Lemma young_when_kept a b mr p k :
  life p = decay k -> (k <= 199)%nat -> respawns a b mr p = false ->
  (S k <= 199)%nat.
Proof.
  intros Hl Hk Hr.
  destruct (Nat.eq_dec k 199) as [->|]; [|lia].
  rewrite (decay_199_dies a b mr p Hl) in Hr. discriminate.
Qed.

Section WithMath.
Variable m : MathLib.

Lemma updated_aged sa a b mr p p' :
  aged p -> updated m sa a b mr p p' -> aged p'.
Proof.
  intros (k & Hk & Hl). unfold updated.
  destruct (respawns a b mr p) eqn:E.
  - intros [j ->]. exists 0%nat. split; [lia|reflexivity].
  - intros ->. exists (S k). split.
    + exact (young_when_kept a b mr p k Hl Hk E).
    + rewrite moved_life, Hl. reflexivity.
Qed.

Lemma stepped_updated sa a b mr ps : forall k,
  Forall2 (updated m sa a b mr) ps (fst (stepped m sa a b mr ps k)).
Proof.
  induction ps as [|p ps IH]; intros k; cbn [stepped]; [constructor|].
  unfold updated at 1.
  destruct (respawns a b mr p) eqn:E.
  - specialize (IH (k + 6)%nat).
    destruct (stepped m sa a b mr ps (k + 6)) as [qs k']. cbn [fst] in *.
    constructor; [|exact IH]. unfold updated. rewrite E. now exists k.
  - specialize (IH k).
    destruct (stepped m sa a b mr ps k) as [qs k']. cbn [fst] in *.
    constructor; [|exact IH]. unfold updated. now rewrite E.
Qed.

(** The pool after one [render], by the way it ends: updated when it
    returns, untouched when it raises. *)
Lemma ks_render_pool len w :
  let w' := snd (render m len w) in
  match fst (render m len w) with
  | Normal _ =>
      Forall2 (updated m (Math_PI * 2 / segments (this w'))
                 (audioIntensity (dataArray w) len)
                 (bandIntensity (dataArray w) len 0 0.15)
                 (maxRadius (this w)))
              (particles (this w)) (particles (this w'))
  | Throw _ => particles (this w') = particles (this w)
  end.
Proof.
  cbv zeta. destruct (ctx (this w)) as [log|] eqn:Ec.
  - destruct (offscreenCtx (this w)) as [olog|] eqn:Eo.
    + rewrite (ks_render_run m len log olog w Ec Eo). cbv zeta.
      cbn [fst snd this rendered segments particles].
      apply stepped_updated.
    + rewrite (ks_render_run_offscreen_null m len log w Ec Eo). reflexivity.
  - rewrite (ks_render_run_null m len w Ec). reflexivity.
Qed.

Lemma Forall2_Forall_r {A} (P : A -> Prop) (Q : A -> A -> Prop) l l' :
  (forall x y, P x -> Q x y -> P y) ->
  Forall2 Q l l' -> Forall P l -> Forall P l'.
Proof.
  intros H. induction 1 as [|x y l l' Hxy _ IH]; intros Hl; [constructor|].
  inversion Hl; subst. constructor; eauto.
Qed.

Lemma ks_render_aged len w :
  Forall aged (particles (this w)) ->
  Forall aged (particles (this (snd (render m len w)))).
Proof.
  intros H. pose proof (ks_render_pool len w) as Hp. cbv zeta in Hp.
  destruct (fst (render m len w)).
  - eapply Forall2_Forall_r; [|exact Hp|exact H].
    intros p p'. apply updated_aged.
  - now rewrite Hp.
Qed.

Lemma fresh_particles_aged sa mr n : forall k,
  Forall aged (fresh_particles m sa mr k n).
Proof.
  induction n as [|n IH]; intros k; cbn [fresh_particles]; constructor.
  - exists 0%nat. split; [lia|reflexivity].
  - apply IH.
Qed.

Lemma ks_resize_aged wd ht w :
  Forall aged (particles (this (snd (resize m wd ht w)))).
Proof.
  rewrite ks_resize_run. cbn [snd this particles].
  apply fresh_particles_aged.
Qed.

Lemma ks_new_aged {R} cv (w0 : World R) :
  Forall aged (particles (this (snd (new m cv w0)))).
Proof.
  unfold new. rewrite ks_constructor_run.
  cbn [snd this with_this allocate particles app].
  apply fresh_particles_aged.
Qed.

Lemma ks_run_aged calls : forall w,
  Forall aged (particles (this w)) ->
  Forall aged (particles (this (run m calls w))).
Proof.
  induction calls as [|[d len|wd ht] calls IH]; intros w H; cbn [run]; auto.
  - apply IH. now apply ks_render_aged.
  - apply IH. apply ks_resize_aged.
Qed.

Lemma ks_renewed i calls : forall w q k,
  all_return m calls w ->
  nth_error (particles (this w)) i = Some q ->
  life q = decay k -> (k <= 199)%nat ->
  (200 <= k + renders_in calls)%nat ->
  exists j, (j < List.length calls)%nat
    /\ (k + renders_in (firstn j calls) < 200)%nat
    /\ renewed_at m i calls w j.
Proof.
  induction calls as [|[d len|wd ht] calls IH]; intros w q k Hr Hq Hl Hk Hn;
    cbn [renders_in] in Hn.
  - lia.
  - destruct (respawns (audioIntensity d len) (bandIntensity d len 0 0.15)
                (maxRadius (this w)) q) eqn:E.
    + exists 0%nat. cbn [List.length firstn renders_in].
      split; [lia|]. split; [lia|].
      unfold renewed_at. cbn [firstn run nth_error]. exists q.
      split; [exact Hq|exact E].
    + cbn [all_return] in Hr. destruct Hr as (_ & Hs & Hr).
      pose proof (ks_render_pool len (with_data d w)) as Hp.
      cbv zeta in Hp. rewrite Hs in Hp. cbn [with_data this dataArray] in Hp.
      destruct (Forall2_nth_error_l _ _ _ _ _ Hp Hq) as (q' & Hq' & Hu).
      unfold updated in Hu. rewrite E in Hu.
      assert (Hl' : life q' = decay (S k))
        by (rewrite Hu, moved_life, Hl; reflexivity).
      pose proof (young_when_kept _ _ _ q k Hl Hk E) as Hk'.
      destruct (IH _ q' (S k) Hr Hq' Hl' Hk' ltac:(lia))
        as (j & Hj & Hc & Hw).
      exists (S j). cbn [List.length firstn renders_in].
      split; [lia|]. split; [lia|].
      unfold renewed_at in *. cbn [firstn run nth_error]. exact Hw.
  - exists 0%nat. cbn [List.length firstn renders_in].
    split; [lia|]. split; [lia|]. exact I.
Qed.

End WithMath.
End LifeFacts.

Module ReturnFacts.
Import JS Eff DOM EffFacts FloatFacts Kaleidoscope KaleidoscopePure
  KaleidoscopeFacts KaleidoscopeFrame KaleidoscopeFrameFacts PoolFacts
  KaleidoscopeCanvas SegmentFacts Calls.
Local Open Scope float_scope.

Section WithMath.
Variable m : MathLib.

Lemma ks_new_time {R} cv (w0 : World R) :
  time (this (snd (new m cv w0))) = 0%Z.
Proof.
  pose proof (ks_new_clock m cv w0) as H. unfold clock in H.
  now injection H.
Qed.

Lemma ks_new_segments {R} cv (w0 : World R) :
  segments (this (snd (new m cv w0))) = 12.
Proof.
  pose proof (ks_new_clock m cv w0) as H. unfold clock in H.
  now injection H.
Qed.

Lemma ks_new_quality {R} cv (w0 : World R) :
  qualityScale (this (snd (new m cv w0))) = quality (width cv * height cv).
Proof. unfold new. rewrite ks_constructor_run. reflexivity. Qed.

Lemma ks_new_pool_size {R} cv (w0 : World R) :
  List.length (particles (this (snd (new m cv w0))))
  = particleCount (quality (width cv * height cv)).
Proof.
  destruct (ks_new_pool_ok m cv w0) as [_ ->]. now rewrite ks_new_quality.
Qed.

(** In the embedding a [render] on a renderer that has both contexts
    returns. *)
Lemma ks_render_returns len w :
  has_contexts (this w) -> fst (render m len w) = Normal tt.
Proof.
  intros [Hc Ho].
  destruct (ctx (this w)) as [log|] eqn:Ec; [|congruence].
  destruct (offscreenCtx (this w)) as [olog|] eqn:Eo; [|congruence].
  now rewrite (ks_render_run m len log olog w Ec Eo).
Qed.

(** Calls of [render] only, of lengths below 2^53 and of targets other
    than [+Infinity], all return on such a renderer. *)
Lemma all_return_renders calls : forall w,
  has_contexts (this w) -> ends_drawing (this w) ->
  segments (this w) <> infinity ->
  Forall (fun c => match c with
                   | Render d len =>
                       (len < 2 ^ 53)%Z
                       /\ targetSegments (bandIntensity d len 0 0.15)
                          <> infinity
                   | Resize _ _ => False
                   end) calls ->
  all_return m calls w.
Proof.
  induction calls as [|[d len|wd ht] calls IH]; intros w Hc Hd Hs Hf;
    cbn [all_return]; [exact I| |inversion Hf; contradiction].
  inversion Hf as [|c cs Hh Hf']; subst. destruct Hh as [Hl Ht].
  assert (Hr : retargeted (bandIntensity d len 0 0.15) (time (this w) + 1)
                 (segments (this w)) <> infinity).
  { destruct (retargeted_cases (bandIntensity d len 0 0.15)
                (time (this w) + 1) (segments (this w))) as [->|[-> _]];
      assumption. }
  split; [|split].
  - unfold loops_end, drawing.
    cbn [segments set_segments set_hueOffset set_time].
    split; [exact Hl|]. split; [exact Hd|exact Hr].
  - now apply ks_render_returns.
  - destruct (ks_render_shape m len (with_data d w))
      as (_&_&_&_&_&_&_&Hq&_&_&Hc'&Ho'&_).
    cbn [with_data this] in Hq, Hc', Ho'.
    apply IH; [| | |exact Hf'].
    + destruct Hc as [H1 H2]. split; tauto.
    + unfold ends_drawing in *. rewrite Hq. exact Hd.
    + rewrite ks_render_segments. cbn [with_data this dataArray].
      destruct (ctx (this w)); [exact Hr|exact Hs].
Qed.

End WithMath.
End ReturnFacts.


(* ================================================================== *)
(** * Saved and restored states of the Canvas calls *)
(* ================================================================== *)

Module CanvasFacts.
Import JS Canvas2D.

Lemma nesting_app a b d :
  nesting (a ++ b) d
  = match nesting a d with Some d' => nesting b d' | None => None end.
Proof.
  revert d. induction a as [|o a IH]; intros d; cbn [app nesting].
  - reflexivity.
  - destruct o; try apply IH. destruct d; [reflexivity|apply IH].
Qed.

Lemma neutral_balanced ops : neutral ops -> balanced ops.
Proof. intros H. apply H. Qed.

Lemma neutral_nil : neutral [].
Proof. intros d. reflexivity. Qed.

Lemma neutral_app a b : neutral a -> neutral b -> neutral (a ++ b).
Proof. intros Ha Hb d. now rewrite nesting_app, Ha. Qed.

Lemma neutral_saved a : neutral a -> neutral (save :: a ++ [restore]).
Proof.
  intros Ha d. cbn [nesting]. rewrite nesting_app, Ha. reflexivity.
Qed.

Lemma closes_app a b : neutral a -> closes b -> closes (a ++ b).
Proof. intros Ha Hb d. now rewrite nesting_app, Ha. Qed.

Lemma neutral_wrapped pre rest :
  opens pre -> closes rest -> neutral (pre ++ rest).
Proof. intros Hp Hq d. now rewrite nesting_app, Hp. Qed.

Lemma neutral_for_loop body n :
  (forall i, neutral (body i)) -> forall i, neutral (for_loop n i body).
Proof.
  intros Hb. induction n as [|n IH]; intros i; cbn [for_loop].
  - apply neutral_nil.
  - apply neutral_app; auto.
Qed.

Lemma neutral_flat_map {A} (f : A -> list Op) xs :
  (forall x, neutral (f x)) -> neutral (flat_map f xs).
Proof.
  intros Hf. induction xs as [|x xs IH]; cbn [flat_map].
  - apply neutral_nil.
  - apply neutral_app; auto.
Qed.

Lemma count_app p a b : count p (a ++ b) = (count p a + count p b)%nat.
Proof. unfold count. now rewrite filter_app, length_app. Qed.

Lemma count_for_loop p body k n :
  (forall i, count p (body i) = k) ->
  forall i, count p (for_loop n i body) = (n * k)%nat.
Proof.
  intros Hb. induction n as [|n IH]; intros i; cbn [for_loop].
  - reflexivity.
  - rewrite count_app, Hb, IH. reflexivity.
Qed.

Lemma count_flat_map {A} p (f : A -> list Op) k xs :
  (forall x, count p (f x) = k) ->
  count p (flat_map f xs) = (List.length xs * k)%nat.
Proof.
  intros Hf. induction xs as [|x xs IH]; cbn [flat_map List.length].
  - reflexivity.
  - rewrite count_app, Hf, IH. reflexivity.
Qed.

End CanvasFacts.

(** Proves [neutral ops] along the structure of the calls. *)
Ltac neutral :=
  lazymatch goal with
  | |- Canvas2D.neutral (Canvas2D.for_loop _ _ _) =>
      apply CanvasFacts.neutral_for_loop; intros ?; neutral
  | |- Canvas2D.neutral (flat_map _ _) =>
      apply CanvasFacts.neutral_flat_map; intros ?; neutral
  | |- Canvas2D.neutral (if ?c then _ else _) => destruct c; neutral
  | |- Canvas2D.neutral (_ ++ _) =>
      first [ apply CanvasFacts.neutral_app; [solve [neutral]|neutral]
            | apply CanvasFacts.neutral_wrapped;
              [intros ?; reflexivity|closing] ]
  | |- Canvas2D.neutral _ =>
      first [solve [auto] | intros ?; reflexivity]
  end
with closing :=
  lazymatch goal with
  | |- Canvas2D.closes (_ ++ _) =>
      apply CanvasFacts.closes_app; [neutral|closing]
  | |- Canvas2D.closes _ => intros ?; reflexivity
  end.

Module ChemicalCanvasFacts.
Import JS DOM Canvas2D CanvasFacts ChemicalOrbitals ChemicalCanvas.
Local Open Scope float_scope.

Section WithMath.
Variable m : MathLib.
Variable r : Renderer.

Lemma label_neutral a : neutral (drawEnergyLevelLabel r a).
Proof. unfold drawEnergyLevelLabel. neutral. Qed.

Lemma nucleus_neutral a b : neutral (drawNucleus r a b).
Proof. unfold drawNucleus. neutral. Qed.

Lemma dumbbell_neutral rad ang a t : neutral (drawDumbbellOrbital rad ang a t).
Proof. unfold drawDumbbellOrbital. neutral. Qed.

Lemma cloverleaf_neutral rad ang a t :
  neutral (drawCloverleafOrbital m rad ang a t).
Proof. unfold drawCloverleafOrbital. neutral. Qed.

Lemma orbitals_neutral n a b mid t : neutral (drawOrbitals m r n a b mid t).
Proof.
  pose proof dumbbell_neutral. pose proof cloverleaf_neutral.
  unfold drawOrbitals, draw1sOrbital, draw2sOrbital, draw2pOrbitals,
    draw3sOrbital, draw3pOrbitals, draw3dOrbitals, drawShell.
  neutral.
Qed.

Lemma electrons_neutral r' n a t : neutral (drawElectrons r' n a t).
Proof. unfold drawElectrons. neutral. Qed.

Lemma frame_neutral a b mid t : neutral (frame m r a b mid t).
Proof.
  pose proof label_neutral. pose proof orbitals_neutral.
  pose proof nucleus_neutral. pose proof electrons_neutral.
  unfold frame. neutral.
Qed.

End WithMath.
End ChemicalCanvasFacts.

Module ChemicalCountFacts.
Import JS DOM Canvas2D CanvasFacts ChemicalOrbitals ChemicalCanvas.
Local Open Scope float_scope.

Section WithMath.
Variable m : MathLib.
Variable r : Renderer.

Lemma orbitals_count n a b mid t :
  count is_arc (drawOrbitals m r n a b mid t) = orbital_arcs n
  /\ count is_gradient (drawOrbitals m r n a b mid t) = orbital_gradients n
  /\ count is_translate (drawOrbitals m r n a b mid t) = 1%nat.
Proof.
  unfold drawOrbitals, orbital_arcs, orbital_gradients.
  rewrite !count_app.
  destruct (n =? 1)%Z; [repeat split; reflexivity|].
  destruct (n =? 2)%Z; [repeat split; reflexivity|].
  destruct (n =? 3)%Z; [repeat split; reflexivity|].
  rewrite (count_for_loop is_arc _ 2), (count_for_loop is_gradient _ 1),
    (count_for_loop is_translate _ 0);
    try (intros i; reflexivity).
  cbn. repeat split; lia.
Qed.

Lemma electrons_count r' n a t :
  count is_arc (drawElectrons r' n a t) = (List.length (electrons r') * 2)%nat
  /\ count is_gradient (drawElectrons r' n a t)
     = (List.length (electrons r') * 1)%nat.
Proof.
  unfold drawElectrons. rewrite !count_app.
  rewrite (count_flat_map is_arc _ 2), (count_flat_map is_gradient _ 1);
    try (intros e; reflexivity).
  cbn. split; lia.
Qed.

End WithMath.
End ChemicalCountFacts.

Module KaleidoscopeCanvasFacts.
Import JS DOM Canvas2D CanvasFacts Kaleidoscope KaleidoscopeFrame
  KaleidoscopeCanvas.
Local Open Scope float_scope.

Section WithMath.
Variable m : MathLib.
Variable r : Renderer.

Lemma rays_neutral a b mid sa : neutral (drawRays m r a b mid sa).
Proof. unfold drawRays. neutral. Qed.

Lemma particles_neutral a t : neutral (drawParticles r a t).
Proof. unfold drawParticles. neutral. Qed.

Lemma patterns_neutral a b mid t :
  neutral (drawGeometricPatterns m r a b mid t).
Proof. unfold drawGeometricPatterns. neutral. Qed.

Lemma layers_neutral a b mid t sa :
  neutral (drawKaleidoscopicLayers m r a b mid t sa).
Proof. unfold drawKaleidoscopicLayers. neutral. Qed.

Lemma segment_neutral a b mid t : neutral (drawSegment m r a b mid t).
Proof.
  assert (H1 := rays_neutral). assert (H2 := particles_neutral).
  assert (H3 := patterns_neutral). assert (H4 := layers_neutral).
  unfold drawSegment. neutral.
Qed.

Lemma offscreen_neutral a b mid t : neutral (offscreen_frame m r a b mid t).
Proof.
  unfold offscreen_frame. intros d. cbn [nesting]. apply segment_neutral.
Qed.

Lemma main_neutral : neutral (main_frame r).
Proof.
  unfold main_frame. neutral.
Qed.

(** The mirroring loop draws the off-screen canvas once per iteration and
    flips every other time. *)
Lemma mirror_count body_angle dx dy n : forall i,
  (0 <= i)%Z ->
  let ops := for_loop n i (fun i =>
       [save; rotate (body_angle i)]
       ++ (if (i mod 2 =? 1)%Z then [scale 1 (-1)] else [])
       ++ [drawImage dx dy; restore]) in
  count is_drawImage ops = n
  /\ count is_scale ops
     = ((n + Z.to_nat (i mod 2)) / 2)%nat.
Proof.
  induction n as [|n IH]; intros i Hi; cbv zeta; cbn [for_loop].
  - split; [reflexivity|].
    pose proof (Z.mod_pos_bound i 2 ltac:(lia)).
    assert (i mod 2 = 0 \/ i mod 2 = 1)%Z as [-> | ->] by lia; reflexivity.
  - destruct (IH (i + 1)%Z ltac:(lia)) as [H1 H2]. cbv zeta in H1, H2.
    rewrite !(count_app _ _ (for_loop _ _ _)), H1, H2.
    pose proof (Z.mod_pos_bound i 2 ltac:(lia)).
    assert (E : (i mod 2 = 0 /\ (i + 1) mod 2 = 1
                 \/ i mod 2 = 1 /\ (i + 1) mod 2 = 0)%Z).
    { rewrite Z.add_mod by lia.
      assert (i mod 2 = 0 \/ i mod 2 = 1)%Z as [-> | ->] by lia;
        [left|right]; split; reflexivity. }
    destruct E as [[-> ->]|[-> ->]];
      cbn [Z.eqb Pos.eqb count filter app List.length is_drawImage is_scale];
      change (Z.to_nat 0) with 0%nat; change (Z.to_nat 1) with 1%nat;
      (split; [reflexivity|]).
    + replace (S n + 0)%nat with (n + 1)%nat by lia. reflexivity.
    + replace (S n + 1)%nat with (n + 0 + 1 * 2)%nat by lia.
      rewrite Nat.div_add by lia. lia.
Qed.

Lemma alive_not_skipped p : alive p -> le (life p) 0 = false.
Proof.
  unfold alive, gt, le. intros Hp.
  destruct (PrimFloat.leb (life p) 0) eqn:E; [|reflexivity].
  exfalso. revert Hp E.
  rewrite FloatAxioms.ltb_spec, FloatAxioms.leb_spec.
  change (Prim2SF 0) with (S754_zero false). unfold SFltb, SFleb.
  destruct (Prim2SF (life p)) as [s|s| |s mx ex]; cbn;
    try destruct s; cbn; congruence.
Qed.

(** [drawParticles] on a pool of living particles: one [translate] and
    two arcs for each. *)
Lemma particles_count a t :
  Forall alive (particles r) ->
  count is_arc (drawParticles r a t) = (2 * List.length (particles r))%nat
  /\ count is_translate (drawParticles r a t) = List.length (particles r).
Proof.
  unfold drawParticles.
  induction 1 as [|p ps Hp Ha [IH1 IH2]]; cbn [flat_map List.length];
    [split; reflexivity|].
  rewrite !count_app, IH1, IH2, (alive_not_skipped p Hp).
  cbn [count filter is_arc is_translate List.length]. split; lia.
Qed.

End WithMath.
End KaleidoscopeCanvasFacts.

(* ================================================================== *)
(** * The claims on the segment count and on the particles *)
(* ================================================================== *)

Section KaleidoscopeClaims.
Import JS Eff DOM EffFacts Kaleidoscope KaleidoscopePure KaleidoscopeFacts
  KaleidoscopeFrame KaleidoscopeCanvas PoolFacts SegmentFacts LifeFacts Calls.
Local Open Scope float_scope.
Variable m : MathLib.

(** C8. The segment count is 12 after construction. Whatever calls of
    [render] and [resize] came before, with whatever buffers, a [render]
    assigns the count its target [floor(12 + 20 * bass)] when the two
    differ, the tick it counts is a multiple of 5 and the main context
    exists, and leaves it as it is otherwise; so of any two calls of
    [render] with at most three others between them, at most one changes
    the count. [resize] leaves it as it is. *)
Theorem C8_segments_change_only_on_every_fifth_tick
  {R} (cv : Canvas) (w0 : World R) (before between : list action)
  (d1 d2 : Uint8Array) (len1 len2 : Z) (wd ht : number) :
  (renders_in between <= 3)%nat ->
  let w1 := run m before (snd (new m cv w0)) in
  let w1' := snd (render m len1 (with_data d1 w1)) in
  let w2 := run m between w1' in
  let w2' := snd (render m len2 (with_data d2 w2)) in
  let tick := (Z.of_nat (renders_in before) + 1)%Z in
  let target := Math_floor (12 + bandIntensity d1 len1 0 0.15 * 20) in
  segments (this (snd (new m cv w0))) = 12
  /\ time (this w1') = tick
  /\ segments (this w1')
     = match ctx (this w1) with
       | Some _ =>
           if gt (Math_abs (segments (this w1) - target)) 0
              && (tick mod 5 =? 0)%Z
           then target else segments (this w1)
       | None => segments (this w1)
       end
  /\ (segments (this w1') = segments (this w1)
      \/ (segments (this w1') = target /\ (tick mod 5 = 0)%Z))
  /\ (segments (this w1') <> segments (this w1) ->
      segments (this w2') = segments (this w2))
  /\ segments (this (snd (resize m wd ht w1))) = segments (this w1).
Proof.
  intros Hb. cbv zeta.
  set (w1 := run m before (snd (new m cv w0))).
  pose proof (ks_new_clock m cv w0) as Hn. unfold clock in Hn.
  injection Hn as Hs0 Ht0.
  assert (Ht1 : time (this w1) = Z.of_nat (renders_in before)).
  { unfold w1. rewrite ks_run_time, Ht0. lia. }
  assert (Ht1' : time (this (snd (render m len1 (with_data d1 w1))))
                 = (Z.of_nat (renders_in before) + 1)%Z).
  { destruct (ks_render_shape m len1 (with_data d1 w1)) as (-> & _).
    cbn [with_data this]. lia. }
  assert (Hseg : segments (this (snd (render m len1 (with_data d1 w1))))
                 = match ctx (this w1) with
                   | Some _ => retargeted (bandIntensity d1 len1 0 0.15)
                                 (Z.of_nat (renders_in before) + 1)
                                 (segments (this w1))
                   | None => segments (this w1)
                   end).
  { rewrite ks_render_segments. cbn [with_data this dataArray].
    now rewrite Ht1. }
  assert (Hcases :
            segments (this (snd (render m len1 (with_data d1 w1))))
            = segments (this w1)
            \/ (segments (this (snd (render m len1 (with_data d1 w1))))
                = targetSegments (bandIntensity d1 len1 0 0.15)
                /\ ((Z.of_nat (renders_in before) + 1) mod 5 = 0)%Z)).
  { rewrite Hseg. destruct (ctx (this w1)); [|now left].
    apply retargeted_cases. }
  split; [exact Hs0|]. split; [exact Ht1'|]. split; [exact Hseg|].
  split; [exact Hcases|]. split; [|apply ks_resize_segments].
  intros Hch. destruct Hcases as [E|[_ E]]; [contradiction|].
  rewrite ks_render_segments. cbn [with_data this dataArray].
  destruct (ctx (this (run m between _))); [|reflexivity].
  apply retargeted_off_beat.
  rewrite ks_run_time, Ht1'.
  apply Z.mod_divide in E; [|lia]. destruct E as [q Hq].
  intros E'. apply Z.mod_divide in E'; [|lia]. destruct E' as [q' Hq'].
  lia.
Qed.

(** C6. One [render] that returns takes every particle either to its
    moved state, with a life exactly 0.005 lower, or, when its life has
    reached 0 or its radial distance exceeds 0.6 * maxRadius, to a
    respawned state built from six results [u1 .. u6] of [Math.random()]:
    angle [u1 * segmentAngle], radius [u2 * 50], velocity components
    [(u - 0.5) * 2], life 1, hue [u5 * 360], size
    [5 + u6 * 15 + bass * 10]; a [render] that raises leaves the pool as
    it is. After construction and any calls the life of every particle is
    1 less at most 199 times 0.005; and from such a pool, over calls that
    all return, with any buffers, every particle meets the respawn test,
    or is replaced by a [resize], before 200 calls of [render] have
    passed. *)
Theorem C6_particle_lifecycle
  {R} (cv : Canvas) (w0 : World R) (history calls : list action)
  (w : W) (i : nat) :
  (forall n, unit_interval (random_source m n) = true) ->
  Forall aged (particles (this w)) ->
  (i < List.length (particles (this w)))%nat ->
  (200 <= renders_in calls)%nat ->
  all_return m calls w ->
  (forall (d : Uint8Array) (len : Z) (v : W),
     let a := audioIntensity d len in
     let b := bandIntensity d len 0 0.15 in
     let mr := maxRadius (this v) in
     let v' := snd (render m len (with_data d v)) in
     let sa := Math_PI * 2 / segments (this v') in
     match fst (render m len (with_data d v)) with
     | Normal _ =>
         Forall2
           (fun q q' =>
              if le (life q - 0.005) 0 || gt (radial_distance a b q) (mr * 0.6)
              then exists u1 u2 u3 u4 u5 u6,
                     forallb unit_interval [u1; u2; u3; u4; u5; u6] = true
                     /\ q' = mkParticle (Math_cos m (u1 * sa) * (u2 * 50))
                                        (Math_sin m (u1 * sa) * (u2 * 50))
                                        ((u3 - 0.5) * 2) ((u4 - 0.5) * 2)
                                        (5 + u6 * 15 + b * 10) (u5 * 360) 1
              else q' = moved m sa a b q /\ life q' = life q - 0.005)
           (particles (this v)) (particles (this v'))
     | Throw _ => particles (this v') = particles (this v)
     end)
  /\ Forall aged (particles (this (run m history (snd (new m cv w0)))))
  /\ exists j,
       (j < List.length calls)%nat
       /\ (renders_in (firstn j calls) < 200)%nat
       /\ renewed_at m i calls w j.
Proof.
  intros Hu Ha Hi Hn Hr. split; [|split].
  - intros d len v. cbv zeta.
    pose proof (ks_render_pool m len (with_data d v)) as Hp. cbv zeta in Hp.
    cbn [with_data this dataArray] in Hp.
    destruct (fst (render m len (with_data d v))); [|exact Hp].
    eapply Forall2_impl; [|exact Hp].
    intros q q' Hq. unfold updated, respawns in Hq. cbv beta.
    destruct (le (life q - 0.005) 0 || gt _ _).
    + destruct Hq as [k ->]. unfold respawned.
      exists (random_source m k), (random_source m (k + 1)),
        (random_source m (k + 2)), (random_source m (k + 3)),
        (random_source m (k + 4)), (random_source m (k + 5)).
      split; [|reflexivity].
      cbn [forallb]. rewrite !Hu. reflexivity.
    + split; [exact Hq|]. rewrite Hq. apply moved_life.
  - apply ks_run_aged, ks_new_aged.
  - destruct (nth_error (particles (this w)) i) as [q|] eqn:Hq;
      [|apply nth_error_None in Hq; lia].
    rewrite Forall_forall in Ha.
    destruct (Ha q (nth_error_In _ _ Hq)) as (k & Hk & Hl).
    destruct (ks_renewed m i calls w q k Hr Hq Hl Hk ltac:(lia))
      as (j & Hj & Hc & Hw).
    exists j. split; [exact Hj|]. split; [lia|exact Hw].
Qed.

End KaleidoscopeClaims.

(** ** The theorems with hypotheses, applied *)

Lemma C8_segments_witness :
  let m := Scenario.small_angle_math in
  let before := [Calls.Render Scenario.buffer64 64;
                 Calls.Render Scenario.buffer64 64;
                 Calls.Render Scenario.buffer64 64;
                 Calls.Render Scenario.buffer64 64] in
  let w1 := KaleidoscopeFrame.run m before
              (snd (Kaleidoscope.new m Scenario.canvas200 Scenario.world64)) in
  (Calls.renders_in [] <= 3)%nat
  /\ Kaleidoscope.segments (DOM.this w1) = 12%float
  /\ Kaleidoscope.segments
       (DOM.this (snd (Kaleidoscope.render m 64
                         (Calls.with_data Scenario.buffer64 w1))))
     = 22%float.
Proof.
  cbv zeta.
  pose proof (C8_segments_change_only_on_every_fifth_tick
                Scenario.small_angle_math Scenario.canvas200 Scenario.world64
                [Calls.Render Scenario.buffer64 64;
                 Calls.Render Scenario.buffer64 64;
                 Calls.Render Scenario.buffer64 64;
                 Calls.Render Scenario.buffer64 64] []
                Scenario.buffer64 Scenario.buffer64 64 64
                800%float 600%float (Nat.le_0_l 3))
    as (H12 & _ & Hs & _).
  cbv zeta in Hs.
  pose proof (ReturnFacts.ks_new_time Scenario.small_angle_math
                Scenario.canvas200 Scenario.world64) as Ht0.
  remember (snd (Kaleidoscope.new Scenario.small_angle_math
                   Scenario.canvas200 Scenario.world64)) as w0 eqn:Ew0.
  assert (Hq : Kaleidoscope.segments
                 (DOM.this
                    (KaleidoscopeFrame.run Scenario.small_angle_math
                       [Calls.Render Scenario.buffer64 64;
                        Calls.Render Scenario.buffer64 64;
                        Calls.Render Scenario.buffer64 64;
                        Calls.Render Scenario.buffer64 64] w0))
               = 12%float).
  { rewrite (SegmentFacts.ks_run_quiet Scenario.small_angle_math);
      [exact H12| |]; rewrite Ht0; vm_compute; congruence. }
  assert (Hc : Kaleidoscope.ctx
                 (DOM.this
                    (KaleidoscopeFrame.run Scenario.small_angle_math
                       [Calls.Render Scenario.buffer64 64;
                        Calls.Render Scenario.buffer64 64;
                        Calls.Render Scenario.buffer64 64;
                        Calls.Render Scenario.buffer64 64] w0))
               <> None).
  { intros E.
    apply (SegmentFacts.ks_run_contexts Scenario.small_angle_math) in E.
    rewrite Ew0 in E.
    rewrite (proj1 (KaleidoscopeFacts.ks_new_contexts
                      Scenario.small_angle_math Scenario.canvas200
                      Scenario.world64)) in E.
    discriminate E. }
  split; [apply Nat.le_0_l|]. split; [exact Hq|].
  rewrite Hs, Hq.
  remember (KaleidoscopeFrame.run Scenario.small_angle_math
              [Calls.Render Scenario.buffer64 64;
               Calls.Render Scenario.buffer64 64;
               Calls.Render Scenario.buffer64 64;
               Calls.Render Scenario.buffer64 64] w0) as w1 eqn:Ew1.
  destruct (Kaleidoscope.ctx (DOM.this w1)) as [log|]; [|congruence].
  vm_compute. reflexivity.
Defined.

Lemma C6_lifecycle_witness :
  let m := Scenario.small_angle_math in
  let w := snd (Kaleidoscope.new m Scenario.canvas200 Scenario.world64) in
  let calls := repeat (Calls.Render Scenario.buffer64 64) 200 in
  (forall n, KaleidoscopePure.unit_interval (random_source m n) = true)
  /\ Forall KaleidoscopeFrame.aged (Kaleidoscope.particles (DOM.this w))
  /\ (0 < List.length (Kaleidoscope.particles (DOM.this w)))%nat
  /\ (200 <= Calls.renders_in calls)%nat
  /\ KaleidoscopeCanvas.all_return m calls w
  /\ exists j,
       (j < List.length calls)%nat
       /\ (Calls.renders_in (firstn j calls) < 200)%nat
       /\ KaleidoscopeCanvas.renewed_at m 0 calls w j.
Proof.
  cbv zeta.
  assert (Hu : forall n, KaleidoscopePure.unit_interval
                 (random_source Scenario.small_angle_math n) = true)
    by (intros n; reflexivity).
  pose proof (LifeFacts.ks_new_aged Scenario.small_angle_math
                Scenario.canvas200 Scenario.world64) as Ha.
  assert (Hi : (0 < List.length
                      (Kaleidoscope.particles
                         (DOM.this
                            (snd (Kaleidoscope.new Scenario.small_angle_math
                                    Scenario.canvas200 Scenario.world64)))))%nat).
  { rewrite ReturnFacts.ks_new_pool_size. vm_compute. lia. }
  assert (Hn : (200 <= Calls.renders_in
                         (repeat (Calls.Render Scenario.buffer64 64) 200))%nat).
  { vm_compute. lia. }
  assert (Hr : KaleidoscopeCanvas.all_return Scenario.small_angle_math
                 (repeat (Calls.Render Scenario.buffer64 64) 200)
                 (snd (Kaleidoscope.new Scenario.small_angle_math
                         Scenario.canvas200 Scenario.world64))).
  { apply ReturnFacts.all_return_renders.
    - destruct (KaleidoscopeFacts.ks_new_contexts Scenario.small_angle_math
                  Scenario.canvas200 Scenario.world64) as [Hc Ho].
      split; [rewrite Hc|rewrite Ho]; discriminate.
    - unfold KaleidoscopeCanvas.ends_drawing.
      rewrite ReturnFacts.ks_new_quality.
      repeat split; intros E; apply (f_equal Prim2SF) in E; vm_compute in E;
        discriminate E.
    - apply KaleidoscopeFacts.ks_new_ends_mirroring.
    - apply Forall_forall. intros c Hc. apply repeat_spec in Hc. subst c.
      split; [reflexivity|].
      intros E. apply (f_equal Prim2SF) in E. vm_compute in E.
      discriminate E. }
  split; [exact Hu|]. split; [exact Ha|]. split; [exact Hi|].
  split; [exact Hn|]. split; [exact Hr|].
  exact (proj2 (proj2 (C6_particle_lifecycle Scenario.small_angle_math
                         Scenario.canvas200 Scenario.world64 []
                         _ _ 0 Hu Ha Hi Hn Hr))).
Defined.

(* ================================================================== *)
(** * Further properties of the two renderers *)
(* ================================================================== *)

Section ChemicalStateClaims.
Import JS Eff DOM EffFacts ChemicalOrbitals ChemicalPure ChemicalFrame
  ChemicalFrameFacts EnergyFacts SilenceFacts Calls.
Local Open Scope float_scope.
Variable m : MathLib.

(** X3. After construction and any calls of [render] and [resize], with
    any buffers, the level is one of 1 .. 6, the timer is below 300, the
    pool holds [floor(50 * qualityScale)] electrons and the tick counter
    is the number of calls of [render]; one more [render] leaves the level
    and adds one to the timer, or restarts the timer and moves the level
    one or two steps on. *)
Theorem X3_energy_state_stays_in_range_for_any_calls
  {R} (cv : Canvas) (w0 : World R) (calls : list action)
  (d : Uint8Array) (bufferLength : Z) :
  let w := run m calls (snd (new m cv w0)) in
  let w' := snd (render m bufferLength (with_data d w)) in
  let l := currentEnergyLevel (this w) in
  let t := energyLevelTimer (this w) in
  (1 <= l <= 6)%Z /\ (0 <= t <= 299)%Z
  /\ energyLevelDuration (this w) = 300
  /\ time (this w) = Z.of_nat (renders_in calls)
  /\ List.length (electrons (this w))
     = Z.to_nat (floor_int (50 * qualityScale (this w)))
  /\ ((currentEnergyLevel (this w') = l
       /\ energyLevelTimer (this w') = (t + 1)%Z)
      \/ (energyLevelTimer (this w') = 0%Z
          /\ (currentEnergyLevel (this w') = next_level l
              \/ currentEnergyLevel (this w')
                 = next_level (next_level l)))).
Proof.
  cbv zeta.
  destruct (co_new_in_range m cv w0) as [H0 T0].
  pose proof (co_run_in_range m calls _ H0) as (HD & Ht & Hl & Hp).
  split; [exact Hl|]. split; [exact Ht|]. split; [exact HD|].
  split; [rewrite co_run_time, T0; lia|]. split; [exact Hp|].
  pose proof (ChemicalFacts.co_render_energy m bufferLength
                (with_data d (run m calls (snd (new m cv w0))))) as H.
  cbv zeta in H. unfold ChemicalFacts.energy_of in H.
  cbn [with_data this dataArray] in H. injection H as H1 H2 _.
  rewrite H1, H2, HD.
  destruct (range_step (audioIntensity d bufferLength) _ _ Ht Hl)
    as (_ & _ & H).
  exact H.
Qed.

(** X4. While every buffer passed to [render] is silent, whatever the
    lengths passed with it and whatever calls of [resize] come between,
    the level moves exactly every 300 calls of [render]: after [k] of them
    it is [(k / 300) mod 6 + 1] and the timer is [k mod 300]. *)
Theorem X4_silence_advances_the_level_every_300_renders
  {R} (cv : Canvas) (w0 : World R) (calls : list action) :
  all_silent calls ->
  let w := run m calls (snd (new m cv w0)) in
  let k := Z.of_nat (renders_in calls) in
  currentEnergyLevel (this w) = ((k / 300) mod 6 + 1)%Z
  /\ energyLevelTimer (this w) = (k mod 300)%Z.
Proof.
  intros Hs. cbv zeta.
  pose proof (co_run_silent m calls (snd (new m cv w0)) 0 Hs
                ltac:(lia)) as H.
  rewrite ChemicalCycle.co_new_energy in H. specialize (H eq_refl).
  unfold ChemicalFacts.energy_of in H. injection H as Ht Hl.
  rewrite Ht, Hl. unfold silent_state. cbn [fst snd]. split; reflexivity.
Qed.

(** X5. One [render], whether it completes or raises, leaves the canvas,
    the centre, the maximal radius, the pixel ratio, the quality scale and
    the nominal duration as they are, keeps the number of electrons and
    the speed of each, and never calls [Math.random()]. *)
Theorem X5_render_leaves_the_geometry_and_the_speeds
  (bufferLength : Z) (w : W) :
  let w' := snd (render m bufferLength w) in
  let r := this w in
  let r' := this w' in
  canvas r' = canvas r
  /\ centerX r' = centerX r /\ centerY r' = centerY r
  /\ maxRadius r' = maxRadius r
  /\ pixelRatio r' = pixelRatio r /\ qualityScale r' = qualityScale r
  /\ energyLevelDuration r' = energyLevelDuration r
  /\ map speed (electrons r') = map speed (electrons r)
  /\ draws w' = draws w
  /\ devicePixelRatio w' = devicePixelRatio w.
Proof.
  cbv zeta. destruct (ctx (this w)) as [log|] eqn:E.
  - rewrite (co_render_run m bufferLength log w E).
    unfold rendered, counted, orbiting.
    cbn [snd with_this this set_ctx set_electrons canvas ctx centerX centerY
         maxRadius pixelRatio qualityScale energyLevelDuration electrons
         currentEnergyLevel draws devicePixelRatio].
    rewrite map_map. cbn [updateElectron speed].
    repeat split; reflexivity.
  - rewrite (co_render_run_null m bufferLength w E).
    unfold counted.
    cbn [snd with_this this canvas ctx centerX centerY maxRadius pixelRatio
         qualityScale energyLevelDuration electrons draws devicePixelRatio].
    repeat split; reflexivity.
Qed.

(** X6. On a canvas without a 2D context every [render] raises a
    [TypeError] after it has counted the tick: whatever calls came before,
    the tick counter, the timer and the level are those of a renderer on
    any other canvas after the same calls, and [render] leaves the
    electrons where they are. *)
Theorem X6_without_context_render_raises_but_counts
  {R} (cv cv' : Canvas) (w0 : World R) (calls : list action)
  (d : Uint8Array) (bufferLength : Z) :
  getContext2d cv = None ->
  let w := run m calls (snd (new m cv w0)) in
  let v := run m calls (snd (new m cv' w0)) in
  let w' := snd (render m bufferLength (with_data d w)) in
  fst (render m bufferLength (with_data d w)) = Throw TypeError
  /\ electrons (this w') = electrons (this w)
  /\ time (this w) = time (this v)
  /\ energyLevelTimer (this w) = energyLevelTimer (this v)
  /\ currentEnergyLevel (this w) = currentEnergyLevel (this v).
Proof.
  intros Hc. cbv zeta.
  assert (Hn : ctx (this (run m calls (snd (new m cv w0)))) = None).
  { apply co_run_null. now rewrite ChemicalCycle.co_new_ctx. }
  rewrite (co_render_run_null m bufferLength
             (with_data d (run m calls (snd (new m cv w0)))) Hn).
  split; [reflexivity|]. split; [reflexivity|].
  destruct (co_run_energy_eq m calls (snd (new m cv w0)) (snd (new m cv' w0)))
    as [He Ht].
  { now rewrite !ChemicalCycle.co_new_energy. }
  { destruct (co_new_in_range m cv w0) as [_ ->].
    destruct (co_new_in_range m cv' w0) as [_ ->]. reflexivity. }
  unfold ChemicalFacts.energy_of in He. injection He as H1 H2 _.
  auto.
Qed.

End ChemicalStateClaims.

Section KaleidoscopeStateClaims.
Import JS Eff DOM EffFacts Kaleidoscope KaleidoscopePure KaleidoscopeFrame
  KaleidoscopeFrameFacts PoolFacts Calls.
Local Open Scope float_scope.
Variable m : MathLib.

(** X7. After construction and any calls of [render] and [resize], every
    particle of the pool has a life above 0, so that the test
    [particle.life <= 0] of [drawParticles] skips none; the pool holds
    [floor(100 * qualityScale)] particles and the tick counter is the
    number of calls of [render]. *)
Theorem X7_every_particle_stays_alive
  {R} (cv : Canvas) (w0 : World R) (calls : list action) :
  let r := this (run m calls (snd (new m cv w0))) in
  Forall (fun p => gt (life p) 0 = true) (particles r)
  /\ filter (fun p => negb (le (life p) 0)) (particles r) = particles r
  /\ List.length (particles r)
     = Z.to_nat (floor_int (100 * qualityScale r))
  /\ time r = Z.of_nat (renders_in calls).
Proof.
  cbv zeta.
  destruct (ks_run_pool_ok m calls _ (ks_new_pool_ok m cv w0)) as [Ha Hn].
  split; [exact Ha|]. split; [now apply alive_filter|]. split; [exact Hn|].
  rewrite ks_run_time.
  pose proof (KaleidoscopeFacts.ks_new_clock m cv w0) as Hc.
  unfold KaleidoscopeFacts.clock in Hc. injection Hc as _ ->. lia.
Qed.

(** X8. One [render], whether it completes or raises, leaves both
    canvases, the centre, the maximal radius, the pixel ratio and the
    quality scale as they are and keeps the number of particles; when it
    completes it has called [Math.random()] six times for each particle
    that respawned, and not at all when it raises. *)
Theorem X8_render_leaves_the_geometry_and_draws_six_per_respawn
  (bufferLength : Z) (w : W) :
  let w' := snd (render m bufferLength w) in
  let r := this w in
  let r' := this w' in
  let a := audioIntensity (dataArray w) bufferLength in
  let b := bandIntensity (dataArray w) bufferLength 0 0.15 in
  canvas r' = canvas r /\ offscreenCanvas r' = offscreenCanvas r
  /\ centerX r' = centerX r /\ centerY r' = centerY r
  /\ maxRadius r' = maxRadius r
  /\ pixelRatio r' = pixelRatio r /\ qualityScale r' = qualityScale r
  /\ List.length (particles r') = List.length (particles r)
  /\ draws w'
     = match fst (render m bufferLength w) with
       | Normal _ =>
           (draws w + 6 * respawning a b (maxRadius r) (particles r))%nat
       | Throw _ => draws w
       end.
Proof.
  cbv zeta.
  destruct (ks_render_shape m bufferLength w)
    as (_ & H1 & H2 & H3 & H4 & H5 & H6 & H7 & H8 & _).
  repeat (split; [assumption|]).
  destruct (ctx (this w)) as [log|] eqn:Ec.
  - destruct (offscreenCtx (this w)) as [olog|] eqn:Eo.
    + rewrite (ks_render_run m bufferLength log olog w Ec Eo). cbv zeta.
      cbn [fst snd draws].
      match goal with
      | |- context [stepped m ?sa ?a ?b ?mr ?ps ?k] =>
          destruct (stepped_shape m sa a b mr ps k) as (_ & H & _)
      end.
      exact H.
    + rewrite (ks_render_run_offscreen_null m bufferLength log w Ec Eo).
      reflexivity.
  - rewrite (ks_render_run_null m bufferLength w Ec). reflexivity.
Qed.

(** X9. A [render] that misses one of its contexts raises a [TypeError]
    half-way: the tick counter and the hue offset have moved, the pool and
    the off-screen context are untouched and [Math.random()] was not
    called; with the main context present the fade is already drawn on it
    and the segment count retargeted, but no segment is mirrored. *)
Theorem X9_a_render_without_a_context_stops_half_way
  (bufferLength : Z) (w : W) :
  ctx (this w) = None \/ offscreenCtx (this w) = None ->
  let w' := snd (render m bufferLength w) in
  let r := this w in
  let r' := this w' in
  let b := bandIntensity (dataArray w) bufferLength 0 0.15 in
  fst (render m bufferLength w) = Throw TypeError
  /\ time r' = (time r + 1)%Z
  /\ hueOffset r' = rem (hueOffset r + 0.5 + b * 2) 360
  /\ particles r' = particles r
  /\ draws w' = draws w
  /\ offscreenCtx r' = offscreenCtx r
  /\ match ctx r with
     | None => ctx r' = None /\ segments r' = segments r
     | Some log =>
         ctx r'
         = Some (log ++ [mkDraw "fillRect"
                           [0.05 * (1 + (1 - qualityScale r) * 0.5); 0; 0;
                            width (canvas r); height (canvas r)]])
         /\ segments r' = retargeted b (time r + 1) (segments r)
     end.
Proof.
  intros H. cbv zeta.
  destruct (ctx (this w)) as [log|] eqn:Ec.
  - destruct H as [H|Eo]; [discriminate|].
    rewrite (ks_render_run_offscreen_null m bufferLength log w Ec Eo).
    cbv zeta. cbn [fst snd with_this this time hueOffset particles draws
                   offscreenCtx ctx segments].
    rewrite Eo. repeat split; reflexivity.
  - rewrite (ks_render_run_null m bufferLength w Ec).
    cbn [fst snd with_this this set_hueOffset set_time time hueOffset
         particles draws offscreenCtx ctx segments].
    rewrite Ec. repeat split; reflexivity.
Qed.

(** X10. [resize] of [KaleidoscopeRenderer] completes even when a context
    is missing. It leaves the tick counter, the hue offset, the segment
    count and both contexts as they are, and replaces the pool by
    [floor(100 * qualityScale)] particles of life 1, for the quality
    scale of the new area, calling [Math.random()] six times for each. *)
Theorem X10_kaleidoscope_resize_keeps_the_clock_and_refills_the_pool
  (wd ht : number) (w : W) :
  let w' := snd (resize m wd ht w) in
  let r := this w in
  let r' := this w' in
  fst (resize m wd ht w) = Normal tt
  /\ time r' = time r /\ hueOffset r' = hueOffset r
  /\ segments r' = segments r
  /\ ctx r' = ctx r /\ offscreenCtx r' = offscreenCtx r
  /\ qualityScale r' = quality (wd * ht)
  /\ List.length (particles r') = particleCount (qualityScale r')
  /\ Forall (fun p => life p = 1) (particles r')
  /\ draws w' = (draws w + 6 * particleCount (qualityScale r'))%nat.
Proof.
  cbv zeta. rewrite (KaleidoscopeFacts.ks_resize_run m wd ht w). cbv zeta.
  cbn [fst snd this draws time hueOffset segments ctx offscreenCtx canvas
       offscreenCanvas width height qualityScale particles].
  repeat (split; [reflexivity|]).
  split; [apply KaleidoscopeFacts.fresh_particles_length|].
  split; [|reflexivity].
  generalize (draws w) as k.
  induction (particleCount (quality (wd * ht))) as [|n IH]; intros k;
    cbn [fresh_particles]; constructor; [reflexivity|apply IH].
Qed.

End KaleidoscopeStateClaims.

Section ChemicalCanvasClaims.
Import JS DOM Canvas2D CanvasFacts ChemicalOrbitals ChemicalPure ChemicalFrame
  ChemicalCanvas ChemicalCanvasFacts ChemicalCountFacts.
Local Open Scope float_scope.
Variable m : MathLib.

(** X11. Each drawing routine of [ChemicalOrbitalsRenderer] restores every
    state of the context that it saves and pops none that it did not save,
    whatever the level, the pool and the intensities; so do the calls of a
    whole [render], which leave the stack of saved states as they found
    it. *)
Theorem X11_chemical_drawing_restores_every_state_it_saves
  (d : Uint8Array) (bufferLength : Z) (r : Renderer) (n : Z)
  (a b mid treble : number) :
  neutral (drawEnergyLevelLabel r a)
  /\ neutral (drawOrbitals m r n a b mid treble)
  /\ neutral (drawNucleus r a b)
  /\ neutral (drawElectrons r n a treble)
  /\ balanced (render_calls m d bufferLength r).
Proof.
  split; [apply label_neutral|]. split; [apply orbitals_neutral|].
  split; [apply nucleus_neutral|]. split; [apply electrons_neutral|].
  apply neutral_balanced. unfold render_calls. apply frame_neutral.
Qed.

(** X12. One [render] creates a gradient object for the nucleus, one for
    each electron, and 1, 7, 27 or [n] for the orbitals of the level 1, 2,
    3 or [n >= 4] it has reached; it draws 2 arcs for the nucleus, 2 for
    each electron and 2, 8, 28 or [2 n] for the orbitals, and translates
    the origin three times. *)
Theorem X12_gradients_and_arcs_of_a_chemical_render
  (d : Uint8Array) (bufferLength : Z) (r : Renderer) :
  let n := currentEnergyLevel (counted (audioIntensity d bufferLength) r) in
  let e := List.length (electrons r) in
  let calls := render_calls m d bufferLength r in
  count is_gradient calls = (orbital_gradients n + 1 + e)%nat
  /\ count is_arc calls = (orbital_arcs n + 2 + 2 * e)%nat
  /\ count is_translate calls = 3%nat.
Proof.
  cbv zeta. unfold render_calls, frame.
  set (a := audioIntensity d bufferLength).
  set (r1 := counted a r).
  rewrite !count_app.
  match goal with
  | |- context [drawOrbitals m r1 ?n ?a ?b ?mid ?t] =>
      destruct (orbitals_count m r1 n a b mid t) as (-> & -> & ->)
  end.
  match goal with
  | |- context [drawElectrons ?r' ?n ?a ?t] =>
      destruct (electrons_count r' n a t) as (-> & ->);
      assert (Hl : List.length (electrons r') = List.length (electrons r))
  end.
  { cbn [set_electrons electrons]. unfold orbiting. rewrite length_map.
    reflexivity. }
  rewrite Hl.
  assert (Ht : forall r' n a t,
            count is_translate (drawElectrons r' n a t) = 1%nat).
  { intros r' n a' t. unfold drawElectrons. rewrite !count_app.
    rewrite (count_flat_map is_translate _ 0) by (intros ?; reflexivity).
    cbn. lia. }
  rewrite Ht.
  unfold drawEnergyLevelLabel, drawNucleus.
  cbn [count filter is_gradient is_arc is_translate List.length].
  repeat split; lia.
Qed.

End ChemicalCanvasClaims.

Section KaleidoscopeCanvasClaims.
Import JS DOM Canvas2D CanvasFacts Kaleidoscope KaleidoscopePure
  KaleidoscopeFrame KaleidoscopeCanvas KaleidoscopeCanvasFacts
  KaleidoscopeFacts PoolFacts Calls.
Local Open Scope float_scope.
Variable m : MathLib.

(** X13. On a receiver whose counting loops end, each drawing routine of
    [KaleidoscopeRenderer] restores every state of the off-screen context
    that it saves and pops none that it did not save, whatever the pool
    and the intensities; so do the calls of a whole [render] on the
    off-screen context, which leave the stack of saved states as they
    found it. *)
Theorem X13_kaleidoscope_drawing_restores_every_state_it_saves
  (d : Uint8Array) (bufferLength : Z) (r : Renderer)
  (a b mid treble sa : number) :
  ends_drawing r ->
  neutral (drawRays m r a b mid sa)
  /\ neutral (drawParticles r a treble)
  /\ neutral (drawGeometricPatterns m r a b mid treble)
  /\ neutral (drawKaleidoscopicLayers m r a b mid treble sa)
  /\ neutral (drawSegment m r a b mid treble)
  /\ balanced (offscreen_calls m d bufferLength r).
Proof.
  intros _.
  split; [apply rays_neutral|]. split; [apply particles_neutral|].
  split; [apply patterns_neutral|]. split; [apply layers_neutral|].
  split; [apply segment_neutral|].
  apply neutral_balanced. unfold offscreen_calls. apply offscreen_neutral.
Qed.

(** X14. After construction and any calls of [render] and [resize], the
    next [render] draws every particle of the pool: [drawParticles]
    translates the origin once and draws two arcs for each of the
    [floor(100 * qualityScale)] particles, skipping none. *)
Theorem X14_every_particle_of_the_pool_is_drawn
  {R} (cv : Canvas) (w0 : World R) (calls : list action)
  (d : Uint8Array) (bufferLength : Z) (a treble : number) :
  let r := this (run m calls (snd (new m cv w0))) in
  let drawn := drawParticles (drawing d bufferLength r) a treble in
  count is_arc drawn = (2 * particleCount (qualityScale r))%nat
  /\ count is_translate drawn = particleCount (qualityScale r).
Proof.
  cbv zeta.
  destruct (ks_run_pool_ok m calls _ (ks_new_pool_ok m cv w0)) as [Ha Hn].
  set (r := this (run m calls (snd (new m cv w0)))) in *.
  assert (Hp : particles (drawing d bufferLength r) = particles r)
    by reflexivity.
  destruct (particles_count (drawing d bufferLength r) a treble) as [H1 H2];
    [rewrite Hp; exact Ha|].
  rewrite H1, H2, Hp, Hn. split; reflexivity.
Qed.

(** X15. On the main context one [render] with a segment count that is
    not [+Infinity] draws the off-screen canvas once for each segment
    index below the count, flips the image for every second one, the odd
    indexes, by [scale(1, -1)], and leaves the stack of saved states as it
    found it. *)
Theorem X15_the_segment_is_mirrored_once_per_segment
  (d : Uint8Array) (bufferLength : Z) (r : Renderer) :
  ends_mirroring (drawing d bufferLength r) ->
  let n := iterations (segments (drawing d bufferLength r)) in
  count is_drawImage (main_calls d bufferLength r) = n
  /\ count is_scale (main_calls d bufferLength r) = (n / 2)%nat
  /\ balanced (main_calls d bufferLength r).
Proof.
  intros _. cbv zeta. unfold main_calls.
  set (r' := drawing d bufferLength r).
  split; [|split; [|apply neutral_balanced, main_neutral]].
  - unfold main_frame. rewrite !count_app.
    match goal with
    | |- context [for_loop ?n 0 (fun i => [save; rotate (@?f i)] ++ _)] =>
        destruct (mirror_count f (- centerX r') (- centerY r') n 0
                    ltac:(lia)) as [H _]
    end.
    cbv zeta in H. rewrite H.
    cbn [count filter is_drawImage List.length].
    now rewrite Nat.add_0_r.
  - unfold main_frame. rewrite !count_app.
    match goal with
    | |- context [for_loop ?n 0 (fun i => [save; rotate (@?f i)] ++ _)] =>
        destruct (mirror_count f (- centerX r') (- centerY r') n 0
                    ltac:(lia)) as [_ H]
    end.
    cbv zeta in H. rewrite H. cbn [count filter is_scale List.length].
    change (Z.to_nat (0 mod 2)) with 0%nat.
    now rewrite !Nat.add_0_r.
Qed.

End KaleidoscopeCanvasClaims.

Section HueClaims.
Import JS Eff DOM FloatFacts Kaleidoscope KaleidoscopePure KaleidoscopeFacts
  KaleidoscopeFrame HueFacts Calls.
Local Open Scope float_scope.
Variable m : MathLib.

(** X16. A single [render] with a [bufferLength] from 1 to 6 leaves the
    hue offset NaN for good: whatever the buffers, the lengths and the
    sizes of the calls of [render] and [resize] that follow, on a
    renderer with or without its contexts, the hue offset is still NaN
    after them. *)
Theorem X16_a_short_buffer_leaves_the_hue_offset_NaN_for_good
  (d : Uint8Array) (bufferLength : Z) (calls : list action) (w : W) :
  (1 <= bufferLength <= 6)%Z ->
  hueOffset (this (run m (Render d bufferLength :: calls) w)) = nan.
Proof.
  intros H. cbn [run]. apply ks_run_hue_nan.
  rewrite ks_render_hueOffset. cbn [with_data dataArray].
  rewrite (short_bass_nan d bufferLength H).
  change (nan * 2) with nan. rewrite add_nan_r. reflexivity.
Qed.

End HueClaims.

(** ** The theorems with hypotheses, applied *)

Lemma X4_silence_witness :
  let m := Scenario.small_angle_math in
  let calls := [Calls.Render (repeat Byte.x00 4) 4;
                Calls.Resize 800%float 600%float;
                Calls.Render [] 0] in
  Calls.all_silent calls
  /\ ChemicalOrbitals.currentEnergyLevel
       (DOM.this (ChemicalFrame.run m calls
                    (snd (ChemicalOrbitals.new m Scenario.canvas200
                            Scenario.world64))))
     = ((Z.of_nat (Calls.renders_in calls) / 300) mod 6 + 1)%Z.
Proof.
  cbv zeta.
  assert (Hs : Calls.all_silent
                 [Calls.Render (repeat Byte.x00 4) 4;
                  Calls.Resize 800%float 600%float;
                  Calls.Render [] 0]).
  { cbn [Calls.all_silent]. repeat split; repeat constructor. }
  split; [exact Hs|].
  exact (proj1 (X4_silence_advances_the_level_every_300_renders
                  Scenario.small_angle_math Scenario.canvas200
                  Scenario.world64 _ Hs)).
Defined.

Lemma X6_missing_context_witness :
  let m := Scenario.small_angle_math in
  let cv := DOM.mkCanvas 200%float 100%float None in
  let calls := [Calls.Render Scenario.buffer64 64] in
  DOM.getContext2d cv = None
  /\ fst (ChemicalOrbitals.render m 64
            (Calls.with_data Scenario.buffer64
               (ChemicalFrame.run m calls
                  (snd (ChemicalOrbitals.new m cv Scenario.world64)))))
     = Eff.Throw Eff.TypeError.
Proof.
  cbv zeta. split; [reflexivity|].
  exact (proj1 (X6_without_context_render_raises_but_counts
                  Scenario.small_angle_math (DOM.mkCanvas 200%float 100%float None)
                  Scenario.canvas200 Scenario.world64
                  [Calls.Render Scenario.buffer64 64] Scenario.buffer64 64
                  eq_refl)).
Defined.

Lemma X9_missing_context_witness :
  let m := Scenario.small_angle_math in
  let w := snd (Kaleidoscope.new m (DOM.mkCanvas 200%float 100%float None)
                  Scenario.world64) in
  (Kaleidoscope.ctx (DOM.this w) = None
   \/ Kaleidoscope.offscreenCtx (DOM.this w) = None)
  /\ fst (Kaleidoscope.render m 64 w) = Eff.Throw Eff.TypeError.
Proof.
  cbv zeta.
  assert (H : Kaleidoscope.ctx
                (DOM.this (snd (Kaleidoscope.new Scenario.small_angle_math
                                  (DOM.mkCanvas 200%float 100%float None)
                                  Scenario.world64))) = None).
  { rewrite (proj1 (KaleidoscopeFacts.ks_new_contexts
                      Scenario.small_angle_math (DOM.mkCanvas 200%float 100%float None)
                      Scenario.world64)).
    reflexivity. }
  split; [left; exact H|].
  exact (proj1 (X9_a_render_without_a_context_stops_half_way
                  Scenario.small_angle_math 64 _ (or_introl H))).
Defined.

Lemma X13_drawing_witness :
  let m := Scenario.small_angle_math in
  let r := Kaleidoscope.mkRenderer Scenario.canvas200 (Some [])
             Scenario.canvas200 (Some []) 12%float [] 0
             0%float 100%float 50%float 40%float 1%float 1%float in
  KaleidoscopeCanvas.ends_drawing r
  /\ Canvas2D.balanced
       (KaleidoscopeCanvas.offscreen_calls m Scenario.buffer64 64 r).
Proof.
  cbv zeta.
  assert (H : KaleidoscopeCanvas.ends_drawing
                (Kaleidoscope.mkRenderer Scenario.canvas200 (Some [])
                   Scenario.canvas200 (Some []) 12%float [] 0
                   0%float 100%float 50%float 40%float 1%float 1%float)).
  { unfold KaleidoscopeCanvas.ends_drawing.
    cbn [Kaleidoscope.qualityScale].
    repeat split; intros E; apply (f_equal Prim2SF) in E; vm_compute in E;
      discriminate. }
  split; [exact H|].
  destruct (X13_kaleidoscope_drawing_restores_every_state_it_saves
              Scenario.small_angle_math Scenario.buffer64 64 _
              0%float 0%float 0%float 0%float 0%float H)
    as (_ & _ & _ & _ & _ & Hb).
  exact Hb.
Defined.

Lemma X15_mirroring_witness :
  let r := Kaleidoscope.mkRenderer Scenario.canvas200 (Some [])
             Scenario.canvas200 (Some []) 12%float [] 0
             0%float 100%float 50%float 40%float 1%float 1%float in
  KaleidoscopeFacts.ends_mirroring
    (KaleidoscopeCanvas.drawing Scenario.buffer64 64 r)
  /\ Canvas2D.count Canvas2D.is_drawImage
       (KaleidoscopeCanvas.main_calls Scenario.buffer64 64 r)
     = JS.iterations
         (Kaleidoscope.segments
            (KaleidoscopeCanvas.drawing Scenario.buffer64 64 r)).
Proof.
  cbv zeta.
  assert (H : KaleidoscopeFacts.ends_mirroring
                (KaleidoscopeCanvas.drawing Scenario.buffer64 64
                   (Kaleidoscope.mkRenderer Scenario.canvas200 (Some [])
                      Scenario.canvas200 (Some []) 12%float [] 0
                      0%float 100%float 50%float 40%float 1%float
                      1%float))).
  { unfold KaleidoscopeFacts.ends_mirroring, KaleidoscopeCanvas.drawing,
      KaleidoscopeFrame.retargeted.
    cbn [Kaleidoscope.segments Kaleidoscope.set_segments
         Kaleidoscope.set_hueOffset Kaleidoscope.set_time Kaleidoscope.time].
    change ((0 + 1) mod 5 =? 0)%Z with false. rewrite andb_false_r.
    intros E; apply (f_equal Prim2SF) in E; vm_compute in E; discriminate. }
  split; [exact H|].
  exact (proj1 (X15_the_segment_is_mirrored_once_per_segment
                  Scenario.buffer64 64 _ H)).
Defined.

Lemma X16_short_buffer_witness :
  let m := Scenario.small_angle_math in
  let calls := [Calls.Resize 800%float 600%float;
                Calls.Render Scenario.buffer64 64] in
  (1 <= 3 <= 6)%Z
  /\ Kaleidoscope.hueOffset
       (DOM.this
          (KaleidoscopeFrame.run m (Calls.Render Scenario.buffer64 3 :: calls)
             (snd (Kaleidoscope.new m Scenario.canvas200 Scenario.world64))))
     = nan.
Proof.
  cbv zeta. split; [lia|].
  apply (X16_a_short_buffer_leaves_the_hue_offset_NaN_for_good
           Scenario.small_angle_math Scenario.buffer64 3).
  lia.
Defined.
